(** * SPLINTER: the RBF network core and the state serializer

    A shallow embedding of [src/rbfnetwork.cpp] and of [src/serializer.cpp],
    with the properties of the specification stated and proved over it.

    The C++ code computes on [double].  Every function of the network is
    written once, over an interface [Double D] that lists the operations
    the code applies to doubles, and is then read at two instances:
    - [binary64]: IEEE 754 double precision, round to nearest even, as
      specified by the Standard Library's [SpecFloat]; this is what the
      program runs, and it evaluates inside Rocq;
    - [exact]: the real numbers; this is the arithmetic in which the
      algebraic identities of the specification are meant.

    Statements that only concern the shape of the computation (which sums are
    formed, which errors are raised) are proved for every instance. *)

From Stdlib Require Import ZArith NArith List Bool String Lia Reals Lra.
From Stdlib Require Import SpecFloat.
From stdpp Require Import base list strings gmap.

Set Default Proof Using "Type".
Local Open Scope nat_scope.

(** ** Arithmetic on [double] *)

Class Double (D : Type) := {
  d0 : D;                       (* the literals [0] and [0.0] *)
  dadd : D -> D -> D;
  dsub : D -> D -> D;
  dmul : D -> D -> D;
  ddiv : D -> D -> D;
  dsqrt : D -> D;               (* std::sqrt *)
  deqb : D -> D -> bool;        (* operator== *)
  dleb : D -> D -> bool;        (* operator<= *)
}.

Declare Scope double_scope.
Delimit Scope double_scope with D.
Infix "+" := dadd : double_scope.
Infix "-" := dsub : double_scope.
Infix "*" := dmul : double_scope.
Infix "/" := ddiv : double_scope.

(** [a != b] on doubles is the negation of [a == b] (so it holds when one
    side is a NaN). *)
Definition dneb {D} `{Double D} (a b : D) : bool := negb (deqb a b).

(** IEEE 754 binary64. *)
Definition prec64 : Z := 53.
Definition emax64 : Z := 1024.

#[export] Instance binary64 : Double spec_float := {|
  d0 := S754_zero false;
  dadd := SFadd prec64 emax64;
  dsub := SFsub prec64 emax64;
  dmul := SFmul prec64 emax64;
  ddiv := SFdiv prec64 emax64;
  dsqrt := SFsqrt prec64 emax64;
  deqb := SFeqb;
  dleb := SFleb;
|}.

(** Exact real arithmetic. *)
#[export] Instance exact : Double R := {|
  d0 := 0%R;
  dadd := Rplus;
  dsub := Rminus;
  dmul := Rmult;
  ddiv := Rdiv;
  dsqrt := sqrt;
  deqb := fun a b => if Req_dec_T a b then true else false;
  dleb := fun a b => if Rle_dec a b then true else false;
|}.

(** ** Exceptions

    The code throws [SPLINTER::Exception] with a message; [std::vector::at]
    throws [std::out_of_range].  [undefined_behaviour] is no exception of
    the program: it ends the executions whose behaviour C++ leaves
    undefined (a read outside an Eigen vector, which is a failed Eigen
    assertion in a build with assertions), so that nothing is claimed of
    what follows them. *)

Inductive exception :=
  | Exception (what : string)
  | out_of_range
  | undefined_behaviour.

Inductive result (A : Type) :=
  | Ok (a : A)
  | Throw (e : exception).
Arguments Ok {A} a.
Arguments Throw {A} e.

#[export] Instance result_ret : MRet result := fun A a => Ok a.
#[export] Instance result_bind : MBind result := fun A B k r =>
  match r with
  | Ok a => k a
  | Throw e => Throw e
  end.

#[export] Instance result_fmap : FMap result := fun A B f r =>
  match r with
  | Ok a => Ok (f a)
  | Throw e => Throw e
  end.

Definition msg_eval : string :=
  "RBFNetwork::eval: Wrong dimension on evaluation point x.".
Definition msg_evalBasis : string :=
  "RBFNetwork::evalBasis: Wrong dimension on evaluation point x.".
Definition msg_dist : string :=
  "RBFNetwork::dist: Cannot measure distance between two points of different dimension".

(** The specification's error kind DimensionMismatch: "input vector length
    does not match model's fixed dimensionality, or two vectors being compared
    have different lengths".  In the code these are the three throw sites
    above. *)
Definition DimensionMismatch (e : exception) : bool :=
  match e with
  | Exception what =>
      String.eqb what msg_eval || String.eqb what msg_evalBasis
      || String.eqb what msg_dist
  | out_of_range => false
  | undefined_behaviour => false
  end.

Definition raises {A} (r : result A) (P : exception -> bool) : bool :=
  match r with
  | Ok _ => false
  | Throw e => P e
  end.

(** ** Eigen's dense vector and matrix

    [DenseVector] and [DenseMatrix] are Eigen's [VectorXd] and [MatrixXd]:
    a length (resp. two dimensions) and the coefficients, stored column by
    column.  [operator()] does not check its indices when assertions are
    off.  Where the index is inside the object whenever the invariant of
    the network holds, the read is [vcoeff] or [mcoeff], which yield the
    default [dflt] out of range, and a write out of range changes nothing.
    Where the code itself can leave the object (the singular values of a
    table without samples), the read is [vread], which is undefined out of
    range. *)

Definition DenseVector (T : Type) := list T.

Record DenseMatrix (T : Type) := mkDenseMatrix {
  rows : nat;
  cols : nat;
  coeffs : list T;
}.
Arguments mkDenseMatrix {T}.
Arguments rows {T}.
Arguments cols {T}.
Arguments coeffs {T}.

Section Eigen.
Context {T : Type}.

Definition vcoeff (dflt : T) (v : DenseVector T) (i : nat) : T :=
  nth i v dflt.

(* v(i) where nothing keeps [i] inside [v] *)
Definition vread (v : DenseVector T) (i : nat) : result T :=
  match v !! i with
  | Some a => Ok a
  | None => Throw undefined_behaviour
  end.

Definition vset (v : DenseVector T) (i : nat) (x : T) : DenseVector T :=
  <[i := x]> v.

(* v.setZero(n), and the constructor DenseVector v(n) with [x] for the
   indeterminate initial contents *)
Definition vconst (n : nat) (x : T) : DenseVector T := replicate n x.

Definition mindex (m : DenseMatrix T) (i j : nat) : nat := i + j * rows m.

Definition mcoeff (dflt : T) (m : DenseMatrix T) (i j : nat) : T :=
  nth (mindex m i j) (coeffs m) dflt.

Definition mset (m : DenseMatrix T) (i j : nat) (x : T) : DenseMatrix T :=
  {| rows := rows m; cols := cols m;
     coeffs := <[mindex m i j := x]> (coeffs m) |}.

(* m.setZero(r, c) and m.resize(r, c), with [x] the contents *)
Definition mconst (r c : nat) (x : T) : DenseMatrix T :=
  {| rows := r; cols := c; coeffs := replicate (r * c) x |}.

(** The storage invariant of a matrix Eigen hands out. *)
Definition mwf (m : DenseMatrix T) : Prop :=
  length (coeffs m) = rows m * cols m.
End Eigen.

(** ** Samples *)

Record DataPoint (D : Type) := mkDataPoint {
  getX : list D;
  getY : D;
}.
Arguments mkDataPoint {D}.
Arguments getX {D}.
Arguments getY {D}.

(** The sample table, in the order [cbegin() .. cend()] visits it. *)
Record DataTable (D : Type) := mkDataTable {
  getNumVariables : nat;
  points : list (DataPoint D);
}.
Arguments mkDataTable {D}.
Arguments getNumVariables {D}.
Arguments points {D}.

Definition getNumSamples {D} (t : DataTable D) : nat := length (points t).

(** What [DataTable] guarantees of its contents: every sample has the
    table's number of variables. *)
Definition table_wf {D} (t : DataTable D) : Prop :=
  Forall (fun p => length (getX p) = getNumVariables t) (points t).

(** ** Kernels *)

(** The argument of the constructor.  [RBFType] is an [enum class]; a value
    that is none of its five enumerators (obtained by a cast, or read from a
    file) is [UNRECOGNIZED] with its underlying integer. *)
Inductive RBFType :=
  | THIN_PLATE_SPLINE
  | MULTIQUADRIC
  | INVERSE_QUADRIC
  | INVERSE_MULTIQUADRIC
  | GAUSSIAN
  | UNRECOGNIZED (underlying : Z).

(** The subclasses of [RBF] that [fn] can point to. *)
Inductive RBF :=
  | ThinPlateSpline
  | Multiquadric
  | InverseQuadric
  | InverseMultiquadric
  | Gaussian.

(** What the network uses and this repository's two files do not define:
    the kernels' [eval] and [evalDerivative] (rbf.h), Eigen's [JacobiSVD],
    and the contents of a freshly constructed Eigen vector. *)
Class Environment (D : Type) := {
  RBF_eval : RBF -> D -> D;
  RBF_evalDerivative : RBF -> D -> D;
  svd_singularValues : DenseMatrix D -> DenseVector D;
  svd_solve : DenseMatrix D -> DenseVector D -> DenseVector D;
  indeterminate : D;
}.

(** ** Loops *)

(** [for (it = l.cbegin(), i = i0; it != l.cend(); ++it, ++i) body] with the
    loop-carried variables in [s]; an exception leaves the loop. *)
Fixpoint for_each {A St : Type} (body : nat -> A -> St -> result St)
    (i : nat) (l : list A) (s : St) : result St :=
  match l with
  | [] => Ok s
  | a :: l' => s' ← body i a s; for_each body (S i) l' s'
  end.

(** The same loop with a body that cannot throw. *)
Fixpoint fold_each {A St : Type} (body : nat -> A -> St -> St)
    (i : nat) (l : list A) (s : St) : St :=
  match l with
  | [] => s
  | a :: l' => fold_each body (S i) l' (body i a s)
  end.

(** [for (i = i0; i < i0 + n; i++) body]. *)
Fixpoint for_range {St : Type} (body : nat -> St -> result St)
    (i n : nat) (s : St) : result St :=
  match n with
  | 0 => Ok s
  | S n' => s' ← body i s; for_range body (S i) n' s'
  end.

(** [v.at(i)] of [std::vector]. *)
Definition at_ {T} (v : list T) (i : nat) : result T :=
  match v !! i with
  | Some a => Ok a
  | None => Throw out_of_range
  end.

(** ** The network *)

Definition RBFType_eqb (a b : RBFType) : bool :=
  match a, b with
  | THIN_PLATE_SPLINE, THIN_PLATE_SPLINE
  | MULTIQUADRIC, MULTIQUADRIC
  | INVERSE_QUADRIC, INVERSE_QUADRIC
  | INVERSE_MULTIQUADRIC, INVERSE_MULTIQUADRIC
  | GAUSSIAN, GAUSSIAN => true
  | UNRECOGNIZED m, UNRECOGNIZED n => Z.eqb m n
  | _, _ => false
  end.

Record RBFNetwork (D : Type) := mkRBFNetwork {
  numVariables : nat;            (* of the base class Function *)
  samples : DataTable D;
  type : RBFType;
  normalized : bool;
  precondition : bool;
  numSamples : nat;
  fn : RBF;
  coefficients : DenseVector D;
}.
Arguments mkRBFNetwork {D}.
Arguments numVariables {D}.
Arguments samples {D}.
Arguments type {D}.
Arguments normalized {D}.
Arguments precondition {D}.
Arguments numSamples {D}.
Arguments fn {D}.
Arguments coefficients {D}.

(** What training computes besides the weights and prints in debug builds. *)
Record Diagnostics (D : Type) := mkDiagnostics {
  svalmax : D;
  svalmin : D;
  rcondnum : D;
}.
Arguments mkDiagnostics {D}.
Arguments svalmax {D}.
Arguments svalmin {D}.
Arguments rcondnum {D}.

Section Network.
Context {D : Type} `{Double D} `{Environment D}.
Local Open Scope double_scope.

(** RBFNetwork::dist(std::vector<double>, std::vector<double>) *)
Definition dist (x y : list D) : result D :=
  if negb (length x =? length y)%nat then Throw (Exception msg_dist)
  else
    sum ← for_range (fun i sum =>
             xi ← at_ x i; yi ← at_ y i;
             Ok (sum + (xi - yi) * (xi - yi)))
           0 (length x) d0;
    Ok (dsqrt sum).

(** RBFNetwork::dist(DataPoint, DataPoint) *)
Definition dist_points (x y : DataPoint D) : result D :=
  dist (getX x) (getX y).

(** The chain of comparisons that sets [fn] in the constructor. *)
Definition select_kernel (type : RBFType) : RBF :=
  if RBFType_eqb type THIN_PLATE_SPLINE then ThinPlateSpline
  else if RBFType_eqb type MULTIQUADRIC then Multiquadric
  else if RBFType_eqb type INVERSE_QUADRIC then InverseQuadric
  else if RBFType_eqb type INVERSE_MULTIQUADRIC then InverseMultiquadric
  else if RBFType_eqb type GAUSSIAN then Gaussian
  else ThinPlateSpline.

(** Eigen's products [P*A] and [P*b], used by the preconditioning branch. *)
Definition mmul (P A : DenseMatrix D) : DenseMatrix D :=
  {| rows := rows P; cols := cols A;
     coeffs :=
       flat_map (fun j =>
         map (fun i =>
           fold_left (fun s k => s + mcoeff d0 P i k * mcoeff d0 A k j)
                     (seq 0 (cols P)) d0)
           (seq 0 (rows P)))
         (seq 0 (cols A)) |}.

Definition mvmul (P : DenseMatrix D) (b : DenseVector D) : DenseVector D :=
  map (fun i =>
    fold_left (fun s k => s + mcoeff d0 P i k * vcoeff d0 b k)
              (seq 0 (cols P)) d0)
    (seq 0 (rows P)).

(** RBFNetwork::computePreconditionMatrix *)
Definition computePreconditionMatrix (numSamples : nat) : DenseMatrix D :=
  mconst numSamples numSamples d0.

(** The two nested loops of the constructor that fill [A] and [b]. *)
Definition assemble_row (fn : RBF) (pts : list (DataPoint D))
    (i : nat) (it1 : DataPoint D) (A : DenseMatrix D)
    : result (DenseMatrix D * D) :=
  for_each (fun j it2 '(A, sum) =>
      r ← dist_points it1 it2;
      let val := RBF_eval fn r in
      if dneb val d0 then Ok (mset A i j val, sum + val)
      else Ok (A, sum))
    0 pts (A, d0).

Definition assemble (fn : RBF) (normalized : bool)
    (pts : list (DataPoint D)) (A : DenseMatrix D) (b : DenseVector D)
    : result (DenseMatrix D * DenseVector D) :=
  for_each (fun i it1 '(A, b) =>
      '(A, sum) ← assemble_row fn pts i it1 A;
      let y := getY it1 in
      if normalized then Ok (A, vset b i (sum * y))
      else Ok (A, vset b i y))
    0 pts (A, b).

Definition rcond_of (svalmax svalmin : D) : D :=
  if dleb svalmax d0 || dleb svalmin d0 then d0 else svalmin / svalmax.

(** RBFNetwork::RBFNetwork(const DataTable &, RBFType, bool).  The
    statements under [#ifndef NDEBUG] only print; what they print of the
    conditioning is returned next to the network.  [svals(0)] and
    [svals(svals.rows()-1)] are read whatever the size of [svals]: for a
    table without samples [svals] is empty and both reads are outside it. *)
Definition RBFNetwork_new (samples : DataTable D) (type : RBFType)
    (normalized : bool) : result (RBFNetwork D * Diagnostics D) :=
  let numVariables := getNumVariables samples in
  let precondition := false in
  let numSamples := getNumSamples samples in
  let fn := select_kernel type in
  let A := mconst numSamples numSamples d0 in
  let b := vconst numSamples d0 in
  '(A, b) ← assemble fn normalized (points samples) A b;
  let '(A, b) :=
    if precondition then
      let P := computePreconditionMatrix numSamples in
      (mmul P A, mvmul P b)
    else (A, b) in
  let svals := svd_singularValues A in
  svalmax ← vread svals 0;
  svalmin ← vread svals (length svals - 1);
  let rcondnum := rcond_of svalmax svalmin in
  let coefficients := svd_solve A b in
  Ok ({| numVariables := numVariables; samples := samples; type := type;
         normalized := normalized; precondition := precondition;
         numSamples := numSamples; fn := fn;
         coefficients := coefficients |},
      {| svalmax := svalmax; svalmin := svalmin; rcondnum := rcondnum |}).

(** RBFNetwork(samples, type) delegates with [normalized = false]. *)
Definition RBFNetwork_new2 (samples : DataTable D) (type : RBFType) :=
  RBFNetwork_new samples type false.

Definition getNumCoefficients (m : RBFNetwork D) : nat :=
  length (coefficients m).

(** RBFNetwork::eval *)
Definition eval (m : RBFNetwork D) (x : DenseVector D) : result D :=
  if negb (length x =? numVariables m)%nat then Throw (Exception msg_eval)
  else
    let xv := x in
    '(sum, sumw) ← for_each (fun i it '(sum, sumw) =>
          r ← dist xv (getX it);
          let fval := RBF_eval (fn m) r in
          let sumw := sumw + vcoeff indeterminate (coefficients m) i * fval in
          let sum := sum + fval in
          Ok (sum, sumw))
        0 (points (samples m)) (d0, d0);
    let ret := sumw in
    let ret := if normalized m then ret / sum else ret in
    Ok ret.

(** Eigen's [v.sum()] and [v /= s]. *)
Definition vsum (v : DenseVector D) : D := fold_left dadd v d0.
Definition vdiv (v : DenseVector D) (s : D) : DenseVector D :=
  map (fun c => c / s) v.

(** RBFNetwork::evalBasis *)
Definition evalBasis (m : RBFNetwork D) (x : DenseVector D)
    : result (DenseVector D) :=
  if negb (length x =? numVariables m)%nat
  then Throw (Exception msg_evalBasis)
  else
    let xv := x in
    let basis := vconst (getNumCoefficients m) indeterminate in
    basis ← for_each (fun i it basis =>
          r ← dist xv (getX it);
          Ok (vset basis i (RBF_eval (fn m) r)))
        0 (points (samples m)) basis;
    let basis := if normalized m then vdiv basis (vsum basis) else basis in
    Ok basis.

(** The loop over the samples inside RBFNetwork::evalJacobian, for the
    input dimension [i]; the carried variables are
    [(sumw, sumw_d, sum, sum_d)]. *)
Definition jacobian_sums (m : RBFNetwork D) (x_vec : list D) (i : nat)
    : result (D * D * D * D) :=
  for_each (fun j it '(sumw, sumw_d, sum, sum_d) =>
      let s_vec := getX it in
      r ← dist x_vec s_vec;
      xi ← at_ x_vec i; si ← at_ s_vec i;
      let ri := xi - si in
      let f := RBF_eval (fn m) r in
      let dfdr := RBF_evalDerivative (fn m) r in
      let sum := sum + f in
      let sumw := sumw + vcoeff indeterminate (coefficients m) j * f in
      if dneb r d0 then
        let sum_d := sum_d + dfdr * ri / r in
        let sumw_d :=
          sumw_d + vcoeff indeterminate (coefficients m) j * dfdr * ri / r in
        Ok (sumw, sumw_d, sum, sum_d)
      else Ok (sumw, sumw_d, sum, sum_d))
    0 (points (samples m)) (d0, d0, d0, d0).

(** RBFNetwork::evalJacobian.  [jac] has one row, so [jac(i)] is the
    coefficient in row 0 and column [i]. *)
Definition evalJacobian (m : RBFNetwork D) (x : DenseVector D)
    : result (DenseMatrix D) :=
  let x_vec := x in
  let jac := mconst 1 (numVariables m) d0 in
  for_range (fun i jac =>
      '(sumw, sumw_d, sum, sum_d) ← jacobian_sums m x_vec i;
      if normalized m
      then Ok (mset jac 0 i ((sum * sumw_d - sum_d * sumw) / (sum * sum)))
      else Ok (mset jac 0 i sumw_d))
    0 (numVariables m) jac.
End Network.

(** ** The quantities the specification names

    These follow the wording of the specification, not the loops of the
    code: the Euclidean distance, the kernel activation of a sample, and sums
    [Σ] over the samples taken in table order. *)

Section Specification.
Context {D : Type} `{Double D} `{Environment D}.
Local Open Scope double_scope.

(** [Σ l]: the terms added from left to right, starting from 0. *)
Definition big_sum (l : list D) : D := fold_left dadd l d0.

(** [‖x − y‖] *)
Definition euclid (x y : list D) : D :=
  dsqrt (big_sum (zip_with (fun a b => (a - b) * (a - b)) x y)).

(** [kernel.eval(distance(x, xᵢ))] *)
Definition activation (k : RBF) (x xi : list D) : D :=
  RBF_eval k (euclid x xi).

(** The samples paired with their position in the table. *)
Fixpoint enum_from {A} (i : nat) (l : list A) : list (nat * A) :=
  match l with
  | [] => []
  | a :: l' => (i, a) :: enum_from (S i) l'
  end.

(** [wᵢ] *)
Definition weight (m : RBFNetwork D) (i : nat) : D :=
  vcoeff indeterminate (coefficients m) i.

(** [sum = Σᵢ kernel.eval(distance(x, xᵢ))] *)
Definition spec_sum (m : RBFNetwork D) (x : list D) : D :=
  big_sum (map (fun p => activation (fn m) x (getX p)) (points (samples m))).

(** [sumw = Σᵢ wᵢ·kernel.eval(distance(x, xᵢ))] *)
Definition spec_sumw (m : RBFNetwork D) (x : list D) : D :=
  big_sum (map (fun '(i, p) => weight m i * activation (fn m) x (getX p))
               (enum_from 0 (points (samples m)))).

(** [evaluate(x) = normalized ? sumw/sum : sumw] *)
Definition spec_evaluate (m : RBFNetwork D) (x : list D) : D :=
  if normalized m then spec_sumw m x / spec_sum m x else spec_sumw m x.

(** The chain rule for the input dimension [i] at one sample:
    [dfdr = kernel.evalDerivative(r)] times the directional factor
    [ri / r], where [ri = xᵢ − sample_xᵢ]. *)
Definition directional (k : RBF) (x xs : list D) (i : nat) : D :=
  let r := euclid x xs in
  let ri := nth i x d0 - nth i xs d0 in
  RBF_evalDerivative k r * ri / r.

Definition weighted_directional (m : RBFNetwork D) (j : nat)
    (x xs : list D) (i : nat) : D :=
  let r := euclid x xs in
  let ri := nth i x d0 - nth i xs d0 in
  weight m j * RBF_evalDerivative (fn m) r * ri / r.

(** The samples whose directional term is kept: those at a distance
    [r != 0] from the query point. *)
Definition off_centre (x : list D) (jp : nat * DataPoint D) : bool :=
  dneb (euclid x (getX jp.2)) d0.

Definition spec_sum_d (m : RBFNetwork D) (x : list D) (i : nat) : D :=
  big_sum (map (fun '(j, p) => directional (fn m) x (getX p) i)
               (filter (fun jp => off_centre x jp = true)
                       (enum_from 0 (points (samples m))))).

Definition spec_sumw_d (m : RBFNetwork D) (x : list D) (i : nat) : D :=
  big_sum (map (fun '(j, p) => weighted_directional m j x (getX p) i)
               (filter (fun jp => off_centre x jp = true)
                       (enum_from 0 (points (samples m))))).

(** Entry [i] of the Jacobian; the quotient rule in the normalized case. *)
Definition spec_jacobian (m : RBFNetwork D) (x : list D) (i : nat) : D :=
  if normalized m then
    (spec_sum m x * spec_sumw_d m x i - spec_sum_d m x i * spec_sumw m x)
    / (spec_sum m x * spec_sum m x)
  else spec_sumw_d m x i.

(** [w · v] *)
Definition dot (w v : list D) : D :=
  big_sum (zip_with dmul w v).

(** The model invariant of the specification: every sample has
    [numVariables] inputs and there is one weight per sample. *)
Definition network_wf (m : RBFNetwork D) : Prop :=
  Forall (fun p => length (getX p) = numVariables m) (points (samples m))
  /\ length (coefficients m) = length (points (samples m)).

(** [Aᵢⱼ = kernel.eval(distance(xᵢ, xⱼ))] and the row sum [sᵢ = Σⱼ Aᵢⱼ] of
    an assembled matrix. *)
Definition row_sum (A : DenseMatrix D) (i : nat) : D :=
  big_sum (map (fun j => mcoeff d0 A i j) (seq 0 (cols A))).
End Specification.

(** ** The serializer, for dense matrices *)

Module Serializer.
Local Open Scope N_scope.

Definition byte := Byte.byte.

(** A [double], a [size_t] and an [Eigen::Index] are 8-byte objects.  The
    serializer never computes with a double, it copies its bytes: a matrix
    element is represented here by its 64-bit pattern. *)
Definition sizeof_size_t : nat := 8.
Definition sizeof_double : nat := 8.
Abbreviation bits64 := N.
Definition is_bits64 (v : N) : Prop := v < 2 ^ 64.

(** Conversion to [size_t]: modulo 2^64. *)
Definition to_size_t (n : N) : N := n mod 2 ^ 64.

Definition byte_of_N (n : N) : byte :=
  match Byte.of_N (n mod 256) with
  | Some b => b
  | None => Byte.x00
  end.

(** The object representation of an integer or of a bit pattern [v] in
    [n] bytes, least significant byte first (the host order; the stream is
    "a raw byte sequence", with "no endianness normalization"). *)
Fixpoint object_bytes (n : nat) (v : N) : list byte :=
  match n with
  | O => []
  | S n' => byte_of_N v :: object_bytes n' (v / 256)
  end.

Fixpoint object_value (bs : list byte) : N :=
  match bs with
  | [] => 0
  | b :: bs' => Byte.to_N b + 256 * object_value bs'
  end.

(** The state of a [Serializer]: the byte stream and the position of the
    [read] iterator in it. *)
Record Serializer := mkSerializer {
  stream : list byte;
  read : nat;
}.

(** Serializer::Serializer() *)
Definition Serializer_new : Serializer := {| stream := []; read := 0 |}.

Definition msg_stream : string :=
  "Serializer::deserialize: Stream is missing bytes!".

(** Modelled from the spec: the member templates [_serialize<T>] and
    [deserialize<T>] for scalars are defined in serializer.h.  The
    encoder "writes a raw byte sequence": the [n] bytes of the object go to
    the end of the stream. *)
Definition _serialize (n : nat) (v : N) (s : Serializer) : Serializer :=
  {| stream := stream s ++ object_bytes n v; read := read s |}.

(** Modelled from the spec: reading [n] bytes at [read]; "decoding from a
    malformed or truncated file must fail with an I/O error rather than
    reading out of bounds". *)
Definition deserialize (n : nat) (s : Serializer) : result (N * Serializer) :=
  if (length (stream s) <? read s + n)%nat then Throw (Exception msg_stream)
  else Ok (object_value (take n (drop (read s) (stream s))),
           {| stream := stream s; read := (read s + n)%nat |}).

(** Serializer::get_size(const DenseMatrix &), in [size_t] arithmetic. *)
Definition get_size_DenseMatrix (obj : DenseMatrix bits64) : N :=
  let size := N.of_nat sizeof_size_t in
  let size := to_size_t (size + N.of_nat sizeof_size_t) in
  let numElements := to_size_t (N.of_nat (rows obj) * N.of_nat (cols obj)) in
  if 0 <? numElements
  then to_size_t (size + to_size_t (numElements * N.of_nat sizeof_double))
  else size.

(** Serializer::_serialize(const DenseMatrix &) *)
Definition _serialize_DenseMatrix (obj : DenseMatrix bits64)
    (s : Serializer) : Serializer :=
  let s := _serialize sizeof_size_t (N.of_nat (rows obj)) s in
  let s := _serialize sizeof_size_t (N.of_nat (cols obj)) s in
  fold_left (fun s i =>
      fold_left (fun s j => _serialize sizeof_double (mcoeff 0 obj i j) s)
                (seq 0 (cols obj)) s)
    (seq 0 (rows obj)) s.

(** Serializer::deserialize(DenseMatrix &); [junk] is what the elements
    hold after [obj.resize(rows, cols)]. *)
Definition deserialize_DenseMatrix (junk : bits64) (s : Serializer)
    : result (DenseMatrix bits64 * Serializer) :=
  '(rows, s) ← deserialize sizeof_size_t s;
  '(cols, s) ← deserialize sizeof_size_t s;
  let obj := mconst (N.to_nat rows) (N.to_nat cols) junk in
  for_range (fun i '(obj, s) =>
      for_range (fun j '(obj, s) =>
          '(v, s) ← deserialize sizeof_double s;
          Ok (mset obj i j v, s))
        0 (N.to_nat cols) (obj, s))
    0 (N.to_nat rows) (obj, s).

(** Modelled from the spec: the member template [serialize(obj)] of
    serializer.h, which runs [_serialize(obj)] on the serializer's stream;
    here on a freshly constructed serializer. *)
Definition serialize_DenseMatrix (obj : DenseMatrix bits64) : Serializer :=
  _serialize_DenseMatrix obj Serializer_new.

(** The bytes the [read] iterator has not consumed yet. *)
Definition remaining (s : Serializer) : list byte :=
  drop (read s) (stream s).

(** The elements of a matrix in the order the two loops visit them. *)
Definition payload (obj : DenseMatrix bits64) : list byte :=
  flat_map (fun i =>
      flat_map (fun j => object_bytes 8 (mcoeff 0 obj i j))
               (seq 0 (cols obj)))
    (seq 0 (rows obj)).

(** What one assignment [obj(i, j) = m(i, j)] of a copy does to the
    coefficient array: position [k] receives the value [m] has there. *)
Definition put (m : DenseMatrix bits64) (l : list bits64) (k : nat)
    : list bits64 :=
  <[k := nth k (coeffs m) 0]> l.
End Serializer.

(** ** The loop bodies when [dist] does not throw *)

Section Bodies.
Context {D : Type} `{Double D} `{Environment D}.
Local Open Scope double_scope.

(** [kernel.eval(distance(xᵢ, xⱼ))] for two samples. *)
Definition entry (fn : RBF) (p1 p2 : DataPoint D) : D :=
  activation fn (getX p1) (getX p2).

(** What the guarded assignment [if (val != 0) A(i,j) = val] leaves in a
    coefficient that was zero. *)
Definition stored (v : D) : D := if dneb v d0 then v else d0.

(** The variable [sum] after the inner loop: the values that pass the
    guard, added in table order. *)
Definition kept_sum (fn : RBF) (p1 : DataPoint D) (pts : list (DataPoint D))
    (sum : D) : D :=
  fold_left (fun s p2 =>
               let v := entry fn p1 p2 in if dneb v d0 then s + v else s)
            pts sum.

(** The bodies of the two loops when [dist] does not throw. *)
Definition row_step (fn : RBF) (i : nat) (it1 : DataPoint D)
    (j : nat) (it2 : DataPoint D) (acc : DenseMatrix D * D)
    : DenseMatrix D * D :=
  let '(A, sum) := acc in
  let val := entry fn it1 it2 in
  if dneb val d0 then (mset A i j val, sum + val) else (A, sum).

Definition rhs (fn : RBF) (normalized : bool) (pts : list (DataPoint D))
    (it1 : DataPoint D) : D :=
  if normalized then kept_sum fn it1 pts d0 * getY it1 else getY it1.

Definition system_step (fn : RBF) (normalized : bool)
    (pts : list (DataPoint D)) (i : nat) (it1 : DataPoint D)
    (acc : DenseMatrix D * DenseVector D) : DenseMatrix D * DenseVector D :=
  let '(A, b) := acc in
  ((fold_each (row_step fn i it1) 0 pts (A, d0)).1,
   vset b i (rhs fn normalized pts it1)).

(** The body of the sample loop of [evalJacobian] when nothing throws. *)
Definition jacobian_step (m : RBFNetwork D) (x : list D) (i : nat)
    (j : nat) (it : DataPoint D) (acc : D * D * D * D) : D * D * D * D :=
  let '(sumw, sumw_d, sum, sum_d) := acc in
  let f := activation (fn m) x (getX it) in
  if off_centre x (j, it)
  then (sumw + weight m j * f,
        sumw_d + weighted_directional m j x (getX it) i,
        sum + f,
        sum_d + directional (fn m) x (getX it) i)
  else (sumw + weight m j * f, sumw_d, sum + f, sum_d).
End Bodies.

(** ** Laws of the arithmetic

    [ExactZero]: only zero compares equal to zero, and adding zero changes
    nothing.  Both hold of the real numbers; in binary64 [-0.0 == 0] and
    [-0.0 + 0.0] is [0.0].
    [SymmetricSquare]: [(a − b)²] and [(b − a)²] are the same double.  This
    holds of the real numbers and of binary64. *)

Class ExactZero (D : Type) `{Double D} : Prop := {
  deqb_zero : forall v : D, deqb v d0 = true -> v = d0;
  dadd_zero : forall s : D, dadd s d0 = s;
}.

Class SymmetricSquare (D : Type) `{Double D} : Prop := {
  dsq_sub_sym : forall a b : D,
    dmul (dsub a b) (dsub a b) = dmul (dsub b a) (dsub b a);
}.

(** ** Binary64 values

    [lowbounded]: the exponent of a finite number is not below the smallest
    exponent of the format (this holds of every [valid_binary] number).
    [regular]: moreover the number is not [-0.0]; this is what a running sum
    that started from [0.0] can hold. *)

Definition lowbounded (prec emax : Z) (x : spec_float) : Prop :=
  match x with
  | S754_finite _ _ e => (emin prec emax <= e)%Z
  | _ => True
  end.

Definition regular (prec emax : Z) (x : spec_float) : Prop :=
  x <> S754_zero true /\ lowbounded prec emax x.

(** ** Concrete inputs

    Environments and inputs on which the results are exercised.  The kernels
    of rbf.h and Eigen's SVD are not part of the two files; the environments
    below put simple functions in their place. *)

Module Demo.
(** Binary64 constants. *)
Definition half : spec_float := S754_finite false 4503599627370496 (-53).
Definition one : spec_float := S754_finite false 4503599627370496 (-52).
Definition two : spec_float := S754_finite false 4503599627370496 (-51).
Definition three : spec_float := S754_finite false 6755399441055744 (-51).

Definition env64 : Environment spec_float := {|
  RBF_eval := fun k r =>
    match k with
    | Multiquadric => dsqrt (dadd one (dmul r r))
    | InverseQuadric => ddiv one (dadd one (dmul r r))
    | InverseMultiquadric => ddiv one (dsqrt (dadd one (dmul r r)))
    | ThinPlateSpline | Gaussian => dmul r r
    end;
  RBF_evalDerivative := fun k r =>
    match k with
    | Multiquadric => ddiv r (dsqrt (dadd one (dmul r r)))
    | _ => dmul two r
    end;
  svd_singularValues := fun A => [two; one];
  svd_solve := fun A b => b;
  indeterminate := S754_nan;
|}.

(** The scenario of the specification: the 1-D samples (0,0), (1,1),
    (2,0). *)
Definition table64 : DataTable spec_float :=
  {| getNumVariables := 1;
     points := [ {| getX := [d0]; getY := d0 |};
                 {| getX := [one]; getY := one |};
                 {| getX := [two]; getY := d0 |} ] |}.

Definition net64 (nz : bool) : RBFNetwork spec_float :=
  {| numVariables := 1; samples := table64; type := MULTIQUADRIC;
     normalized := nz; precondition := false; numSamples := 3;
     fn := Multiquadric; coefficients := [half; one; two] |}.

(** A network without samples, and one without input dimensions. *)
Definition net64_no_samples : RBFNetwork spec_float :=
  {| numVariables := 2;
     samples := {| getNumVariables := 2; points := [] |};
     type := GAUSSIAN; normalized := false; precondition := false;
     numSamples := 0; fn := Gaussian; coefficients := [] |}.

Definition net64_no_variables : RBFNetwork spec_float :=
  {| numVariables := 0;
     samples := {| getNumVariables := 0;
                   points := [ {| getX := []; getY := one |} ] |};
     type := GAUSSIAN; normalized := false; precondition := false;
     numSamples := 1; fn := Gaussian; coefficients := [one] |}.

(** The same over the reals. *)
Definition envR : Environment R := {|
  RBF_eval := fun k r =>
    match k with
    | ThinPlateSpline => (r * r * ln r)%R
    | Multiquadric => sqrt (1 + r * r)
    | InverseQuadric => (1 / (1 + r * r))%R
    | InverseMultiquadric => (1 / sqrt (1 + r * r))%R
    | Gaussian => exp (- (r * r))
    end;
  RBF_evalDerivative := fun k r =>
    match k with
    | Gaussian => (- 2 * r * exp (- (r * r)))%R
    | _ => (2 * r)%R
    end;
  svd_singularValues := fun A => [2%R; 1%R];
  svd_solve := fun A b => b;
  indeterminate := 0%R;
|}.

Definition tableR : DataTable R :=
  {| getNumVariables := 1;
     points := [ {| getX := [0%R]; getY := 0%R |};
                 {| getX := [1%R]; getY := 1%R |};
                 {| getX := [2%R]; getY := 0%R |} ] |}.

Definition netR : RBFNetwork R :=
  {| numVariables := 1; samples := tableR; type := GAUSSIAN;
     normalized := true; precondition := false; numSamples := 3;
     fn := Gaussian; coefficients := [1%R; 2%R; 3%R] |}.

(** A 5×3 matrix of bit patterns (stored column by column). *)
Definition matrix5x3 : DenseMatrix N :=
  {| rows := 5; cols := 3;
     coeffs := [ 0x3FF0000000000000; 0x4000000000000000; 0x7FF8000000000001;
                 0x8000000000000000; 0xFFFFFFFFFFFFFFFF; 0; 1; 2; 3; 4;
                 0x0123456789ABCDEF; 0x7FF0000000000000; 0xFFF0000000000000;
                 0x0000000000000001; 0x3FB999999999999A ]%N |}.
End Demo.

(** ** The rest of rbfnetwork.cpp *)

(** [operator<] on doubles, which only [dist_sort] uses. *)
Class DoubleLt (D : Type) := {
  dltb : D -> D -> bool;
}.

#[export] Instance binary64_lt : DoubleLt spec_float := {| dltb := SFltb |}.

#[export] Instance exact_lt : DoubleLt R := {|
  dltb := fun a b => if Rlt_dec a b then true else false;
|}.

Section NetworkRest.
Context {D : Type} `{Double D} `{DoubleLt D}.
Local Open Scope double_scope.

(** RBFNetwork::dist_sort: [zeros] has [x.getDimX()] entries, and [origin] is
    the sample [(zeros, 0.0)]. *)
Definition dist_sort (x y : DataPoint D) : result bool :=
  let zeros := replicate (length (getX x)) d0 in
  let origin := {| getX := zeros; getY := d0 |} in
  x_dist ← dist_points x origin;
  y_dist ← dist_points y origin;
  Ok (dltb x_dist y_dist).

(** RBFNetwork::getDescription *)
Definition getDescription (m : RBFNetwork D) : string :=
  let description := "RadialBasisFunction of type "%string in
  match type m with
  | GAUSSIAN => String.append description "Gaussian"
  | INVERSE_MULTIQUADRIC => String.append description "Inverse multiquadric"
  | INVERSE_QUADRIC => String.append description "Inverse quadric"
  | MULTIQUADRIC => String.append description "Multiquadric"
  | THIN_PLATE_SPLINE => String.append description "Thin plate spline"
  | UNRECOGNIZED _ => String.append description "Error: Unknown!"
  end.

(** [Σᵢ xᵢ²], the square of the norm [dist_sort] compares. *)
Definition sum_squares (x : list D) : D :=
  big_sum (map (fun a => a * a) x).

(** The samples of a table all have inputs of one length: what the
    constructor needs of its argument. *)
Definition uniform (pts : list (DataPoint D)) : Prop :=
  forall p q, p ∈ pts -> q ∈ pts -> length (getX p) = length (getX q).
End NetworkRest.

(** The query point [x] with its coordinate [i] moved to [t]. *)
Definition moved (x : list R) (i : nat) (t : R) : list R := <[i := t]> x.

(** ** The rest of serializer.cpp: vectors, sparse matrices, files *)

Module SerializerRest.
Import Serializer.
Local Open Scope N_scope.

(** Serializer::get_size(const DenseVector &), in [size_t] arithmetic. *)
Definition get_size_DenseVector (obj : DenseVector bits64) : N :=
  let size := N.of_nat sizeof_size_t in
  let numElements := to_size_t (N.of_nat (length obj)) in
  if 0 <? numElements
  then to_size_t (size + to_size_t (numElements * N.of_nat sizeof_double))
  else size.

(** Serializer::_serialize(const DenseVector &) *)
Definition _serialize_DenseVector (obj : DenseVector bits64)
    (s : Serializer) : Serializer :=
  let s := _serialize sizeof_size_t (N.of_nat (length obj)) s in
  fold_left (fun s i => _serialize sizeof_double (vcoeff 0 obj i) s)
            (seq 0 (length obj)) s.

(** Serializer::deserialize(DenseVector &); [junk] is what the elements
    hold after [obj.resize(rows)]. *)
Definition deserialize_DenseVector (junk : bits64) (s : Serializer)
    : result (DenseVector bits64 * Serializer) :=
  '(rows, s) ← deserialize sizeof_size_t s;
  let obj := vconst (N.to_nat rows) junk in
  for_range (fun i '(obj, s) =>
      '(v, s) ← deserialize sizeof_double s;
      Ok (vset obj i v, s))
    0 (N.to_nat rows) (obj, s).

(** The bytes of a matrix and of a vector in the stream. *)
Definition matrix_bytes (obj : DenseMatrix bits64) : list byte :=
  object_bytes 8 (N.of_nat (rows obj))
  ++ object_bytes 8 (N.of_nat (cols obj)) ++ payload obj.

Definition vector_bytes (obj : DenseVector bits64) : list byte :=
  object_bytes 8 (N.of_nat (length obj))
  ++ flat_map (fun v => object_bytes 8 v) obj.

(** A matrix as Eigen hands it out, with elements that are 64-bit patterns
    and dimensions that are [Eigen::Index] values, and whose encoding has a
    length that is a [size_t]. *)
Definition matrix_ok (obj : DenseMatrix bits64) : Prop :=
  mwf obj /\ Forall is_bits64 (coeffs obj)
  /\ N.of_nat (rows obj) < 2 ^ 63 /\ N.of_nat (cols obj) < 2 ^ 63
  /\ 16 + 8 * (N.of_nat (rows obj) * N.of_nat (cols obj)) < 2 ^ 64.

Definition vector_ok (obj : DenseVector bits64) : Prop :=
  Forall is_bits64 obj /\ 8 + 8 * N.of_nat (length obj) < 2 ^ 64.

(** The sparse types.  Eigen's conversions are parameters: [toDense] is the
    constructor [DenseMatrix temp(obj)], [sparseView] the method of that
    name. *)
Section Sparse.
Context {SparseMatrix SparseVector : Type}.
Variable toDense : SparseMatrix -> DenseMatrix bits64.
Variable sparseView : DenseMatrix bits64 -> SparseMatrix.
Variable toDenseVector : SparseVector -> DenseVector bits64.
Variable sparseViewVector : DenseVector bits64 -> SparseVector.

(** Serializer::get_size(const SparseMatrix &) *)
Definition get_size_SparseMatrix (obj : SparseMatrix) : N :=
  let temp := toDense obj in get_size_DenseMatrix temp.

(** Serializer::get_size(const SparseVector &) *)
Definition get_size_SparseVector (obj : SparseVector) : N :=
  let temp := toDenseVector obj in get_size_DenseVector temp.

(** Serializer::_serialize(const SparseMatrix &) *)
Definition _serialize_SparseMatrix (obj : SparseMatrix) (s : Serializer)
    : Serializer :=
  let temp := toDense obj in _serialize_DenseMatrix temp s.

(** Serializer::_serialize(const SparseVector &) *)
Definition _serialize_SparseVector (obj : SparseVector) (s : Serializer)
    : Serializer :=
  let temp := toDenseVector obj in _serialize_DenseVector temp s.

(** Serializer::deserialize(SparseMatrix &): [temp] is read like any dense
    matrix and [obj] becomes its sparse view. *)
Definition deserialize_SparseMatrix (junk : bits64) (s : Serializer)
    : result (SparseMatrix * Serializer) :=
  '(temp, s) ← deserialize_DenseMatrix junk s;
  Ok (sparseView temp, s).

(** Serializer::deserialize(SparseVector &) *)
Definition deserialize_SparseVector (junk : bits64) (s : Serializer)
    : result (SparseVector * Serializer) :=
  '(temp, s) ← deserialize_DenseVector junk s;
  Ok (sparseViewVector temp, s).
End Sparse.

(** Files.  A file system holds the contents of the files that exist and
    tells which names can be opened for writing. *)
Record FileSystem := mkFileSystem {
  files : gmap string (list byte);
  writable : string -> bool;
}.

(** Serializer::saveToFile.  The stream [fs] is opened without a check: when
    it cannot be opened, every [fs << byte] is without effect. *)
Definition saveToFile (fileName : string) (s : Serializer)
    (fsys : FileSystem) : FileSystem :=
  if writable fsys fileName then
    {| files :=
         <[fileName := fold_left (fun out b => out ++ [b]) (stream s) []]>
           (files fsys);
       writable := writable fsys |}
  else fsys.

(** The character written as a backslash and a double quote in the source. *)
Definition dquote : Ascii.ascii := Ascii.ascii_of_nat 34.

Definition msg_open (fileName : string) : string :=
  String.append "Serializer::loadFromFile: Unable to open file "
    (String dquote
       (String.append fileName
          (String dquote " for deserializing."))).

(** Serializer::loadFromFile: the whole file replaces the stream and [read]
    goes to its beginning. *)
Definition loadFromFile (fileName : string) (s : Serializer)
    (fsys : FileSystem) : result Serializer :=
  match files fsys !! fileName with
  | None => Throw (Exception (msg_open fileName))
  | Some result =>
      Ok {| stream := fold_left (fun st b => st ++ [b]) result [];
            read := 0 |}
  end.

(** Serializer::Serializer(const std::string &fileName) *)
Definition Serializer_open (fileName : string) (fsys : FileSystem)
    : result Serializer :=
  loadFromFile fileName Serializer_new fsys.
End SerializerRest.

(** ** The rest of serializer.cpp: composite objects

    [get_size], [_serialize] and [deserialize] are overloaded; the functions
    for the composite types call the overloads for the types of their
    fields.  Those of the fields' types (scalars and standard containers) are
    declared in headers that are not among the two files: a type [T] with the
    three functions is a [Codec T], and the composite functions are written
    over the codecs of their fields. *)

Module Composite.
Local Open Scope N_scope.

Class Codec (T : Type) := {
  get_size : T -> N;
  _serialize : T -> Serializer.Serializer -> Serializer.Serializer;
  deserialize : Serializer.Serializer -> result (T * Serializer.Serializer);
}.

(** [a + b] on [size_t]. *)
Definition size_plus (a b : N) : N := Serializer.to_size_t (a + b).
Infix "[+]" := size_plus (at level 50, left associativity).

(** The classes, as the serializer (a friend of each) sees them. *)
Module DataPoint.
Record t (X Y : Type) := make { x : X; y : Y }.
Arguments make {X Y}.
Arguments x {X Y}.
Arguments y {X Y}.
End DataPoint.

Module DataTable.
Record t (B1 B2 U1 U2 U3 S G : Type) := make {
  _allow_duplicates : B1;
  _allow_incomplete_grid : B2;
  _num_duplicates : U1;
  _dim_x : U2;
  _dim_y : U3;
  samples : S;
  grid : G;
}.
Arguments make {B1 B2 U1 U2 U3 S G}.
Arguments _allow_duplicates {B1 B2 U1 U2 U3 S G}.
Arguments _allow_incomplete_grid {B1 B2 U1 U2 U3 S G}.
Arguments _num_duplicates {B1 B2 U1 U2 U3 S G}.
Arguments _dim_x {B1 B2 U1 U2 U3 S G}.
Arguments _dim_y {B1 B2 U1 U2 U3 S G}.
Arguments samples {B1 B2 U1 U2 U3 S G}.
Arguments grid {B1 B2 U1 U2 U3 S G}.
End DataTable.

Module KnotVector.
Record t (K : Type) := make { knots : K }.
Arguments make {K}.
Arguments knots {K}.
End KnotVector.

Module BSplineBasis1D.
Record t (U1 K U2 : Type) := make {
  degree : U1;
  knots : KnotVector.t K;
  target_num_basis_functions : U2;
}.
Arguments make {U1 K U2}.
Arguments degree {U1 K U2}.
Arguments knots {U1 K U2}.
Arguments target_num_basis_functions {U1 K U2}.
End BSplineBasis1D.

Module BSplineBasis.
Record t (V U : Type) := make { bases : V; num_variables : U }.
Arguments make {V U}.
Arguments bases {V U}.
Arguments num_variables {V U}.
End BSplineBasis.

Module BSpline.
Record t (V U C U1 U2 : Type) := make {
  basis : BSplineBasis.t V U;
  control_points : C;
  dim_x : U1;
  dim_y : U2;
}.
Arguments make {V U C U1 U2}.
Arguments basis {V U C U1 U2}.
Arguments control_points {V U C U1 U2}.
Arguments dim_x {V U C U1 U2}.
Arguments dim_y {V U C U1 U2}.
End BSpline.

(** Serializer::get_size, ::_serialize and ::deserialize for DataPoint *)
#[export] Instance DataPoint_codec {X Y : Type}
    {CX : Codec X} {CY : Codec Y}
    : Codec (DataPoint.t X Y) := {|
  get_size obj := get_size (DataPoint.x obj) [+] get_size (DataPoint.y obj);
  _serialize obj s :=
    let s := _serialize (DataPoint.x obj) s in
    _serialize (DataPoint.y obj) s;
  deserialize s :=
    '(x, s) ← deserialize s;
    '(y, s) ← deserialize s;
    Ok (DataPoint.make x y, s);
|}.

(** ... for DataTable *)
#[export] Instance DataTable_codec {B1 B2 U1 U2 U3 S G : Type}
    {CB1 : Codec B1} {CB2 : Codec B2} {CU1 : Codec U1} {CU2 : Codec U2}
    {CU3 : Codec U3} {CS : Codec S} {CG : Codec G}
    : Codec (DataTable.t B1 B2 U1 U2 U3 S G) := {|
  get_size obj :=
    get_size (DataTable._allow_duplicates obj)
    [+] get_size (DataTable._allow_incomplete_grid obj)
    [+] get_size (DataTable._num_duplicates obj)
    [+] get_size (DataTable._dim_x obj)
    [+] get_size (DataTable._dim_y obj)
    [+] get_size (DataTable.samples obj)
    [+] get_size (DataTable.grid obj);
  _serialize obj s :=
    let s := _serialize (DataTable._allow_duplicates obj) s in
    let s := _serialize (DataTable._allow_incomplete_grid obj) s in
    let s := _serialize (DataTable._num_duplicates obj) s in
    let s := _serialize (DataTable._dim_x obj) s in
    let s := _serialize (DataTable._dim_y obj) s in
    let s := _serialize (DataTable.samples obj) s in
    _serialize (DataTable.grid obj) s;
  deserialize s :=
    '(allow_duplicates, s) ← deserialize s;
    '(allow_incomplete_grid, s) ← deserialize s;
    '(num_duplicates, s) ← deserialize s;
    '(dim_x, s) ← deserialize s;
    '(dim_y, s) ← deserialize s;
    '(samples, s) ← deserialize s;
    '(grid, s) ← deserialize s;
    Ok (DataTable.make allow_duplicates allow_incomplete_grid num_duplicates
          dim_x dim_y samples grid, s);
|}.

(** ... for KnotVector *)
#[export] Instance KnotVector_codec {K : Type} {CK : Codec K}
    : Codec (KnotVector.t K) := {|
  get_size obj := get_size (KnotVector.knots obj);
  _serialize obj s := _serialize (KnotVector.knots obj) s;
  deserialize s :=
    '(knots, s) ← deserialize s;
    Ok (KnotVector.make knots, s);
|}.

(** ... for BSplineBasis1D *)
#[export] Instance BSplineBasis1D_codec {U1 K U2 : Type}
    {CU1 : Codec U1} {CK : Codec K} {CU2 : Codec U2}
    : Codec (BSplineBasis1D.t U1 K U2) := {|
  get_size obj :=
    get_size (BSplineBasis1D.degree obj)
    [+] get_size (BSplineBasis1D.knots obj)
    [+] get_size (BSplineBasis1D.target_num_basis_functions obj);
  _serialize obj s :=
    let s := _serialize (BSplineBasis1D.degree obj) s in
    let s := _serialize (BSplineBasis1D.knots obj) s in
    _serialize (BSplineBasis1D.target_num_basis_functions obj) s;
  deserialize s :=
    '(degree, s) ← deserialize s;
    '(knots, s) ← deserialize s;
    '(target, s) ← deserialize s;
    Ok (BSplineBasis1D.make degree knots target, s);
|}.

(** ... for BSplineBasis *)
#[export] Instance BSplineBasis_codec {V U : Type}
    {CV : Codec V} {CU : Codec U}
    : Codec (BSplineBasis.t V U) := {|
  get_size obj :=
    get_size (BSplineBasis.bases obj)
    [+] get_size (BSplineBasis.num_variables obj);
  _serialize obj s :=
    let s := _serialize (BSplineBasis.bases obj) s in
    _serialize (BSplineBasis.num_variables obj) s;
  deserialize s :=
    '(bases, s) ← deserialize s;
    '(num_variables, s) ← deserialize s;
    Ok (BSplineBasis.make bases num_variables, s);
|}.

(** ... for BSpline *)
#[export] Instance BSpline_codec {V U C U1 U2 : Type}
    {CV : Codec V} {CU : Codec U} {CC : Codec C}
    {CU1 : Codec U1} {CU2 : Codec U2}
    : Codec (BSpline.t V U C U1 U2) := {|
  get_size obj :=
    get_size (BSpline.basis obj)
    [+] get_size (BSpline.control_points obj)
    [+] get_size (BSpline.dim_x obj)
    [+] get_size (BSpline.dim_y obj);
  _serialize obj s :=
    let s := _serialize (BSpline.basis obj) s in
    let s := _serialize (BSpline.control_points obj) s in
    let s := _serialize (BSpline.dim_x obj) s in
    _serialize (BSpline.dim_y obj) s;
  deserialize s :=
    '(basis, s) ← deserialize s;
    '(control_points, s) ← deserialize s;
    '(dim_x, s) ← deserialize s;
    '(dim_y, s) ← deserialize s;
    Ok (BSpline.make basis control_points dim_x dim_y, s);
|}.

(** A codec is sound for the objects in [wf], with [bytes] as their
    encoding, when [_serialize] appends the encoding, [deserialize] reads
    it back and leaves [read] behind it, and [get_size] is its length
    (as long as that is a [size_t]). *)
Definition codec_ok {T : Type} {CT : Codec T}
    (wf : T -> Prop) (bytes : T -> list Serializer.byte) : Prop :=
  (forall obj s,
      _serialize obj s
      = {| Serializer.stream := Serializer.stream s ++ bytes obj;
           Serializer.read := Serializer.read s |})
  /\ (forall obj s rest,
        wf obj -> Serializer.remaining s = bytes obj ++ rest ->
        exists s',
          deserialize s = Ok (obj, s')
          /\ Serializer.remaining s' = rest
          /\ Serializer.stream s' = Serializer.stream s)
  /\ (forall obj,
        wf obj -> N.of_nat (length (bytes obj)) < 2 ^ 64 ->
        get_size obj = N.of_nat (length (bytes obj))).

(** Modelled from the spec: the templates for a scalar [T], here for an
    8-byte one; [get_size] is [sizeof(T)]. *)
Definition scalar_codec : Codec N := {|
  get_size _ := 8;
  _serialize v s := Serializer._serialize 8 v s;
  deserialize s := Serializer.deserialize 8 s;
|}.

(** The overloads for Eigen's types, as codecs. *)
Definition DenseMatrix_codec (junk : N) : Codec (DenseMatrix N) := {|
  get_size := Serializer.get_size_DenseMatrix;
  _serialize := Serializer._serialize_DenseMatrix;
  deserialize := Serializer.deserialize_DenseMatrix junk;
|}.

Definition DenseVector_codec (junk : N) : Codec (DenseVector N) := {|
  get_size := SerializerRest.get_size_DenseVector;
  _serialize := SerializerRest._serialize_DenseVector;
  deserialize := SerializerRest.deserialize_DenseVector junk;
|}.
End Composite.

(** ** More concrete inputs *)

Module Samples.
(** A vector of three bit patterns. *)
Definition vector3 : DenseVector N :=
  [ 0x3FF0000000000000; 0; 0xFFFFFFFFFFFFFFFF ]%N.

(** Three samples with two inputs, over the reals. *)
Definition pointA : DataPoint R := {| getX := [3%R; 4%R]; getY := 0%R |}.
Definition pointB : DataPoint R := {| getX := [0%R; 6%R]; getY := 1%R |}.
Definition pointC : DataPoint R := {| getX := [6%R; 8%R]; getY := 2%R |}.

(** The normalized network of [Demo.netR] with equal weights. *)
Definition netR_constant : RBFNetwork R :=
  {| numVariables := 1; samples := Demo.tableR; type := GAUSSIAN;
     normalized := true; precondition := false; numSamples := 3;
     fn := Gaussian; coefficients := replicate 3 2%R |}.

(** A Gaussian network with one sample, [(0) -> 5], and the weight 5. *)
Definition tableR_one : DataTable R :=
  {| getNumVariables := 1;
     points := [ {| getX := [0%R]; getY := 5%R |} ] |}.

Definition netR_one : RBFNetwork R :=
  {| numVariables := 1; samples := tableR_one; type := GAUSSIAN;
     normalized := false; precondition := false; numSamples := 1;
     fn := Gaussian; coefficients := [5%R] |}.

(** A normalized network without samples. *)
Definition net64_empty : RBFNetwork spec_float :=
  {| numVariables := 2;
     samples := {| getNumVariables := 2; points := [] |};
     type := GAUSSIAN; normalized := true; precondition := false;
     numSamples := 0; fn := Gaussian; coefficients := [] |}.

(** The binary64 number 6. *)
Definition six : spec_float := S754_finite false 6755399441055744 (-50).

(** The kernels of [Demo.env64] with a decomposition that returns one
    singular value per row of the matrix, as Eigen does of a square
    matrix. *)
Definition eigen64 : Environment spec_float := {|
  RBF_eval := @RBF_eval spec_float Demo.env64;
  RBF_evalDerivative := @RBF_evalDerivative spec_float Demo.env64;
  svd_singularValues := fun A =>
    match rows A with
    | O => []
    | S k => Demo.two :: replicate k Demo.one
    end;
  svd_solve := fun A b => b;
  indeterminate := S754_nan;
|}.

(** A file system without files in which one name can be written. *)
Definition disk : SerializerRest.FileSystem :=
  {| SerializerRest.files := ∅;
     SerializerRest.writable := fun name => String.eqb name "model.bin" |}.
End Samples.

(** [uniform], decided by comparing the dimensions of all pairs. *)
Definition uniformb {D} (pts : list (DataPoint D)) : bool :=
  forallb (fun p =>
      forallb (fun q => (length (getX p) =? length (getX q))%nat) pts)
    pts.

(** ** Quantities used to state the properties of the distance *)

(** A double that is neither an infinity nor a NaN. *)
Definition finite64 (x : spec_float) : bool :=
  match x with
  | S754_zero _ | S754_finite _ _ _ => true
  | S754_infinity _ | S754_nan => false
  end.

(** [Σᵢ (xᵢ − yᵢ)·(yᵢ − zᵢ)], the cross term of the triangle inequality. *)
Definition cross (x y z : list R) : R :=
  big_sum (zip_with Rmult (zip_with Rminus x y) (zip_with Rminus y z)).

(** * Properties *)

(** ** Loops that cannot throw *)

Section Loops.
Context {A St : Type}.

Lemma for_each_pure (body : nat -> A -> St -> result St)
    (pure : nat -> A -> St -> St) (l : list A) :
  (forall i a s, a ∈ l -> body i a s = Ok (pure i a s)) ->
  forall i s, for_each body i l s = Ok (fold_each pure i l s).
Proof.
  induction l as [|a l IH]; intros Hbody i s; simpl; [done|].
  rewrite Hbody by left. simpl. apply IH.
  intros; apply Hbody; by right.
Qed.

Lemma for_each_ext (body body' : nat -> A -> St -> result St) (l : list A) :
  (forall i a s, a ∈ l -> body i a s = body' i a s) ->
  forall i s, for_each body i l s = for_each body' i l s.
Proof.
  induction l as [|a l IH]; intros Hbody i s; simpl; [done|].
  rewrite Hbody by left. destruct (body' i a s); simpl; [|done].
  apply IH. intros; apply Hbody; by right.
Qed.

Lemma fold_each_enum (body : nat -> A -> St -> St) (l : list A) :
  forall i s,
    fold_each body i l s
    = fold_left (fun s '(j, a) => body j a s) (enum_from i l) s.
Proof. induction l as [|a l IH]; intros i s; simpl; [done|]. apply IH. Qed.
End Loops.

Lemma enum_from_length {A} (l : list A) i : length (enum_from i l) = length l.
Proof. revert i; induction l; intros; simpl; [done|]. by rewrite IHl. Qed.

Lemma enum_from_lookup {A} (l : list A) i k :
  enum_from i l !! k = (fun a => (i + k, a)) <$> l !! k.
Proof.
  revert i k; induction l as [|a l IH]; intros i [|k]; simpl; try done.
  - by rewrite Nat.add_0_r.
  - rewrite IH. by replace (S i + k) with (i + S k) by lia.
Qed.

Lemma bind_Ok {A B} (a : A) (k : A -> result B) : (Ok a ≫= k) = k a.
Proof. done. Qed.

Lemma at_lookup {T} (v : list T) i a : v !! i = Some a -> at_ v i = Ok a.
Proof. unfold at_. by intros ->. Qed.

(** ** The distance *)

Section Distance.
Context {D : Type} `{Double D}.
Local Open Scope double_scope.

Lemma dist_loop (x y : list D) :
  length x = length y ->
  forall n i s, (i + n)%nat = length x ->
    for_range (fun i sum =>
        xi ← at_ x i; yi ← at_ y i; Ok (sum + (xi - yi) * (xi - yi)))
      i n s
    = Ok (fold_left dadd
            (zip_with (fun a b => (a - b) * (a - b)) (drop i x) (drop i y)) s).
Proof.
  intros Hlen n; induction n as [|n IH]; intros i s Hi; simpl.
  - rewrite drop_ge by lia. done.
  - destruct (lookup_lt_is_Some_2 x i) as [xi Hxi]; [lia|].
    destruct (lookup_lt_is_Some_2 y i) as [yi Hyi]; [lia|].
    rewrite (at_lookup _ _ _ Hxi), (at_lookup _ _ _ Hyi). simpl.
    rewrite IH by lia.
    rewrite (drop_S x xi i Hxi), (drop_S y yi i Hyi). done.
Qed.

(** With vectors of equal length, [dist] is the Euclidean distance. *)
Lemma dist_euclid (x y : list D) :
  length x = length y -> dist x y = Ok (euclid x y).
Proof.
  intros Hlen. unfold dist.
  rewrite (proj2 (Nat.eqb_eq _ _) Hlen). simpl.
  rewrite (dist_loop x y Hlen (length x) 0 d0) by lia. done.
Qed.

(** With vectors of different lengths, [dist] throws. *)
Lemma dist_mismatch (x y : list D) :
  length x <> length y -> dist x y = Throw (Exception msg_dist).
Proof.
  intros Hlen. unfold dist.
  by rewrite (proj2 (Nat.eqb_neq _ _) Hlen).
Qed.
End Distance.

(** ** Evaluation *)

Section Evaluation.
Context {D : Type} `{Double D} `{Environment D}.
Local Open Scope double_scope.

Lemma sample_dist (m : RBFNetwork D) (x : list D) (p : DataPoint D) :
  network_wf m -> length x = numVariables m -> p ∈ points (samples m) ->
  dist x (getX p) = Ok (euclid x (getX p)).
Proof.
  intros [Hdim _] Hx Hp. apply dist_euclid.
  rewrite Forall_forall in Hdim. by rewrite (Hdim p Hp).
Qed.

(** The two accumulators of the loop of [eval], as two sums. *)
Lemma eval_loop_sums (m : RBFNetwork D) (x : list D) (l : list (DataPoint D)) :
  forall i sum sumw,
    fold_each (fun i it '(sum, sumw) =>
        let fval := RBF_eval (fn m) (euclid x (getX it)) in
        (sum + fval, sumw + weight m i * fval)) i l (sum, sumw)
    = (fold_left dadd (map (fun p => activation (fn m) x (getX p)) l) sum,
       fold_left dadd
         (map (fun '(i, p) => weight m i * activation (fn m) x (getX p))
              (enum_from i l)) sumw).
Proof.
  induction l as [|p l IH]; intros i sum sumw; simpl; [done|].
  by rewrite IH.
Qed.

Lemma eval_loop (m : RBFNetwork D) (x : list D) :
  network_wf m -> length x = numVariables m ->
  for_each (fun i it '(sum, sumw) =>
      r ← dist x (getX it);
      let fval := RBF_eval (fn m) r in
      let sumw := sumw + vcoeff indeterminate (coefficients m) i * fval in
      let sum := sum + fval in
      Ok (sum, sumw))
    0 (points (samples m)) (d0, d0)
  = Ok (spec_sum m x, spec_sumw m x).
Proof.
  intros Hwf Hx.
  erewrite for_each_pure; cycle 1.
  { intros i p [sum sumw] Hp. rewrite (sample_dist m x p Hwf Hx Hp). simpl.
    instantiate (1 := fun i it '(sum, sumw) =>
        let fval := RBF_eval (fn m) (euclid x (getX it)) in
        (sum + fval, sumw + weight m i * fval)).
    done. }
  by rewrite eval_loop_sums.
Qed.

Lemma eval_value (m : RBFNetwork D) (x : DenseVector D) :
  network_wf m -> length x = numVariables m ->
  eval m x = Ok (spec_evaluate m x).
Proof.
  intros Hwf Hx. pose proof (eval_loop m x Hwf Hx) as Hloop.
  unfold eval. rewrite (proj2 (Nat.eqb_eq _ _) Hx). cbn [negb].
  cbv zeta in *. rewrite Hloop. done.
Qed.

(** C3. For every trained model and every query vector [x] of length
    [numVariables], [evaluate(x)] returns [sumw / sum] when the model is
    normalized and [sumw] otherwise, where [sumw = Σᵢ wᵢ·φ(‖x − xᵢ‖)] and
    [sum = Σᵢ φ(‖x − xᵢ‖)] range over all training samples. *)
Theorem eval_weighted_sum (m : RBFNetwork D) (x : DenseVector D) :
  network_wf m -> length x = numVariables m ->
  eval m x
  = Ok (if normalized m then spec_sumw m x / spec_sum m x else spec_sumw m x).
Proof.
  intros Hwf Hx. unfold eval.
  rewrite (proj2 (Nat.eqb_eq _ _) Hx). cbn [negb].
  pose proof (eval_loop m x Hwf Hx) as Hloop.
  cbv zeta in *. rewrite Hloop. done.
Qed.
End Evaluation.

(** ** The basis vector *)

Section Basis.
Context {D : Type} `{Double D} `{Environment D}.
Local Open Scope double_scope.

(** A loop that stores [f a] at the position of [a] overwrites a segment
    of the vector with [map f]. *)
Lemma fold_each_vset {A T} (f : A -> T) (l : list A) :
  forall (pre old post : list T),
    length old = length l ->
    fold_each (fun i a v => vset v i (f a)) (length pre) l
              (pre ++ old ++ post)
    = pre ++ map f l ++ post.
Proof.
  induction l as [|a l IH]; intros pre old post Hlen.
  - destruct old; [done | discriminate].
  - destruct old as [|o old]; [discriminate|]. simpl in *.
    unfold vset at 2.
    replace (length pre) with (length pre + 0)%nat at 2 by lia.
    rewrite insert_app_r. simpl.
    replace (S (length pre)) with (length (pre ++ [f a]))
      by (rewrite length_app; simpl; lia).
    rewrite (cons_middle (f a) pre (old ++ post)), app_assoc.
    rewrite (IH (pre ++ [f a]) old post) by lia.
    by rewrite <- app_assoc.
Qed.

Lemma evalBasis_activations (m : RBFNetwork D) (x : DenseVector D) :
  network_wf m -> length x = numVariables m ->
  evalBasis m x
  = Ok (let basis :=
          map (fun p => activation (fn m) x (getX p)) (points (samples m)) in
        if normalized m then vdiv basis (vsum basis) else basis).
Proof.
  intros Hwf Hx. unfold evalBasis.
  rewrite (proj2 (Nat.eqb_eq _ _) Hx). cbn [negb]. cbv zeta.
  erewrite for_each_pure; cycle 1.
  { intros i p basis Hp. rewrite (sample_dist m x p Hwf Hx Hp).
    instantiate (1 := fun i it basis =>
      vset basis i (activation (fn m) x (getX it))).
    done. }
  pose proof (fold_each_vset (fun p => activation (fn m) x (getX p))
    (points (samples m)) [] (vconst (getNumCoefficients m) indeterminate) [])
    as Hfold.
  simpl in Hfold. rewrite !app_nil_r in Hfold.
  rewrite Hfold; [done|].
  unfold vconst, getNumCoefficients. rewrite length_replicate.
  by destruct Hwf.
Qed.

(** The weights paired with a vector computed from the samples. *)
Lemma zip_weights {A} (w : list D) (f : A -> D) (l : list A) :
  forall i, (i + length l <= length w)%nat ->
    zip_with dmul (drop i w) (map f l)
    = map (fun '(j, p) => vcoeff indeterminate w j * f p) (enum_from i l).
Proof.
  induction l as [|a l IH]; intros i Hi; simpl in *.
  - by destruct (drop i w).
  - destruct (lookup_lt_is_Some_2 w i) as [wi Hwi]; [lia|].
    rewrite (drop_S w wi i Hwi). simpl.
    rewrite IH by lia. unfold vcoeff at 2.
    by rewrite (nth_lookup_Some _ _ _ _ Hwi).
Qed.

(** Without normalization the basis vector reproduces [sumw]. *)
Lemma dot_activations (m : RBFNetwork D) (x : list D) :
  network_wf m ->
  dot (coefficients m)
      (map (fun p => activation (fn m) x (getX p)) (points (samples m)))
  = spec_sumw m x.
Proof.
  intros [_ Hlen]. unfold dot, spec_sumw, weight.
  rewrite <- (zip_weights (coefficients m)) by (simpl; lia).
  done.
Qed.
End Basis.

(** ** Normalization, in exact arithmetic *)

Section ExactBasis.
Context `{Environment R}.
Local Open Scope R_scope.

Lemma exact_sum_div (s : R) (l : list R) :
  forall a, fold_left Rplus (map (fun c => c / s) l) (a / s)
            = fold_left Rplus l a / s.
Proof.
  induction l as [|c l IH]; intros a; simpl; [done|].
  rewrite <- IH. f_equal. unfold Rdiv. ring.
Qed.

Lemma exact_dot_div (s : R) (w : list R) :
  forall ks a,
    fold_left Rplus (zip_with Rmult w (map (fun c => c / s) ks)) (a / s)
    = fold_left Rplus (zip_with Rmult w ks) a / s.
Proof.
  induction w as [|c w IH]; intros [|k ks] a; simpl; try done.
  rewrite <- IH. f_equal. unfold Rdiv. ring.
Qed.

Lemma exact_vsum_vdiv (v : list R) :
  vsum v <> 0 -> vsum (vdiv v (vsum v)) = 1.
Proof.
  intros Hs. unfold vsum, vdiv in *. simpl in *.
  replace 0 with (0 / fold_left Rplus v 0) at 1 by (unfold Rdiv; ring).
  rewrite exact_sum_div. by field.
Qed.

Lemma exact_dot_vdiv (w v : list R) (s : R) :
  dot w (vdiv v s) = dot w v / s.
Proof.
  unfold dot, big_sum, vdiv. simpl.
  replace 0 with (0 / s) at 1 by (unfold Rdiv; ring).
  apply exact_dot_div.
Qed.


(** In exact arithmetic dividing the basis by the sum divides the dot
    product by it. *)
Lemma exact_dot_normalized (m : RBFNetwork R) (x : DenseVector R) :
  network_wf m ->
  let basis :=
    map (fun p => activation (fn m) x (getX p)) (points (samples m)) in
  dot (coefficients m) (vdiv basis (vsum basis))
  = spec_sumw m x / spec_sum m x.
Proof.
  intros Hwf basis. subst basis.
  by rewrite exact_dot_vdiv, (dot_activations m x Hwf).
Qed.
End ExactBasis.


(** ** The Jacobian *)

Section Jacobian.
Context {D : Type} `{Double D} `{Environment D}.
Local Open Scope double_scope.

Lemma at_nth {T} (v : list T) (i : nat) (d : T) :
  (i < length v)%nat -> at_ v i = Ok (nth i v d).
Proof.
  intros Hi. destruct (lookup_lt_is_Some_2 v i Hi) as [a Ha].
  rewrite (at_lookup _ _ _ Ha). by rewrite (nth_lookup_Some _ _ _ _ Ha).
Qed.

Lemma for_range_ext {St} (body body' : nat -> St -> result St) :
  forall n i s,
    (forall k s, (i <= k < i + n)%nat -> body k s = body' k s) ->
    for_range body i n s = for_range body' i n s.
Proof.
  induction n as [|n IH]; intros i s Hbody; simpl; [done|].
  rewrite Hbody by lia. destruct (body' i s); simpl; [|done].
  apply IH. intros; apply Hbody; lia.
Qed.

Lemma jacobian_step_sums (m : RBFNetwork D) (x : list D) (i : nat)
    (l : list (DataPoint D)) :
  forall j sumw sumw_d sum sum_d,
    fold_each (jacobian_step m x i) j l (sumw, sumw_d, sum, sum_d)
    = (fold_left dadd
         (map (fun '(j, p) => weight m j * activation (fn m) x (getX p))
              (enum_from j l)) sumw,
       fold_left dadd
         (map (fun '(j, p) => weighted_directional m j x (getX p) i)
              (filter (fun jp => off_centre x jp = true) (enum_from j l)))
         sumw_d,
       fold_left dadd
         (map (fun p => activation (fn m) x (getX p)) l) sum,
       fold_left dadd
         (map (fun '(j, p) => directional (fn m) x (getX p) i)
              (filter (fun jp => off_centre x jp = true) (enum_from j l)))
         sum_d).
Proof.
  induction l as [|p l IH]; intros j sumw sumw_d sum sum_d; [done|].
  cbn [fold_each enum_from map]. unfold jacobian_step at 2.
  rewrite filter_cons.
  destruct (off_centre x (j, p)) eqn:Hoff.
  - rewrite decide_True by done. rewrite IH. done.
  - rewrite decide_False by done. rewrite IH. done.
Qed.

Lemma jacobian_sums_spec (m : RBFNetwork D) (x : list D) (i : nat) :
  network_wf m -> length x = numVariables m -> (i < numVariables m)%nat ->
  jacobian_sums m x i
  = Ok (spec_sumw m x, spec_sumw_d m x i, spec_sum m x, spec_sum_d m x i).
Proof.
  intros Hwf Hx Hi. unfold jacobian_sums.
  rewrite (for_each_pure _ (jacobian_step m x i)).
  - by rewrite jacobian_step_sums.
  - intros j p [[[sumw sumw_d] sum] sum_d] Hp.
    rewrite (sample_dist m x p Hwf Hx Hp).
    assert (length (getX p) = numVariables m) as Hp'.
    { destruct Hwf as [Hdim _]. rewrite Forall_forall in Hdim. auto. }
    rewrite (at_nth x i d0) by lia.
    rewrite (at_nth (getX p) i d0) by lia.
    unfold jacobian_step, off_centre, directional, weighted_directional,
      activation, weight. cbn.
    destruct (dneb (euclid x (getX p)) d0); done.
Qed.

Lemma mset_row (c : nat) (pre : list D) (o : D) (rest : list D) (v : D) :
  mset {| rows := 1; cols := c; coeffs := pre ++ o :: rest |} 0 (length pre) v
  = {| rows := 1; cols := c; coeffs := pre ++ v :: rest |}.
Proof.
  unfold mset, mindex. cbn [rows cols coeffs]. f_equal.
  replace (0 + length pre * 1)%nat with (length pre + 0)%nat by lia.
  by rewrite insert_app_r.
Qed.

(** Filling the single row of [jac] from left to right. *)
Lemma jac_fill (g : nat -> D) (c : nat) :
  forall n (pre old post : list D),
    length old = n ->
    for_range (fun i jac => Ok (mset jac 0 i (g i))) (length pre) n
      {| rows := 1; cols := c; coeffs := pre ++ old ++ post |}
    = Ok {| rows := 1; cols := c;
            coeffs := pre ++ map g (seq (length pre) n) ++ post |}.
Proof.
  induction n as [|n IH]; intros pre old post Hlen.
  - destruct old; [done | discriminate].
  - destruct old as [|o old]; [discriminate|].
    cbn [for_range seq map]. rewrite bind_Ok, <- app_comm_cons, mset_row.
    rewrite (cons_middle (g (length pre)) pre (old ++ post)), app_assoc.
    replace (S (length pre)) with (length (pre ++ [g (length pre)]))
      by (rewrite length_app; simpl; lia).
    rewrite (IH (pre ++ [g (length pre)]) old post) by (simpl in Hlen; lia).
    rewrite <- app_assoc. done.
Qed.

(** C4. For every model and query point, each entry of [evalJacobian] is
    computed by the chain rule with directional factor [ri/r], the
    directional term is omitted for every sample at distance [r == 0] from
    the query point, and in the normalized case the entry equals
    [(sum·sumw_d − sum_d·sumw) / sum²]. *)
Theorem evalJacobian_chain_rule (m : RBFNetwork D) (x : DenseVector D) :
  network_wf m -> length x = numVariables m ->
  evalJacobian m x
  = Ok {| rows := 1; cols := numVariables m;
          coeffs :=
            map (fun i =>
                   if normalized m then
                     (spec_sum m x * spec_sumw_d m x i
                      - spec_sum_d m x i * spec_sumw m x)
                     / (spec_sum m x * spec_sum m x)
                   else spec_sumw_d m x i)
                (seq 0 (numVariables m)) |}.
Proof.
  intros Hwf Hx. unfold evalJacobian. cbv zeta.
  erewrite for_range_ext; cycle 1.
  { intros i jac Hi. rewrite (jacobian_sums_spec m x i Hwf Hx) by lia.
    instantiate (1 := fun i jac => Ok (mset jac 0 i
      (if normalized m then
         (spec_sum m x * spec_sumw_d m x i - spec_sum_d m x i * spec_sumw m x)
         / (spec_sum m x * spec_sum m x)
       else spec_sumw_d m x i))).
    cbn. by destruct (normalized m). }
  pose proof (jac_fill (fun i =>
      if normalized m then
        (spec_sum m x * spec_sumw_d m x i - spec_sum_d m x i * spec_sumw m x)
        / (spec_sum m x * spec_sum m x)
      else spec_sumw_d m x i)
    (numVariables m) (numVariables m) []
    (replicate (numVariables m) d0) []) as Hfill.
  cbn [app length] in Hfill. rewrite !app_nil_r in Hfill.
  unfold mconst. rewrite Nat.mul_1_l.
  apply Hfill. apply length_replicate.
Qed.
End Jacobian.

(** ** Assembling the linear system *)

Section Assembly.
Context {D : Type} `{Double D} `{Environment D}.
Local Open Scope double_scope.

Lemma mindex_inj (r i j i' j' : nat) :
  (i < r)%nat -> (i' < r)%nat ->
  (i + j * r)%nat = (i' + j' * r)%nat -> i = i' /\ j = j'.
Proof.
  intros Hi Hi' Heq.
  destruct (lt_eq_lt_dec j j') as [[Hlt | ->] | Hlt]; [nia | lia | nia].
Qed.

Lemma row_step_eq fn i it1 j (p : DataPoint D) A s :
  row_step fn i it1 j p (A, s)
  = if dneb (entry fn it1 p) d0
    then (mset A i j (entry fn it1 p), s + entry fn it1 p) else (A, s).
Proof. done. Qed.

Lemma row_step_sum fn i it1 (l : list (DataPoint D)) :
  forall j A s,
    (fold_each (row_step fn i it1) j l (A, s)).2 = kept_sum fn it1 l s.
Proof.
  induction l as [|p l IH]; intros j A s; [done|].
  cbn [fold_each]. rewrite row_step_eq.
  unfold kept_sum. cbn [fold_left].
  destruct (dneb (entry fn it1 p) d0); apply IH.
Qed.

Lemma row_step_dims fn i it1 (l : list (DataPoint D)) :
  forall j A s,
    rows (fold_each (row_step fn i it1) j l (A, s)).1 = rows A
    /\ cols (fold_each (row_step fn i it1) j l (A, s)).1 = cols A
    /\ length (coeffs (fold_each (row_step fn i it1) j l (A, s)).1)
       = length (coeffs A).
Proof.
  induction l as [|p l IH]; intros j A s; [done|].
  cbn [fold_each]. rewrite row_step_eq.
  destruct (dneb (entry fn it1 p) d0); [|apply IH].
  destruct (IH (S j) (mset A i j (entry fn it1 p)) (s + entry fn it1 p))
    as (Hr & Hc & Hl).
  rewrite Hr, Hc, Hl. cbn. by rewrite length_insert.
Qed.

(** The inner loop for row [i] touches only the coefficients
    [(i, j) .. (i, j + length l - 1)]. *)
Lemma row_step_outside fn i it1 (l : list (DataPoint D)) :
  forall j A s k,
    (forall j', (j <= j' < j + length l)%nat -> k <> (i + j' * rows A)%nat) ->
    coeffs (fold_each (row_step fn i it1) j l (A, s)).1 !! k = coeffs A !! k.
Proof.
  induction l as [|p l IH]; intros j A s k Hk; [done|].
  cbn [fold_each]. rewrite row_step_eq. cbn [length] in Hk.
  destruct (dneb (entry fn it1 p) d0).
  - rewrite IH by (intros; cbn; apply Hk; lia).
    cbn. unfold mindex. apply list_lookup_insert_ne.
    intros <-. eapply (Hk j); [lia | done].
  - apply IH. intros; apply Hk; lia.
Qed.

(** ... and leaves in [(i, j + j')] the value of the sample at position
    [j'] if it passes the guard. *)
Lemma row_step_inside fn i it1 (l : list (DataPoint D)) :
  forall j A s j' p,
    (0 < rows A)%nat -> l !! j' = Some p ->
    (i + (j + j') * rows A < length (coeffs A))%nat ->
    coeffs (fold_each (row_step fn i it1) j l (A, s)).1
      !! (i + (j + j') * rows A)%nat
    = if dneb (entry fn it1 p) d0 then Some (entry fn it1 p)
      else coeffs A !! (i + (j + j') * rows A)%nat.
Proof.
  induction l as [|q l IH]; intros j A s j' p Hr Hp Hlt; [done|].
  cbn [fold_each]. rewrite row_step_eq. destruct j' as [|j'].
  - injection Hp as ->. rewrite Nat.add_0_r in *.
    destruct (dneb (entry fn it1 p) d0).
    + rewrite row_step_outside by (intros; cbn; nia).
      cbn. unfold mindex. by apply list_lookup_insert_eq.
    + apply row_step_outside. intros; nia.
  - cbn in Hp.
    replace (j + S j')%nat with (S j + j')%nat in * by lia.
    destruct (dneb (entry fn it1 q) d0).
    + pose proof (IH (S j) (mset A i j (entry fn it1 q))
                     (s + entry fn it1 q) j' p) as IH'.
      cbn [rows mset coeffs] in IH'. rewrite length_insert in IH'.
      rewrite (IH' Hr Hp Hlt).
      destruct (dneb (entry fn it1 p) d0); [done|].
      unfold mindex. apply list_lookup_insert_ne. nia.
    + by apply IH.
Qed.
Lemma system_step_eq fn nz pts i (it1 : DataPoint D) A b :
  system_step fn nz pts i it1 (A, b)
  = ((fold_each (row_step fn i it1) 0 pts (A, d0)).1,
     vset b i (rhs fn nz pts it1)).
Proof. done. Qed.

Lemma system_step_rhs fn nz pts (l : list (DataPoint D)) :
  forall i A b,
    (fold_each (system_step fn nz pts) i l (A, b)).2
    = fold_each (fun i it b => vset b i (rhs fn nz pts it)) i l b.
Proof.
  induction l as [|p l IH]; intros i A b; [done|].
  cbn [fold_each]. rewrite system_step_eq. apply IH.
Qed.

Lemma system_step_dims fn nz pts (l : list (DataPoint D)) :
  forall i A b,
    rows (fold_each (system_step fn nz pts) i l (A, b)).1 = rows A
    /\ cols (fold_each (system_step fn nz pts) i l (A, b)).1 = cols A
    /\ length (coeffs (fold_each (system_step fn nz pts) i l (A, b)).1)
       = length (coeffs A).
Proof.
  induction l as [|p l IH]; intros i A b; [done|].
  cbn [fold_each]. rewrite system_step_eq.
  destruct (IH (S i) (fold_each (row_step fn i p) 0 pts (A, d0)).1
               (vset b i (rhs fn nz pts p))) as (Hr & Hc & Hl).
  destruct (row_step_dims fn i p pts 0 A d0) as (Hr' & Hc' & Hl').
  rewrite Hr, Hc, Hl. done.
Qed.

(** The outer loop over the rows [i .. i + length l - 1] touches no
    coefficient of another row. *)
Lemma system_step_outside fn nz pts (l : list (DataPoint D)) :
  forall i A b k,
    (forall i' j', (i <= i' < i + length l)%nat -> (j' < length pts)%nat ->
                   k <> (i' + j' * rows A)%nat) ->
    coeffs (fold_each (system_step fn nz pts) i l (A, b)).1 !! k
    = coeffs A !! k.
Proof.
  induction l as [|p l IH]; intros i A b k Hk; [done|].
  cbn [fold_each]. rewrite system_step_eq. cbn [length] in Hk.
  destruct (row_step_dims fn i p pts 0 A d0) as (Hr & _ & _).
  rewrite IH.
  - apply row_step_outside. intros j' Hj'. apply Hk; lia.
  - intros i' j' Hi' Hj'. rewrite Hr. apply Hk; lia.
Qed.

(** Every coefficient [(i + i', j')] of those rows holds the value of its
    pair of samples if that passes the guard, and is untouched otherwise. *)
Lemma system_step_inside fn nz pts (l : list (DataPoint D)) :
  forall i A b i' p1 j' p2,
    l !! i' = Some p1 -> pts !! j' = Some p2 ->
    (i + length l <= rows A)%nat ->
    ((i + i') + j' * rows A < length (coeffs A))%nat ->
    coeffs (fold_each (system_step fn nz pts) i l (A, b)).1
      !! ((i + i') + j' * rows A)%nat
    = if dneb (entry fn p1 p2) d0 then Some (entry fn p1 p2)
      else coeffs A !! ((i + i') + j' * rows A)%nat.
Proof.
  induction l as [|q l IH]; intros i A b i' p1 j' p2 Hp1 Hp2 Hrows Hlt;
    [done|].
  cbn [fold_each]. rewrite system_step_eq. cbn [length] in Hrows.
  pose proof (lookup_lt_Some _ _ _ Hp2) as Hj'.
  destruct (row_step_dims fn i q pts 0 A d0) as (Hr & _ & Hl).
  destruct i' as [|i'].
  - injection Hp1 as ->. rewrite Nat.add_0_r in *.
    rewrite system_step_outside.
    + apply (row_step_inside fn i p1 pts 0 A d0 j' p2); [lia | done | done].
    + intros i'' j'' Hi'' Hj''. rewrite Hr. intros Heq.
      apply mindex_inj in Heq; lia.
  - cbn in Hp1. replace (i + S i')%nat with (S i + i')%nat in * by lia.
    pose proof (lookup_lt_Some _ _ _ Hp1) as Hi'.
    pose proof (IH (S i) (fold_each (row_step fn i q) 0 pts (A, d0)).1
                   (vset b i (rhs fn nz pts q)) i' p1 j' p2 Hp1 Hp2) as IH'.
    rewrite Hr, Hl in IH'. rewrite IH' by lia.
    destruct (dneb (entry fn p1 p2) d0); [done|].
    apply row_step_outside. intros j'' Hj'' Heq.
    apply mindex_inj in Heq; lia.
Qed.
(** On a table whose samples all have the same dimension, [dist] never
    throws and the two loops are the two folds above. *)
Lemma assemble_pure fn nz (pts : list (DataPoint D)) A b :
  (forall p q, p ∈ pts -> q ∈ pts -> length (getX p) = length (getX q)) ->
  assemble fn nz pts A b
  = Ok (fold_each (system_step fn nz pts) 0 pts (A, b)).
Proof.
  intros Hdim. unfold assemble.
  apply for_each_pure. intros i it1 [A' b'] Hit1.
  unfold assemble_row.
  rewrite (for_each_pure _ (row_step fn i it1)).
  - rewrite bind_Ok, system_step_eq.
    pose proof (row_step_sum fn i it1 pts 0 A' d0) as Hsum.
    destruct (fold_each (row_step fn i it1) 0 pts (A', d0)) as [A1 sum].
    cbn in Hsum. subst sum. unfold rhs. by destruct nz.
  - intros j it2 [A1 sum] Hit2. unfold dist_points.
    rewrite (dist_euclid _ _ (Hdim it1 it2 Hit1 Hit2)), bind_Ok.
    rewrite row_step_eq. unfold entry, activation.
    by destruct (dneb _ _).
Qed.

Lemma table_wf_uniform (t : DataTable D) :
  table_wf t ->
  forall p q, p ∈ points t -> q ∈ points t ->
              length (getX p) = length (getX q).
Proof.
  unfold table_wf. rewrite Forall_forall. intros Hwf p q Hp Hq.
  by rewrite (Hwf p Hp), (Hwf q Hq).
Qed.

(** The linear system the constructor assembles, for every arithmetic:
    [A(i,j)] holds the kernel value of the pair of samples when this is
    [!= 0] and the initial zero otherwise; [b(i)] is [yᵢ], times the sum of
    the values that passed the guard when the network is normalized. *)
Lemma assemble_system fn nz (t : DataTable D) :
  table_wf t ->
  let n := getNumSamples t in
  exists A b,
    assemble fn nz (points t) (mconst n n d0) (vconst n d0) = Ok (A, b)
    /\ rows A = n /\ cols A = n /\ mwf A
    /\ (forall i j pi pj,
          points t !! i = Some pi -> points t !! j = Some pj ->
          mcoeff d0 A i j = stored (entry fn pi pj))
    /\ b = map (rhs fn nz (points t)) (points t).
Proof.
  intros Hwf n.
  rewrite (assemble_pure fn nz (points t) _ _ (table_wf_uniform t Hwf)).
  destruct (fold_each (system_step fn nz (points t)) 0 (points t)
              (mconst n n d0, vconst n d0)) as [A b] eqn:Hfold.
  exists A, b. split; [done|].
  pose proof (system_step_dims fn nz (points t) (points t) 0
                (mconst n n d0) (vconst n d0)) as (Hr & Hc & Hl).
  rewrite Hfold in Hr, Hc, Hl. cbn in Hr, Hc, Hl.
  rewrite length_replicate in Hl.
  split; [done|]. split; [done|].
  split; [unfold mwf; by rewrite Hl, Hr, Hc|].
  split.
  - intros i j pi pj Hpi Hpj.
    pose proof (lookup_lt_Some _ _ _ Hpi) as Hi.
    pose proof (lookup_lt_Some _ _ _ Hpj) as Hj.
    fold (getNumSamples t) in Hi, Hj. fold n in Hi, Hj.
    pose proof (system_step_inside fn nz (points t) (points t) 0
                  (mconst n n d0) (vconst n d0) i pi j pj Hpi Hpj) as Hin.
    rewrite Hfold in Hin. cbn [fst rows coeffs mconst] in Hin.
    rewrite length_replicate in Hin.
    unfold mcoeff, mindex. rewrite Hr.
    apply nth_lookup_Some with (d := d0). cbn [Nat.add] in Hin.
    rewrite Hin; [| fold (getNumSamples t); fold n; lia | nia].
    unfold stored. destruct (dneb (entry fn pi pj) d0); [done|].
    apply lookup_replicate_2. nia.
  - pose proof (system_step_rhs fn nz (points t) (points t) 0
                  (mconst n n d0) (vconst n d0)) as Hb.
    rewrite Hfold in Hb. cbn [snd] in Hb. rewrite Hb.
    pose proof (fold_each_vset (rhs fn nz (points t)) (points t) []
                  (vconst n d0) []) as Hset.
    cbn [app length] in Hset. rewrite !app_nil_r in Hset.
    apply Hset. unfold vconst. by rewrite length_replicate.
Qed.
End Assembly.

#[export] Instance exact_ExactZero : ExactZero R.
Proof.
  split; simpl.
  - intros v. by destruct (Req_dec_T v 0).
  - intros s. lra.
Qed.

#[export] Instance exact_SymmetricSquare : SymmetricSquare R.
Proof. split; simpl. intros a b. ring. Qed.

Section LinearSystem.
Context {D : Type} `{Double D} `{Environment D}.
Local Open Scope double_scope.

Lemma vread_lookup {T} (v : DenseVector T) (i : nat) (a : T) :
  v !! i = Some a -> vread v i = Ok a.
Proof. unfold vread. by intros ->. Qed.

Lemma vread_empty {T} (i : nat) :
  vread (@nil T) i = Throw undefined_behaviour.
Proof. by destruct i. Qed.

(** What the constructor returns on a well-formed table: when Eigen
    returns singular values (one per sample, so at least one when the table
    has a sample), the network with the weights [svd.solve(b)] and the
    conditioning of [A]; when it returns none, the reads of [svals] are
    outside the vector. *)
Lemma RBFNetwork_new_trained (t : DataTable D) (ty : RBFType) (nz : bool) :
  table_wf t ->
  let n := getNumSamples t in
  exists A b,
    assemble (select_kernel ty) nz (points t) (mconst n n d0) (vconst n d0)
    = Ok (A, b)
    /\ (forall smax smin,
          svd_singularValues A !! 0%nat = Some smax ->
          svd_singularValues A !! (length (svd_singularValues A) - 1)%nat
          = Some smin ->
          RBFNetwork_new t ty nz
          = Ok ({| numVariables := getNumVariables t; samples := t;
                   type := ty; normalized := nz; precondition := false;
                   numSamples := n; fn := select_kernel ty;
                   coefficients := svd_solve A b |},
                {| svalmax := smax; svalmin := smin;
                   rcondnum := rcond_of smax smin |}))
    /\ (svd_singularValues A = [] ->
        RBFNetwork_new t ty nz = Throw undefined_behaviour).
Proof.
  intros Hwf n.
  destruct (assemble_system (select_kernel ty) nz t Hwf)
    as (A & b & Hasm & _).
  exists A, b. split; [done|]. split.
  - intros smax smin Hmax Hmin.
    unfold RBFNetwork_new. cbv zeta. rewrite Hasm, bind_Ok. cbv beta iota.
    rewrite (vread_lookup _ _ _ Hmax), bind_Ok.
    by rewrite (vread_lookup _ _ _ Hmin), bind_Ok.
  - intros Hnil.
    unfold RBFNetwork_new. cbv zeta. rewrite Hasm, bind_Ok. cbv beta iota.
    by rewrite Hnil, vread_empty.
Qed.

(** A vector that is not empty has a first and a last entry. *)
Lemma first_and_last {T} (v : list T) :
  v <> [] ->
  exists first last_,
    v !! 0%nat = Some first /\ v !! (length v - 1)%nat = Some last_.
Proof.
  intros Hne. destruct v as [|a v]; [done|].
  destruct (lookup_lt_is_Some_2 (a :: v) (length (a :: v) - 1))
    as [l Hl]; [cbn; lia|].
  by exists a, l.
Qed.

Lemma stored_exact `{!ExactZero D} (v : D) : stored v = v.
Proof.
  unfold stored, dneb. destruct (deqb v d0) eqn:Hv; [|done].
  simpl. symmetry. by apply deqb_zero.
Qed.

Lemma kept_sum_exact `{!ExactZero D} fn p1 (pts : list (DataPoint D)) :
  forall s, kept_sum fn p1 pts s = fold_left dadd (map (entry fn p1) pts) s.
Proof.
  unfold kept_sum.
  induction pts as [|p2 pts IH]; intros s; cbn [fold_left map]; [done|].
  rewrite IH. f_equal.
  pose proof (stored_exact (entry fn p1 p2)) as Hst. unfold stored in Hst.
  destruct (dneb (entry fn p1 p2) d0); [done|].
  by rewrite <- Hst, dadd_zero.
Qed.

Lemma row_of_matrix (A : DenseMatrix D) (f : DataPoint D -> D)
    (pts : list (DataPoint D)) (i : nat) :
  cols A = length pts ->
  (forall j pj, pts !! j = Some pj -> mcoeff d0 A i j = f pj) ->
  map (fun j => mcoeff d0 A i j) (seq 0 (cols A)) = map f pts.
Proof.
  intros Hc Hrow. apply list_eq. intros j.
  rewrite !list_lookup_fmap.
  destruct (pts !! j) as [pj|] eqn:Hj; simpl.
  - rewrite lookup_seq_lt by (rewrite Hc; by eapply lookup_lt_Some).
    simpl. f_equal. by apply Hrow.
  - rewrite lookup_seq_ge; [done|]. rewrite Hc. by apply lookup_ge_None.
Qed.

(** In an arithmetic where only zero equals zero and adding zero is
    neutral (the real numbers), the assembled system is the one of the
    specification as it stands. *)
Lemma exact_linear_system `{!ExactZero D}
    (t : DataTable D) (ty : RBFType) (nz : bool) :
  table_wf t ->
  let n := getNumSamples t in
  exists A b,
    assemble (select_kernel ty) nz (points t) (mconst n n d0) (vconst n d0)
    = Ok (A, b)
    /\ rows A = n /\ cols A = n
    /\ (forall i j pi pj,
          points t !! i = Some pi -> points t !! j = Some pj ->
          mcoeff d0 A i j
          = RBF_eval (select_kernel ty) (euclid (getX pi) (getX pj)))
    /\ (forall i pi,
          points t !! i = Some pi ->
          b !! i = Some (if nz then row_sum A i * getY pi else getY pi)).
Proof.
  intros Hwf n.
  destruct (assemble_system (select_kernel ty) nz t Hwf)
    as (A & b & Hasm & Hr & Hc & _ & HA & Hb).
  exists A, b. split; [done|].
  split; [done|]. split; [done|].
  assert (forall i j pi pj,
    points t !! i = Some pi -> points t !! j = Some pj ->
    mcoeff d0 A i j = entry (select_kernel ty) pi pj) as HA'.
  { intros i j pi pj Hpi Hpj. rewrite (HA i j pi pj Hpi Hpj).
    apply stored_exact. }
  split; [exact HA'|].
  intros i pi Hpi. rewrite Hb, list_lookup_fmap, Hpi. simpl. f_equal.
  unfold rhs. destruct nz; [|done]. f_equal.
  rewrite kept_sum_exact. unfold row_sum, big_sum. f_equal.
  symmetry. apply row_of_matrix; [by rewrite Hc | eauto].
Qed.

Lemma euclid_sym `{!SymmetricSquare D} (x y : list D) :
  euclid x y = euclid y x.
Proof.
  unfold euclid. do 2 f_equal.
  revert y; induction x as [|a x IH]; intros [|b y]; simpl; try done.
  by rewrite IH, dsq_sub_sym.
Qed.

(** C8. For every sample table with [n ≥ 1] samples and every kernel
    variant, the assembled training matrix is symmetric:
    [A(i,j) = A(j,i)] for all [i], [j]. *)
Theorem training_matrix_symmetric `{!SymmetricSquare D}
    (t : DataTable D) (ty : RBFType) (nz : bool) :
  table_wf t -> (1 <= getNumSamples t)%nat ->
  let n := getNumSamples t in
  exists A b,
    assemble (select_kernel ty) nz (points t) (mconst n n d0) (vconst n d0)
    = Ok (A, b)
    /\ rows A = n /\ cols A = n
    /\ forall i j, (i < n)%nat -> (j < n)%nat ->
                   mcoeff d0 A i j = mcoeff d0 A j i.
Proof.
  intros Hwf _ n.
  destruct (assemble_system (select_kernel ty) nz t Hwf)
    as (A & b & Hasm & Hr & Hc & _ & HA & _).
  exists A, b. split; [done|]. split; [done|]. split; [done|].
  intros i j Hi Hj.
  destruct (lookup_lt_is_Some_2 (points t) i Hi) as [pi Hpi].
  destruct (lookup_lt_is_Some_2 (points t) j Hj) as [pj Hpj].
  rewrite (HA i j pi pj Hpi Hpj), (HA j i pj pi Hpj Hpi).
  unfold entry, activation. by rewrite euclid_sym.
Qed.
End LinearSystem.

(** ** Binary64: the square of a difference does not depend on its order *)

Section Binary64.
Variables prec emax : Z.

Lemma SFopp_involutive (x : spec_float) : SFopp (SFopp x) = x.
Proof. destruct x as [s| s| |s m e]; simpl; by rewrite ?negb_involutive. Qed.

(** Rounding to nearest even does not look at the sign. *)
Lemma binary_round_aux_opp (m e : Z) (l : location) :
  binary_round_aux prec emax true m e l
  = SFopp (binary_round_aux prec emax false m e l).
Proof.
  unfold binary_round_aux.
  destruct (shr_fexp prec emax m e l) as [mrs' e'].
  destruct (shr_fexp prec emax _ e' loc_Exact) as [mrs'' e''].
  destruct (shr_m mrs''); [done | | done].
  by destruct (Z.leb e'' (emax - prec)).
Qed.

Lemma binary_round_opp (m : positive) (e : Z) :
  binary_round prec emax true m e = SFopp (binary_round prec emax false m e).
Proof.
  unfold binary_round. destruct (shl_align m e _) as [mz ez].
  apply binary_round_aux_opp.
Qed.

Lemma binary_normalize_opp (m e : Z) :
  binary_normalize prec emax (- m) e false
  = if Z.eqb m 0 then S754_zero false
    else SFopp (binary_normalize prec emax m e false).
Proof.
  destruct m as [|p|p]; simpl; [done | apply binary_round_opp |].
  by rewrite binary_round_opp, SFopp_involutive.
Qed.

Lemma SFmul_opp_opp (x : spec_float) :
  SFmul prec emax (SFopp x) (SFopp x) = SFmul prec emax x x.
Proof. destruct x as [[]|[]| |[] m e]; done. Qed.

(** [b − a] is [a − b] or its opposite (they are both [+0] when the
    difference is zero). *)
Lemma SFsub_swap (a b : spec_float) :
  SFsub prec emax b a = SFsub prec emax a b
  \/ SFsub prec emax b a = SFopp (SFsub prec emax a b).
Proof.
  destruct a as [[]|[]| |sa ma ea], b as [[]|[]| |sb mb eb]; simpl;
    try (by left); try (by right);
    try (right; by rewrite ?negb_involutive).
  rewrite (Z.min_comm eb ea).
  set (ez := Z.min ea eb).
  set (A := cond_Zopp sa (Z.pos (shl_align ma ea ez).1)).
  set (B := cond_Zopp sb (Z.pos (shl_align mb eb ez).1)).
  replace (B - A)%Z with (- (A - B))%Z by lia.
  rewrite binary_normalize_opp.
  destruct (Z.eqb_spec (A - B) 0) as [->|_]; [by left | by right].
Qed.

Lemma SF_square_sub_sym (a b : spec_float) :
  SFmul prec emax (SFsub prec emax a b) (SFsub prec emax a b)
  = SFmul prec emax (SFsub prec emax b a) (SFsub prec emax b a).
Proof.
  destruct (SFsub_swap a b) as [-> | ->]; [done|].
  by rewrite SFmul_opp_opp.
Qed.
End Binary64.

#[export] Instance binary64_SymmetricSquare : SymmetricSquare spec_float.
Proof. split. intros a b. apply SF_square_sub_sym. Qed.

(** In binary64 the guarded assignment stores the kernel value itself, except
    that [-0.0] is left as the [0.0] the matrix was initialized with; the two
    compare equal. *)
Lemma binary64_stored (v : spec_float) :
  stored v = v \/ (v = S754_zero true /\ stored v = S754_zero false).
Proof.
  unfold stored, dneb. simpl.
  destruct v as [[]|[]| |[] m e]; simpl; auto.
Qed.

(** ** Binary64: a sum that starts from 0.0 never becomes -0.0 *)

Section NoNegativeZero.
Variables prec emax : Z.
Hypothesis Hprec : (0 < prec)%Z.
Local Open Scope Z_scope.

Lemma iter_pos_iter {A} (f : A -> A) (p : positive) :
  forall x, SpecFloat.iter_pos f p x = Pos.iter f x p.
Proof.
  induction p as [p IH|p IH|]; intros x; simpl; [|by rewrite !IH|reflexivity].
  rewrite !IH. rewrite <- !Pos.iter_swap. reflexivity.
Qed.

Lemma fexp_emin (e : Z) : emin prec emax <= fexp prec emax e.
Proof. unfold fexp. apply Z.le_max_r. Qed.

(** One shift to the right removes one binary digit. *)
Lemma shr_1_digits (mrs : shr_record) :
  0 <= shr_m mrs ->
  0 <= shr_m (shr_1 mrs)
  /\ Zdigits2 (shr_m (shr_1 mrs)) = Z.max 0 (Zdigits2 (shr_m mrs) - 1).
Proof.
  destruct mrs as [[|[q|q|]|q] r s]; simpl; intros Hm; try lia.
Qed.

Lemma shr_digits (mrs : shr_record) (p : positive) :
  0 <= shr_m mrs ->
  0 <= shr_m (SpecFloat.iter_pos shr_1 p mrs)
  /\ Zdigits2 (shr_m (SpecFloat.iter_pos shr_1 p mrs))
     = Z.max 0 (Zdigits2 (shr_m mrs) - Z.pos p).
Proof.
  intros Hm. rewrite iter_pos_iter.
  induction p as [|p IH] using Pos.peano_ind.
  - simpl. apply shr_1_digits, Hm.
  - rewrite Pos.iter_succ. destruct IH as [IH1 IH2].
    destruct (shr_1_digits _ IH1) as [H1 H2].
    split; [exact H1|]. rewrite H2, IH2. lia.
Qed.

Lemma Zdigits2_positive (m : Z) : 0 <= m -> 0 < Zdigits2 m -> 0 < m.
Proof. destruct m; simpl; lia. Qed.

(** Shifting a positive mantissa to the precision of the format keeps
    [prec] digits of it. *)
Lemma shr_fexp_positive (m e : Z) (l : location) :
  0 < m -> emin prec emax <= e ->
  0 < shr_m (shr_fexp prec emax m e l).1
  /\ emin prec emax <= (shr_fexp prec emax m e l).2.
Proof using Hprec.
  intros Hm He. unfold shr_fexp, shr.
  assert (shr_m (shr_record_of_loc m l) = m) as Hrec
    by (destruct l as [|[]]; reflexivity).
  pose proof (fexp_emin (Zdigits2 m + e)) as Hf.
  destruct (fexp prec emax (Zdigits2 m + e) - e) as [|p|p] eqn:Hn; simpl.
  - rewrite Hrec. lia.
  - destruct (shr_digits (shr_record_of_loc m l) p) as [H1 H2];
      [rewrite Hrec; lia|].
    rewrite Hrec in H2. split; [|lia].
    apply Zdigits2_positive; [exact H1|].
    rewrite H2. unfold fexp in Hn. lia.
  - rewrite Hrec. lia.
Qed.

Lemma round_nearest_even_positive (m : Z) (l : location) :
  0 < m -> 0 < round_nearest_even m l.
Proof.
  intros Hm. destruct l as [|[]]; simpl; try lia.
  destruct (Z.even m); lia.
Qed.

Lemma binary_round_aux_regular (s : bool) (m e : Z) :
  0 < m -> emin prec emax <= e ->
  regular prec emax (binary_round_aux prec emax s m e loc_Exact).
Proof using Hprec.
  intros Hm He. unfold binary_round_aux.
  destruct (shr_fexp_positive m e loc_Exact Hm He) as [H1 H1'].
  destruct (shr_fexp prec emax m e loc_Exact) as [mrs' e']. simpl in H1, H1'.
  pose proof (round_nearest_even_positive _ (loc_of_shr_record mrs') H1) as H2.
  destruct (shr_fexp_positive _ e' loc_Exact H2 H1') as [H3 H3'].
  destruct (shr_fexp prec emax _ e' loc_Exact) as [mrs'' e''].
  simpl in H3, H3'.
  destruct (shr_m mrs'') as [|q|q]; try lia.
  destruct (e'' <=? emax - prec); split; simpl; try discriminate; auto.
Qed.

Lemma binary_round_regular (s : bool) (m : positive) (e : Z) :
  emin prec emax <= e -> regular prec emax (binary_round prec emax s m e).
Proof using Hprec.
  intros He. unfold binary_round.
  pose proof (fexp_emin (Z.pos (digits2_pos m) + e)) as Hf.
  destruct (shl_align m e _) as [mz ez] eqn:Hsh.
  apply binary_round_aux_regular; [lia|].
  unfold shl_align in Hsh.
  destruct (_ - e); injection Hsh as <- <-; lia.
Qed.

Lemma binary_normalize_regular (m e : Z) :
  emin prec emax <= e ->
  regular prec emax (binary_normalize prec emax m e false).
Proof using Hprec.
  intros He. destruct m; simpl.
  - split; [discriminate | exact I].
  - by apply binary_round_regular.
  - by apply binary_round_regular.
Qed.

Lemma SFadd_regular (s v : spec_float) :
  regular prec emax s -> lowbounded prec emax v ->
  regular prec emax (SFadd prec emax s v).
Proof using Hprec.
  intros [Hs Hls] Hv.
  destruct s as [[]|[]| |ss ms es], v as [[]|[]| |sv mv ev]; simpl;
    try (split; [discriminate | exact I]);
    try (split; [discriminate | assumption]);
    try congruence.
  apply binary_normalize_regular. simpl in *. lia.
Qed.

Lemma SFadd_zero_r (s : spec_float) :
  regular prec emax s -> SFadd prec emax s (S754_zero false) = s.
Proof.
  intros [Hs _]. destruct s as [[]|[]| |ss ms es]; simpl; congruence.
Qed.

Lemma valid_binary_lowbounded (x : spec_float) :
  valid_binary prec emax x = true -> lowbounded prec emax x.
Proof.
  destruct x as [| | |s m e]; simpl; try done.
  unfold bounded, canonical_mantissa. intros Hb.
  apply andb_true_iff in Hb as [Hc _]. apply Z.eqb_eq in Hc.
  rewrite <- Hc. apply fexp_emin.
Qed.
End NoNegativeZero.

(** In binary64 the running sum of a row, which starts from [0.0], is
    never [-0.0]: adding the values that pass the guard [val != 0] gives the
    sum of the stored entries.  The kernel values of the row must be
    binary64 numbers ([valid_binary]); every double is one. *)
Lemma binary64_kept_sum `{Environment spec_float} fn p1
    (pts : list (DataPoint spec_float)) :
  (forall p2, p2 ∈ pts ->
              valid_binary prec64 emax64 (entry fn p1 p2) = true) ->
  forall s, regular prec64 emax64 s ->
    kept_sum fn p1 pts s
    = fold_left dadd (map (fun p2 => stored (entry fn p1 p2)) pts) s.
Proof.
  unfold kept_sum.
  induction pts as [|p2 pts IH]; intros Hvalid s Hs; cbn [fold_left map];
    [done|].
  assert (forall q, q ∈ pts ->
                    valid_binary prec64 emax64 (entry fn p1 q) = true)
    as Hrest by (intros q Hq; apply Hvalid; by constructor).
  change (stored (entry fn p1 p2))
    with (if dneb (entry fn p1 p2) d0 then entry fn p1 p2 else d0).
  destruct (dneb (entry fn p1 p2) d0).
  - apply (IH Hrest). apply SFadd_regular; [done | done |].
    apply valid_binary_lowbounded, Hvalid. constructor.
  - change (dadd s d0) with (SFadd prec64 emax64 s (S754_zero false)).
    rewrite SFadd_zero_r by done. by apply (IH Hrest).
Qed.

Lemma binary64_linear_system `{Environment spec_float}
    (t : DataTable spec_float) (ty : RBFType) (nz : bool) :
  table_wf t ->
  (forall pi pj, pi ∈ points t -> pj ∈ points t ->
     valid_binary prec64 emax64
       (RBF_eval (select_kernel ty) (euclid (getX pi) (getX pj))) = true) ->
  let n := getNumSamples t in
  exists A b,
    assemble (select_kernel ty) nz (points t) (mconst n n d0) (vconst n d0)
    = Ok (A, b)
    /\ rows A = n /\ cols A = n
    /\ (forall i j pi pj,
          points t !! i = Some pi -> points t !! j = Some pj ->
          let val := RBF_eval (select_kernel ty) (euclid (getX pi) (getX pj)) in
          mcoeff d0 A i j = val
          \/ (val = S754_zero true /\ mcoeff d0 A i j = S754_zero false))
    /\ (forall i pi,
          points t !! i = Some pi ->
          b !! i = Some (if nz then dmul (row_sum A i) (getY pi) else getY pi)).
Proof.
  intros Hwf Hvalid n.
  destruct (assemble_system (select_kernel ty) nz t Hwf)
    as (A & b & Hasm & Hr & Hc & _ & HA & Hb).
  exists A, b. split; [done|]. split; [done|]. split; [done|]. split.
  - intros i j pi pj Hpi Hpj val. rewrite (HA i j pi pj Hpi Hpj).
    apply binary64_stored.
  - intros i pi Hpi. rewrite Hb, list_lookup_fmap, Hpi. simpl. f_equal.
    unfold rhs. destruct nz; [|done]. f_equal.
    rewrite binary64_kept_sum; [| |split; [discriminate | exact I]].
    + unfold row_sum, big_sum. f_equal. symmetry.
      apply row_of_matrix; [by rewrite Hc | eauto].
    + intros p2 Hp2. apply Hvalid; [|done].
      by apply list_elem_of_lookup_2 with i.
Qed.

(** C2. In binary64, for every sample table of [n ≥ 1] samples and every
    kernel variant whose values on the distances of the table are binary64
    numbers, the linear system the constructor assembles is this.  For
    every ordered pair [(i, j)], [A(i,j)] is
    [kernel.eval(distance(xᵢ, xⱼ))], the same double, except that where the
    kernel returns [-0.0] the entry is [0.0] (the two compare equal): the
    guard [val != 0] leaves the zero the matrix was filled with.  And
    [b(i) = sᵢ·yᵢ] when normalized and [b(i) = yᵢ] otherwise, where [sᵢ] is
    the sum of row [i] of [A] added in column order: skipping the zero
    kernel values changes nothing else in [A] and nothing in [b].  This
    system is the one whose solution the constructor stores as weights
    (Eigen returns [n] singular values of [A]). *)
Theorem linear_system_entries `{Environment spec_float}
    (t : DataTable spec_float) (ty : RBFType) (nz : bool) :
  table_wf t -> (1 <= getNumSamples t)%nat ->
  (forall pi pj, pi ∈ points t -> pj ∈ points t ->
     valid_binary prec64 emax64
       (RBF_eval (select_kernel ty) (euclid (getX pi) (getX pj))) = true) ->
  let n := getNumSamples t in
  exists A b,
    assemble (select_kernel ty) nz (points t) (mconst n n d0) (vconst n d0)
    = Ok (A, b)
    /\ (length (svd_singularValues A) = n ->
        exists trained,
          RBFNetwork_new t ty nz = Ok trained
          /\ coefficients trained.1 = svd_solve A b)
    /\ rows A = n /\ cols A = n
    /\ (forall i j pi pj,
          points t !! i = Some pi -> points t !! j = Some pj ->
          let val := RBF_eval (select_kernel ty) (euclid (getX pi) (getX pj)) in
          mcoeff d0 A i j = val
          \/ (val = S754_zero true /\ mcoeff d0 A i j = S754_zero false))
    /\ (forall i pi,
          points t !! i = Some pi ->
          b !! i = Some (if nz then dmul (row_sum A i) (getY pi) else getY pi)).
Proof.
  intros Hwf Hn Hvalid n.
  destruct (binary64_linear_system t ty nz Hwf Hvalid)
    as (A & b & Hasm & Hr & Hc & HA & Hb).
  destruct (RBFNetwork_new_trained t ty nz Hwf)
    as (A' & b' & Hasm' & Hnew & _).
  cbv zeta in Hasm, Hasm'. rewrite Hasm in Hasm'. injection Hasm' as <- <-.
  exists A, b. split; [exact Hasm|].
  split; [|by repeat split].
  intros Hlen.
  destruct (first_and_last (svd_singularValues A))
    as (smax & smin & Hmax & Hmin).
  { intros Hnil. rewrite Hnil in Hlen. cbn in Hlen. subst n. lia. }
  eexists. split; [exact (Hnew smax smin Hmax Hmin) | done].
Qed.

(** ** Training: the conditioning report and the choice of the kernel *)

Section Training.
Context {D : Type} `{Double D} `{Environment D}.
Local Open Scope double_scope.

(** C9. During training, on a table of [n ≥ 1] samples for which Eigen
    returns the [n] singular values of [A], the reciprocal condition number
    is computed from the first and the last of them: it is 0 when the
    largest or the smallest singular value is [≤ 0], and
    [svalmin / svalmax] otherwise.  Whatever the singular values are, the
    constructor returns the network with the weights [svd.solve(b)]:
    training does not abort on a low value. *)
Theorem rcondnum_is_diagnostic (t : DataTable D) (ty : RBFType) (nz : bool) :
  table_wf t -> (1 <= getNumSamples t)%nat ->
  let n := getNumSamples t in
  exists A b,
    assemble (select_kernel ty) nz (points t) (mconst n n d0) (vconst n d0)
    = Ok (A, b)
    /\ (length (svd_singularValues A) = n ->
        exists m diag,
          RBFNetwork_new t ty nz = Ok (m, diag)
          /\ coefficients m = svd_solve A b
          /\ svd_singularValues A !! 0%nat = Some (svalmax diag)
          /\ svd_singularValues A !! (n - 1)%nat = Some (svalmin diag)
          /\ (dleb (svalmax diag) d0 = true \/ dleb (svalmin diag) d0 = true ->
              rcondnum diag = d0)
          /\ (dleb (svalmax diag) d0 = false ->
              dleb (svalmin diag) d0 = false ->
              rcondnum diag = svalmin diag / svalmax diag)).
Proof.
  intros Hwf Hn n.
  destruct (RBFNetwork_new_trained t ty nz Hwf)
    as (A & b & Hasm & Hnew & _).
  exists A, b. split; [exact Hasm|]. intros Hlen.
  destruct (first_and_last (svd_singularValues A))
    as (smax & smin & Hmax & Hmin).
  { intros Hnil. rewrite Hnil in Hlen. cbn in Hlen. subst n. lia. }
  do 2 eexists. split; [exact (Hnew smax smin Hmax Hmin)|].
  cbn [coefficients svalmax svalmin rcondnum].
  split; [done|]. split; [done|]. split; [by rewrite <- Hlen|].
  unfold rcond_of. split.
  - intros [-> | ->]; [done | by rewrite orb_true_r].
  - by intros -> ->.
Qed.

Lemma select_kernel_unrecognized (z : Z) :
  select_kernel (UNRECOGNIZED z) = ThinPlateSpline.
Proof. done. Qed.

End Training.

(** ** Dimension checks *)

Section Dimensions.
Context {D : Type} `{Double D} `{Environment D}.
Local Open Scope double_scope.

(** [eval] checks the length of [x] first. *)
Lemma eval_dimension_mismatch (m : RBFNetwork D) (x : DenseVector D) :
  length x <> numVariables m -> eval m x = Throw (Exception msg_eval).
Proof.
  intros Hx. unfold eval. by rewrite (proj2 (Nat.eqb_neq _ _) Hx).
Qed.

Lemma evalBasis_dimension_mismatch (m : RBFNetwork D) (x : DenseVector D) :
  length x <> numVariables m ->
  evalBasis m x = Throw (Exception msg_evalBasis).
Proof.
  intros Hx. unfold evalBasis. by rewrite (proj2 (Nat.eqb_neq _ _) Hx).
Qed.

Lemma for_range_total {St} (body : nat -> St -> result St) :
  (forall i s, exists s', body i s = Ok s') ->
  forall n i s, exists s', for_range body i n s = Ok s'.
Proof.
  intros Hbody n; induction n as [|n IH]; intros i s; cbn [for_range].
  - by eexists.
  - destruct (Hbody i s) as [s' ->]. rewrite bind_Ok. apply IH.
Qed.

(** [evalJacobian] has no check of its own.  With at least one sample and
    one input dimension the first call of [dist] throws. *)
Lemma evalJacobian_dimension_mismatch (m : RBFNetwork D) (x : DenseVector D) :
  network_wf m -> points (samples m) <> [] -> numVariables m <> 0%nat ->
  length x <> numVariables m ->
  evalJacobian m x = Throw (Exception msg_dist).
Proof.
  intros [Hdim _] Hpts Hvars Hx. unfold evalJacobian, jacobian_sums.
  destruct (numVariables m) as [|n] eqn:Hn; [done|].
  destruct (points (samples m)) as [|p pts]; [done|].
  apply Forall_cons in Hdim as [Hp _].
  cbn [for_range for_each].
  rewrite dist_mismatch by (rewrite Hp; done). done.
Qed.

(** Without samples the loop over the samples is empty and nothing throws,
    whatever the length of [x]. *)
Lemma evalJacobian_no_samples (m : RBFNetwork D) (x : DenseVector D) :
  points (samples m) = [] ->
  exists jac, evalJacobian m x = Ok jac.
Proof.
  intros Hpts. unfold evalJacobian, jacobian_sums. rewrite Hpts.
  cbn [for_each]. apply for_range_total. intros i jac.
  rewrite bind_Ok. destruct (normalized m); by eexists.
Qed.

(** With [x] of the right length nothing throws in [evalJacobian]. *)
Lemma evalJacobian_returns (m : RBFNetwork D) (x : DenseVector D) :
  network_wf m -> length x = numVariables m ->
  exists jac, evalJacobian m x = Ok jac.
Proof.
  intros Hwf Hx. unfold evalJacobian. cbv zeta.
  erewrite for_range_ext; cycle 1.
  { intros i jac Hi. rewrite (jacobian_sums_spec m x i Hwf Hx) by lia.
    rewrite bind_Ok.
    instantiate (1 := fun i jac => Ok (mset jac 0 i (spec_jacobian m x i))).
    unfold spec_jacobian. by destruct (normalized m). }
  apply for_range_total. intros i jac. by eexists.
Qed.

(** On a trained network, [eval] raises DimensionMismatch exactly on the
    vectors of the wrong length. *)
Lemma eval_raises (m : RBFNetwork D) (x : DenseVector D) :
  network_wf m ->
  raises (eval m x) DimensionMismatch = negb (length x =? numVariables m)%nat.
Proof.
  intros Hwf. destruct (Nat.eqb_spec (length x) (numVariables m)) as [Hx|Hx].
  - by rewrite (eval_value m x Hwf Hx).
  - by rewrite (eval_dimension_mismatch m x Hx).
Qed.

(** So does [evalJacobian], provided the network has a sample and an input
    dimension. *)
Lemma evalJacobian_raises (m : RBFNetwork D) (x : DenseVector D) :
  network_wf m -> points (samples m) <> [] -> numVariables m <> 0%nat ->
  raises (evalJacobian m x) DimensionMismatch
  = negb (length x =? numVariables m)%nat.
Proof.
  intros Hwf Hpts Hvars.
  destruct (Nat.eqb_spec (length x) (numVariables m)) as [Hx|Hx].
  - by destruct (evalJacobian_returns m x Hwf Hx) as [jac ->].
  - by rewrite (evalJacobian_dimension_mismatch m x Hwf Hpts Hvars Hx).
Qed.

(** Without input dimensions the loop over the dimensions is empty. *)
Lemma evalJacobian_no_variables (m : RBFNetwork D) (x : DenseVector D) :
  numVariables m = 0%nat -> evalJacobian m x = Ok (mconst 1 0 d0).
Proof. intros Hn. unfold evalJacobian. by rewrite Hn. Qed.
End Dimensions.

(** ** The serializer *)

Module SerializerFacts.
Import Serializer.
Local Open Scope N_scope.

(** *** Bytes of an object *)

Lemma byte_of_N_value (n : N) : Byte.to_N (byte_of_N n) = n mod 256.
Proof.
  unfold byte_of_N.
  destruct (Byte.of_N (n mod 256)) as [b|] eqn:Hb.
  - by apply Byte.to_of_N.
  - apply Byte.of_N_None_iff in Hb.
    pose proof (N.mod_upper_bound n 256). lia.
Qed.

Lemma object_bytes_length (n : nat) : forall v, length (object_bytes n v) = n.
Proof. induction n as [|n IH]; intros v; simpl; [done|]. by rewrite IH. Qed.

Lemma object_value_bytes (n : nat) :
  forall v, object_value (object_bytes n v) = v mod 256 ^ N.of_nat n.
Proof.
  induction n as [|n IH]; intros v.
  - simpl. by rewrite N.mod_1_r.
  - cbn [object_bytes object_value].
    rewrite byte_of_N_value, IH.
    rewrite Nat2N.inj_succ, N.pow_succ_r'.
    by rewrite N.Div0.mod_mul_r.
Qed.

Lemma object_value_bits64 (v : N) :
  is_bits64 v -> object_value (object_bytes 8 v) = v.
Proof.
  intros Hv. rewrite object_value_bytes.
  apply N.mod_small. exact Hv.
Qed.

(** *** Reading what was written *)

Lemma deserialize_bytes (v : N) (rest : list byte) (s : Serializer) :
  is_bits64 v ->
  remaining s = object_bytes 8 v ++ rest ->
  exists s',
    deserialize 8 s = Ok (v, s')
    /\ remaining s' = rest /\ stream s' = stream s
    /\ read s' = (read s + 8)%nat.
Proof.
  unfold remaining. intros Hv Hrem.
  assert (read s + 8 <= length (stream s))%nat as Hlen.
  { apply (f_equal length) in Hrem.
    rewrite length_drop, length_app, object_bytes_length in Hrem. lia. }
  unfold deserialize.
  rewrite (proj2 (Nat.ltb_ge _ _) Hlen).
  exists {| stream := stream s; read := (read s + 8)%nat |}.
  split; [|split; [|split]]; cbn [stream read]; try done.
  - rewrite Hrem.
    rewrite take_app_length' by (by rewrite object_bytes_length).
    by rewrite object_value_bits64.
  - rewrite <- drop_drop, Hrem.
    by rewrite drop_app_length' by (by rewrite object_bytes_length).
Qed.

(** *** What [_serialize] appends *)

Lemma serialize_fold {A} (f : A -> N) (l : list A) :
  forall s,
    fold_left (fun s a => _serialize sizeof_double (f a) s) l s
    = {| stream := stream s ++ flat_map (fun a => object_bytes 8 (f a)) l;
         read := read s |}.
Proof.
  induction l as [|a l IH]; intros s; cbn [fold_left flat_map].
  - rewrite app_nil_r. by destruct s.
  - rewrite IH. unfold _serialize. cbn [stream read].
    by rewrite <- app_assoc.
Qed.

Lemma serialize_rows (obj : DenseMatrix bits64) (l : list nat) :
  forall s,
    fold_left (fun s i =>
        fold_left (fun s j => _serialize sizeof_double (mcoeff 0 obj i j) s)
                  (seq 0 (cols obj)) s) l s
    = {| stream :=
           stream s
           ++ flat_map (fun i =>
                flat_map (fun j => object_bytes 8 (mcoeff 0 obj i j))
                         (seq 0 (cols obj))) l;
         read := read s |}.
Proof.
  induction l as [|i l IH]; intros s; cbn [fold_left flat_map].
  - rewrite app_nil_r. by destruct s.
  - rewrite IH, serialize_fold. cbn [stream read].
    by rewrite <- app_assoc.
Qed.

Lemma serialize_stream (obj : DenseMatrix bits64) (s : Serializer) :
  _serialize_DenseMatrix obj s
  = {| stream :=
         stream s ++ object_bytes 8 (N.of_nat (rows obj))
         ++ object_bytes 8 (N.of_nat (cols obj)) ++ payload obj;
       read := read s |}.
Proof.
  unfold _serialize_DenseMatrix. cbv zeta.
  rewrite serialize_rows. unfold _serialize, payload. cbn [stream read].
  by rewrite <- !app_assoc.
Qed.

Lemma flat_map_length_const {A B} (f : A -> list B) (n : nat) (l : list A) :
  (forall a, length (f a) = n) ->
  length (flat_map f l) = (length l * n)%nat.
Proof.
  intros Hf. induction l as [|a l IH]; simpl; [done|].
  rewrite length_app, Hf, IH. lia.
Qed.

Lemma payload_length (obj : DenseMatrix bits64) :
  length (payload obj) = (rows obj * cols obj * 8)%nat.
Proof.
  unfold payload.
  rewrite (flat_map_length_const _ (cols obj * 8)).
  - rewrite length_seq. lia.
  - intros i. rewrite (flat_map_length_const _ 8).
    + by rewrite length_seq.
    + intros j. apply object_bytes_length.
Qed.
(** *** Reading the elements back *)

Lemma deserialize_row (src : nat -> N) (i k : nat) :
  (forall j, is_bits64 (src j)) ->
  forall j0 obj s rest,
    remaining s
    = flat_map (fun j => object_bytes 8 (src j)) (seq j0 k) ++ rest ->
    exists s',
      for_range (fun j '(obj, s) =>
          '(v, s) ← deserialize sizeof_double s;
          Ok (mset obj i j v, s))
        j0 k (obj, s)
      = Ok (fold_left (fun o j => mset o i j (src j)) (seq j0 k) obj, s')
      /\ remaining s' = rest /\ stream s' = stream s
      /\ read s' = (read s + 8 * k)%nat.
Proof.
  intros Hsrc. induction k as [|k IH]; intros j0 obj s rest Hrem.
  - exists s. cbn [seq flat_map app] in Hrem.
    split; [done | split; [done | split; [done | lia]]].
  - cbn [seq flat_map] in Hrem. rewrite <- app_assoc in Hrem.
    destruct (deserialize_bytes _ _ s (Hsrc j0) Hrem)
      as (s1 & Hget & Hrem1 & Hstream1 & Hread1).
    destruct (IH (S j0) (mset obj i j0 (src j0)) s1 rest Hrem1)
      as (s' & Hloop & Hrem' & Hstream' & Hread').
    exists s'. split; [|split; [done | split; [congruence | lia]]].
    cbn [for_range seq fold_left].
    change sizeof_double with 8%nat. rewrite Hget.
    rewrite !bind_Ok. exact Hloop.
Qed.

Lemma deserialize_rows (src : nat -> nat -> N) (c k : nat) :
  (forall i j, is_bits64 (src i j)) ->
  forall i0 obj s rest,
    remaining s
    = flat_map (fun i =>
          flat_map (fun j => object_bytes 8 (src i j)) (seq 0 c))
        (seq i0 k) ++ rest ->
    exists s',
      for_range (fun i '(obj, s) =>
          for_range (fun j '(obj, s) =>
              '(v, s) ← deserialize sizeof_double s;
              Ok (mset obj i j v, s))
            0 c (obj, s))
        i0 k (obj, s)
      = Ok (fold_left (fun o i =>
                fold_left (fun o j => mset o i j (src i j)) (seq 0 c) o)
              (seq i0 k) obj, s')
      /\ remaining s' = rest /\ stream s' = stream s
      /\ read s' = (read s + 8 * (k * c))%nat.
Proof.
  intros Hsrc. induction k as [|k IH]; intros i0 obj s rest Hrem.
  - exists s. cbn [seq flat_map app] in Hrem.
    split; [done | split; [done | split; [done | lia]]].
  - cbn [seq flat_map] in Hrem. rewrite <- app_assoc in Hrem.
    destruct (deserialize_row (src i0) i0 c (Hsrc i0) 0 obj s _ Hrem)
      as (s1 & Hrow & Hrem1 & Hstream1 & Hread1).
    destruct (IH (S i0)
                (fold_left (fun o j => mset o i0 j (src i0 j)) (seq 0 c) obj)
                s1 rest Hrem1) as (s' & Hloop & Hrem' & Hstream' & Hread').
    exists s'. split; [|split; [done | split; [congruence | lia]]].
    cbn [for_range seq fold_left]. rewrite Hrow, bind_Ok. exact Hloop.
Qed.

(** *** The copy the two loops perform

    Every assignment [obj(i, j) = m(i, j)] stores at the position [k] of
    the coefficient array the value [m] has at position [k]. *)

Lemma put_all_length m (ks : list nat) :
  forall l, length (fold_left (put m) ks l) = length l.
Proof.
  induction ks as [|k ks IH]; intros l; cbn [fold_left]; [done|].
  rewrite IH. apply length_insert.
Qed.

Lemma put_all_lookup m (ks : list nat) :
  forall l k,
    l !! k = Some (nth k (coeffs m) 0) \/ In k ks ->
    (k < length l)%nat ->
    fold_left (put m) ks l !! k = Some (nth k (coeffs m) 0).
Proof.
  induction ks as [|k0 ks IH]; intros l k Hk Hlt; cbn [fold_left].
  - by destruct Hk.
  - apply IH; [| unfold put; by rewrite length_insert].
    destruct (decide (k = k0)) as [->|Hne].
    + left. unfold put. by apply list_lookup_insert_eq.
    + destruct Hk as [Hk | [-> | Hk]]; [left | done | by right].
      unfold put. by rewrite list_lookup_insert_ne.
Qed.

Lemma copy_row (m : DenseMatrix bits64) (i : nat) (js : list nat) :
  forall o,
    rows o = rows m ->
    let o' := fold_left (fun o j => mset o i j (mcoeff 0 m i j)) js o in
    rows o' = rows m /\ cols o' = cols o
    /\ coeffs o'
       = fold_left (put m) (map (fun j => i + j * rows m)%nat js) (coeffs o).
Proof.
  induction js as [|j js IH]; intros o Hr; cbn [fold_left map]; [done|].
  destruct (IH (mset o i j (mcoeff 0 m i j)) Hr) as (Hr' & Hc' & Hco').
  cbv zeta. rewrite Hr', Hc', Hco'. cbn [mset rows cols coeffs].
  unfold mindex, mcoeff, put. by rewrite Hr.
Qed.

Lemma copy_rows (m : DenseMatrix bits64) (c : nat) (rs : list nat) :
  forall o,
    rows o = rows m ->
    let o' := fold_left (fun o i =>
                fold_left (fun o j => mset o i j (mcoeff 0 m i j))
                          (seq 0 c) o) rs o in
    rows o' = rows m /\ cols o' = cols o
    /\ coeffs o'
       = fold_left (put m)
           (flat_map (fun i => map (fun j => i + j * rows m)%nat (seq 0 c)) rs)
           (coeffs o).
Proof.
  induction rs as [|i rs IH]; intros o Hr; cbn [fold_left flat_map]; [done|].
  destruct (copy_row m i (seq 0 c) o Hr) as (Hr1 & Hc1 & Hco1).
  destruct (IH _ Hr1) as (Hr' & Hc' & Hco').
  cbv zeta in *. rewrite Hr', Hc', Hco', Hc1, Hco1.
  by rewrite fold_left_app.
Qed.

Lemma index_covered (r c k : nat) :
  (k < r * c)%nat ->
  In k (flat_map (fun i => map (fun j => i + j * r)%nat (seq 0 c)) (seq 0 r)).
Proof.
  intros Hk. assert (r <> 0)%nat as Hr by lia.
  apply in_flat_map. exists (k mod r)%nat. split.
  - apply in_seq. pose proof (Nat.mod_upper_bound k r Hr). lia.
  - apply in_map_iff. exists (k / r)%nat. split.
    + pose proof (Nat.div_mod_eq k r). lia.
    + apply in_seq. split; [lia|]. cbn.
      apply Nat.Div0.div_lt_upper_bound. lia.
Qed.

(** After [resize] and the two loops, [obj] is [m]. *)
Lemma copy_all (m : DenseMatrix bits64) (junk : bits64) :
  mwf m ->
  fold_left (fun o i =>
      fold_left (fun o j => mset o i j (mcoeff 0 m i j))
                (seq 0 (cols m)) o)
    (seq 0 (rows m)) (mconst (rows m) (cols m) junk)
  = m.
Proof.
  intros Hwf.
  destruct (copy_rows m (cols m) (seq 0 (rows m))
              (mconst (rows m) (cols m) junk) eq_refl) as (Hr & Hc & Hco).
  cbv zeta in *.
  destruct (fold_left _ (seq 0 (rows m)) _) as [r' c' l'].
  destruct m as [r c l]. cbn [rows cols coeffs mconst] in *.
  unfold mwf in Hwf. cbn [rows cols coeffs] in Hwf.
  subst r' c'. f_equal. subst l'.
  apply list_eq. intros k.
  destruct (decide (k < r * c)%nat) as [Hk|Hk].
  - rewrite put_all_lookup.
    + destruct (lookup_lt_is_Some_2 l k) as [x Hx]; [lia|].
      cbn [coeffs]. rewrite Hx. f_equal. by apply nth_lookup_Some.
    + right. by apply index_covered.
    + by rewrite length_replicate.
  - rewrite lookup_ge_None_2
      by (rewrite put_all_length, length_replicate; lia).
    symmetry. apply lookup_ge_None_2. lia.
Qed.
Lemma mcoeff_bits64 (m : DenseMatrix bits64) (i j : nat) :
  Forall is_bits64 (coeffs m) -> is_bits64 (mcoeff 0 m i j).
Proof.
  intros Hm. unfold mcoeff.
  destruct (nth_in_or_default (mindex m i j) (coeffs m) 0) as [Hin | ->].
  - rewrite Forall_forall in Hm. apply Hm. by apply list_elem_of_In.
  - done.
Qed.

(** *** The size *)

Lemma get_size_value (obj : DenseMatrix bits64) :
  16 + 8 * (N.of_nat (rows obj) * N.of_nat (cols obj)) < 2 ^ 64 ->
  get_size_DenseMatrix obj
  = 2 * N.of_nat sizeof_size_t
    + N.of_nat (rows obj) * N.of_nat (cols obj) * N.of_nat sizeof_double.
Proof.
  intros Hfit. unfold get_size_DenseMatrix, to_size_t.
  change (N.of_nat sizeof_size_t) with 8.
  change (N.of_nat sizeof_double) with 8.
  set (e := N.of_nat (rows obj) * N.of_nat (cols obj)) in *.
  cbv zeta.
  rewrite (N.mod_small (8 + 8)) by done.
  rewrite (N.mod_small e) by lia.
  rewrite (N.mod_small (e * 8)) by lia.
  destruct (N.ltb_spec 0 e) as [He|He].
  - rewrite N.mod_small by lia. lia.
  - lia.
Qed.

(** C5. For every dense matrix of doubles (in particular every 5×3 one),
    serializing it and then deserializing yields a matrix with the same
    dimensions whose elements are bitwise equal to the originals, and the
    serialized byte length equals
    [2·sizeof(size) + rows·cols·sizeof(double)]
    ([= 2·8 + 15·8 = 136] for the 5×3 case). *)
Theorem DenseMatrix_roundtrip (m : DenseMatrix bits64) (junk : bits64) :
  mwf m -> Forall is_bits64 (coeffs m) ->
  N.of_nat (rows m) < 2 ^ 63 -> N.of_nat (cols m) < 2 ^ 63 ->
  16 + 8 * (N.of_nat (rows m) * N.of_nat (cols m)) < 2 ^ 64 ->
  let s := serialize_DenseMatrix m in
  N.of_nat (length (stream s)) = get_size_DenseMatrix m
  /\ get_size_DenseMatrix m
     = 2 * N.of_nat sizeof_size_t
       + N.of_nat (rows m) * N.of_nat (cols m) * N.of_nat sizeof_double
  /\ (rows m = 5%nat -> cols m = 3%nat -> length (stream s) = 136%nat)
  /\ exists s',
       deserialize_DenseMatrix junk s = Ok (m, s')
       /\ stream s' = stream s /\ read s' = length (stream s).
Proof.
  intros Hwf Hbits Hrows Hcols Hfit s.
  assert (length (stream s) = (16 + rows m * cols m * 8)%nat) as Hlen.
  { subst s. unfold serialize_DenseMatrix. rewrite serialize_stream.
    cbn [stream Serializer_new app].
    rewrite !length_app, !object_bytes_length, payload_length. lia. }
  split; [|split; [|split]].
  - rewrite (get_size_value m Hfit), Hlen.
    change (N.of_nat sizeof_size_t) with 8.
    change (N.of_nat sizeof_double) with 8. lia.
  - apply (get_size_value m Hfit).
  - intros Hr Hc. rewrite Hlen, Hr, Hc. done.
  - assert (remaining s
            = object_bytes 8 (N.of_nat (rows m))
              ++ object_bytes 8 (N.of_nat (cols m)) ++ payload m ++ [])
      as Hrem.
    { subst s. unfold serialize_DenseMatrix, remaining.
      rewrite serialize_stream. cbn [stream read Serializer_new app drop].
      by rewrite app_nil_r. }
    assert (is_bits64 (N.of_nat (rows m))) as Hr by (unfold is_bits64; lia).
    assert (is_bits64 (N.of_nat (cols m))) as Hc by (unfold is_bits64; lia).
    destruct (deserialize_bytes _ _ s Hr Hrem)
      as (s1 & Hget1 & Hrem1 & Hstream1 & Hread1).
    destruct (deserialize_bytes _ _ s1 Hc Hrem1)
      as (s2 & Hget2 & Hrem2 & Hstream2 & Hread2).
    destruct (deserialize_rows (fun i j => mcoeff 0 m i j) (cols m) (rows m)
                (fun i j => mcoeff_bits64 m i j Hbits) 0
                (mconst (rows m) (cols m) junk) s2 [] Hrem2)
      as (s' & Hloop & Hrem' & Hstream' & Hread').
    exists s'. split; [|split].
    + unfold deserialize_DenseMatrix.
      change sizeof_size_t with 8%nat.
      rewrite Hget1, bind_Ok. cbv beta iota.
      rewrite Hget2, bind_Ok. cbv beta iota zeta.
      rewrite !Nat2N.id, Hloop. by rewrite (copy_all m junk Hwf).
    + congruence.
    + rewrite Hread', Hread2, Hread1, Hlen.
      subst s. unfold serialize_DenseMatrix. rewrite serialize_stream.
      cbn [read Serializer_new]. lia.
Qed.
End SerializerFacts.


(** * The results on concrete inputs *)

Section Concrete.
#[local] Existing Instance Demo.env64.
#[local] Existing Instance Demo.envR.

Lemma table64_wf : table_wf Demo.table64.
Proof. repeat constructor. Qed.

Lemma net64_wf (nz : bool) : network_wf (Demo.net64 nz).
Proof. split; [repeat constructor | reflexivity]. Qed.

Lemma tableR_wf : table_wf Demo.tableR.
Proof. repeat constructor. Qed.

Lemma netR_wf : network_wf Demo.netR.
Proof. split; [repeat constructor | reflexivity]. Qed.

Lemma exact_sum_positive (l : list R) :
  Forall (fun v => (0 < v)%R) l -> l <> [] ->
  forall a, (0 <= a)%R -> (0 < fold_left Rplus l a)%R.
Proof.
  induction l as [|v l IH]; intros Hpos Hne a Ha; [done|].
  apply Forall_cons in Hpos as [Hv Hpos]. cbn [fold_left].
  destruct l as [|w l]; [cbn; lra|].
  apply IH; [done | done | lra].
Qed.

Lemma netR_sum_nonzero (x : list R) : spec_sum Demo.netR x <> 0%R.
Proof.
  apply Rgt_not_eq, Rlt_gt. unfold spec_sum, big_sum.
  apply exact_sum_positive; [| done | simpl; lra].
  repeat constructor; apply exp_pos.
Qed.

(** C1 (what the code does). [eval] rejects a vector of the wrong length;
    [evalJacobian] returns a Jacobian for it when the network has no input
    dimension (here the network the constructor builds from a table of
    samples without inputs) or no sample. *)
Theorem evalJacobian_skips_dimension_check :
  (fst <$> RBFNetwork_new (samples Demo.net64_no_variables) GAUSSIAN false
   = Ok Demo.net64_no_variables
   /\ length [Demo.one] <> numVariables Demo.net64_no_variables
   /\ network_wf Demo.net64_no_variables
   /\ raises (eval Demo.net64_no_variables [Demo.one]) DimensionMismatch
      = true
   /\ evalJacobian Demo.net64_no_variables [Demo.one]
      = Ok {| rows := 1; cols := 0; coeffs := [] |})
  /\ (length [Demo.one] <> numVariables Demo.net64_no_samples
      /\ network_wf Demo.net64_no_samples
      /\ raises (eval Demo.net64_no_samples [Demo.one]) DimensionMismatch
         = true
      /\ evalJacobian Demo.net64_no_samples [Demo.one]
         = Ok {| rows := 1; cols := 2; coeffs := [d0; d0] |}).
Proof.
  split.
  - split; [reflexivity|]. split; [discriminate|].
    split; [split; [repeat constructor | reflexivity]|].
    split; reflexivity.
  - split; [discriminate|].
    split; [split; [repeat constructor | reflexivity]|].
    split; reflexivity.
Qed.

Lemma eval_weighted_sum_witness :
  eval (Demo.net64 true) [Demo.three]
  = Ok (ddiv (spec_sumw (Demo.net64 true) [Demo.three])
             (spec_sum (Demo.net64 true) [Demo.three])).
Proof.
  exact (eval_weighted_sum (Demo.net64 true) [Demo.three]
           (net64_wf true) eq_refl).
Defined.

Lemma evalJacobian_chain_rule_witness :
  evalJacobian (Demo.net64 true) [Demo.half]
  = Ok {| rows := 1; cols := 1;
          coeffs :=
            map (fun i =>
                   ddiv
                     (dsub
                        (dmul (spec_sum (Demo.net64 true) [Demo.half])
                              (spec_sumw_d (Demo.net64 true) [Demo.half] i))
                        (dmul (spec_sum_d (Demo.net64 true) [Demo.half] i)
                              (spec_sumw (Demo.net64 true) [Demo.half])))
                     (dmul (spec_sum (Demo.net64 true) [Demo.half])
                           (spec_sum (Demo.net64 true) [Demo.half])))
                (seq 0 1) |}.
Proof.
  exact (evalJacobian_chain_rule (Demo.net64 true) [Demo.half]
           (net64_wf true) eq_refl).
Defined.





Lemma training_matrix_symmetric_witness :
  exists A b,
    assemble (select_kernel MULTIQUADRIC) false (points Demo.table64)
             (mconst 3 3 d0) (vconst 3 d0) = Ok (A, b)
    /\ rows A = 3%nat /\ cols A = 3%nat
    /\ forall i j, (i < 3)%nat -> (j < 3)%nat ->
                   mcoeff d0 A i j = mcoeff d0 A j i.
Proof.
  refine (training_matrix_symmetric Demo.table64 MULTIQUADRIC false
            table64_wf _).
  cbn. lia.
Defined.

Lemma DenseMatrix_roundtrip_witness :
  let s := Serializer.serialize_DenseMatrix Demo.matrix5x3 in
  N.of_nat (length (Serializer.stream s))
  = Serializer.get_size_DenseMatrix Demo.matrix5x3
  /\ Serializer.get_size_DenseMatrix Demo.matrix5x3
     = (2 * N.of_nat Serializer.sizeof_size_t
        + N.of_nat 5 * N.of_nat 3 * N.of_nat Serializer.sizeof_double)%N
  /\ (5%nat = 5%nat -> 3%nat = 3%nat ->
      length (Serializer.stream s) = 136%nat)
  /\ exists s',
       Serializer.deserialize_DenseMatrix 0%N s = Ok (Demo.matrix5x3, s')
       /\ Serializer.stream s' = Serializer.stream s
       /\ Serializer.read s' = length (Serializer.stream s).
Proof.
  refine (SerializerFacts.DenseMatrix_roundtrip Demo.matrix5x3 0%N
            eq_refl _ eq_refl eq_refl eq_refl).
  repeat constructor.
Defined.
End Concrete.

(** * Further properties *)

(** ** The serializer: objects at any position of the stream *)

Module SerializerMore.
Import Serializer SerializerRest SerializerFacts.
Local Open Scope N_scope.

Lemma matrix_bytes_length (m : DenseMatrix bits64) :
  length (matrix_bytes m) = (16 + rows m * cols m * 8)%nat.
Proof.
  unfold matrix_bytes.
  rewrite !length_app, !object_bytes_length, payload_length. lia.
Qed.

Lemma serialize_matrix_bytes (m : DenseMatrix bits64) (s : Serializer) :
  _serialize_DenseMatrix m s
  = {| stream := stream s ++ matrix_bytes m; read := read s |}.
Proof. rewrite serialize_stream. reflexivity. Qed.

(** Reading a matrix where its bytes begin. *)
Lemma deserialize_matrix_at (m : DenseMatrix bits64) (junk : bits64)
    (s : Serializer) (rest : list byte) :
  matrix_ok m -> remaining s = matrix_bytes m ++ rest ->
  exists s',
    deserialize_DenseMatrix junk s = Ok (m, s')
    /\ remaining s' = rest /\ stream s' = stream s
    /\ read s' = (read s + length (matrix_bytes m))%nat.
Proof.
  intros (Hwf & Hbits & Hrows & Hcols & Hfit) Hrem.
  unfold matrix_bytes in Hrem. rewrite <- !app_assoc in Hrem.
  assert (is_bits64 (N.of_nat (rows m))) as Hr by (unfold is_bits64; lia).
  assert (is_bits64 (N.of_nat (cols m))) as Hc by (unfold is_bits64; lia).
  destruct (deserialize_bytes _ _ s Hr Hrem)
    as (s1 & Hget1 & Hrem1 & Hstream1 & Hread1).
  destruct (deserialize_bytes _ _ s1 Hc Hrem1)
    as (s2 & Hget2 & Hrem2 & Hstream2 & Hread2).
  destruct (deserialize_rows (fun i j => mcoeff 0 m i j) (cols m) (rows m)
              (fun i j => mcoeff_bits64 m i j Hbits) 0
              (mconst (rows m) (cols m) junk) s2 rest Hrem2)
    as (s' & Hloop & Hrem' & Hstream' & Hread').
  exists s'. split; [|split; [done | split; [congruence|]]].
  - unfold deserialize_DenseMatrix.
    change sizeof_size_t with 8%nat.
    rewrite Hget1, bind_Ok. cbv beta iota.
    rewrite Hget2, bind_Ok. cbv beta iota zeta.
    rewrite !Nat2N.id, Hloop. by rewrite (copy_all m junk Hwf).
  - rewrite matrix_bytes_length, Hread', Hread2, Hread1. lia.
Qed.

(** *** Vectors *)

Lemma nth_seq_all {A} (l : list A) (d : A) :
  map (fun i => nth i l d) (seq 0 (length l)) = l.
Proof.
  apply list_eq. intros k. rewrite list_lookup_fmap.
  destruct (decide (k < length l)%nat) as [Hk|Hk].
  - rewrite lookup_seq_lt by done. cbn.
    destruct (lookup_lt_is_Some_2 l k Hk) as [x Hx].
    rewrite Hx. f_equal. by apply nth_lookup_Some.
  - rewrite lookup_seq_ge by lia. cbn.
    symmetry. apply lookup_ge_None_2. lia.
Qed.

Lemma flat_map_nth {A B} (g : A -> list B) (l : list A) (d : A) :
  flat_map (fun i => g (nth i l d)) (seq 0 (length l)) = flat_map g l.
Proof.
  rewrite !flat_map_concat_map.
  rewrite <- (nth_seq_all l d) at 2. by rewrite map_map.
Qed.

Lemma vector_bytes_length (v : DenseVector bits64) :
  length (vector_bytes v) = (8 + length v * 8)%nat.
Proof.
  unfold vector_bytes. rewrite length_app, object_bytes_length.
  rewrite (flat_map_length_const _ 8); [lia|].
  intros a. apply object_bytes_length.
Qed.

Lemma serialize_vector_bytes (v : DenseVector bits64) (s : Serializer) :
  _serialize_DenseVector v s
  = {| stream := stream s ++ vector_bytes v; read := read s |}.
Proof.
  unfold _serialize_DenseVector. cbv zeta.
  rewrite serialize_fold. unfold _serialize, vector_bytes, vcoeff.
  cbn [stream read]. rewrite flat_map_nth. by rewrite <- app_assoc.
Qed.

Lemma deserialize_elements (src : nat -> N) (k : nat) :
  (forall j, is_bits64 (src j)) ->
  forall j0 obj s rest,
    remaining s
    = flat_map (fun j => object_bytes 8 (src j)) (seq j0 k) ++ rest ->
    exists s',
      for_range (fun i '(obj, s) =>
          '(v, s) ← deserialize sizeof_double s;
          Ok (vset obj i v, s))
        j0 k (obj, s)
      = Ok (fold_left (fun o j => vset o j (src j)) (seq j0 k) obj, s')
      /\ remaining s' = rest /\ stream s' = stream s
      /\ read s' = (read s + 8 * k)%nat.
Proof.
  intros Hsrc. induction k as [|k IH]; intros j0 obj s rest Hrem.
  - exists s. cbn [seq flat_map app] in Hrem.
    split; [done | split; [done | split; [done | lia]]].
  - cbn [seq flat_map] in Hrem. rewrite <- app_assoc in Hrem.
    destruct (deserialize_bytes _ _ s (Hsrc j0) Hrem)
      as (s1 & Hget & Hrem1 & Hstream1 & Hread1).
    destruct (IH (S j0) (vset obj j0 (src j0)) s1 rest Hrem1)
      as (s' & Hloop & Hrem' & Hstream' & Hread').
    exists s'. split; [|split; [done | split; [congruence | lia]]].
    cbn [for_range seq fold_left].
    change sizeof_double with 8%nat. rewrite Hget.
    rewrite !bind_Ok. exact Hloop.
Qed.

(** After [resize] and the loop, [obj] is the vector that was written. *)
Lemma copy_elements (v : DenseVector bits64) (junk : bits64) :
  fold_left (fun o j => vset o j (nth j v 0)) (seq 0 (length v))
            (vconst (length v) junk)
  = v.
Proof.
  set (m := {| rows := length v; cols := 1; coeffs := v |}).
  change (fold_left (put m) (seq 0 (length v)) (vconst (length v) junk) = v).
  apply list_eq. intros k.
  destruct (decide (k < length v)%nat) as [Hk|Hk].
  - rewrite put_all_lookup.
    + destruct (lookup_lt_is_Some_2 v k Hk) as [x Hx].
      cbn [coeffs m]. rewrite Hx. f_equal. by apply nth_lookup_Some.
    + right. apply in_seq. lia.
    + unfold vconst. by rewrite length_replicate.
  - rewrite lookup_ge_None_2
      by (rewrite put_all_length; unfold vconst; rewrite length_replicate; lia).
    symmetry. apply lookup_ge_None_2. lia.
Qed.

Lemma nth_bits64 (v : list bits64) (j : nat) :
  Forall is_bits64 v -> is_bits64 (nth j v 0).
Proof.
  intros Hv. destruct (nth_in_or_default j v 0) as [Hin | ->]; [|done].
  rewrite Forall_forall in Hv. apply Hv. by apply list_elem_of_In.
Qed.

Lemma deserialize_vector_at (v : DenseVector bits64) (junk : bits64)
    (s : Serializer) (rest : list byte) :
  vector_ok v -> remaining s = vector_bytes v ++ rest ->
  exists s',
    deserialize_DenseVector junk s = Ok (v, s')
    /\ remaining s' = rest /\ stream s' = stream s
    /\ read s' = (read s + length (vector_bytes v))%nat.
Proof.
  intros (Hbits & Hfit) Hrem.
  unfold vector_bytes in Hrem. rewrite <- (flat_map_nth _ v 0) in Hrem.
  rewrite <- !app_assoc in Hrem.
  assert (is_bits64 (N.of_nat (length v))) as Hn by (unfold is_bits64; lia).
  destruct (deserialize_bytes _ _ s Hn Hrem)
    as (s1 & Hget1 & Hrem1 & Hstream1 & Hread1).
  destruct (deserialize_elements (fun j => nth j v 0) (length v)
              (fun j => nth_bits64 v j Hbits) 0
              (vconst (length v) junk) s1 rest Hrem1)
    as (s' & Hloop & Hrem' & Hstream' & Hread').
  exists s'. split; [|split; [done | split; [congruence|]]].
  - unfold deserialize_DenseVector.
    change sizeof_size_t with 8%nat.
    rewrite Hget1, bind_Ok. cbv beta iota zeta.
    rewrite !Nat2N.id, Hloop. by rewrite copy_elements.
  - rewrite vector_bytes_length, Hread', Hread1. lia.
Qed.

Lemma get_size_vector_value (v : DenseVector bits64) :
  8 + 8 * N.of_nat (length v) < 2 ^ 64 ->
  get_size_DenseVector v = 8 + 8 * N.of_nat (length v).
Proof.
  intros Hfit. unfold get_size_DenseVector, to_size_t.
  change (N.of_nat sizeof_size_t) with 8.
  change (N.of_nat sizeof_double) with 8.
  set (e := N.of_nat (length v)) in *. cbv zeta.
  rewrite (N.mod_small e) by lia.
  rewrite (N.mod_small (e * 8)) by lia.
  destruct (N.ltb_spec 0 e) as [He|He].
  - rewrite N.mod_small by lia. lia.
  - lia.
Qed.
(** *** What a read consumes, and when it fails *)

Lemma deserialize_inv (n : nat) (s : Serializer) :
  match deserialize n s with
  | Ok (_, s') =>
      stream s' = stream s /\ read s' = (read s + n)%nat
      /\ (read s' <= length (stream s))%nat
  | Throw e =>
      e = Exception msg_stream /\ (length (stream s) < read s + n)%nat
  end.
Proof.
  unfold deserialize.
  destruct (Nat.ltb_spec (length (stream s)) (read s + n)) as [Hlt|Hge].
  - by split.
  - cbn [stream read]. by repeat split.
Qed.

Lemma elements_inv {T} (upd : T -> nat -> N -> T) (k : nat) :
  forall j0 obj s,
    match for_range (fun j '(obj, s) =>
              '(v, s) ← deserialize sizeof_double s;
              Ok (upd obj j v, s))
            j0 k (obj, s) with
    | Ok (_, s') =>
        stream s' = stream s /\ read s' = (read s + 8 * k)%nat
        /\ (k <> 0%nat -> read s' <= length (stream s))%nat
    | Throw e =>
        e = Exception msg_stream /\ (length (stream s) < read s + 8 * k)%nat
    end.
Proof.
  induction k as [|k IH]; intros j0 obj s; cbn [for_range].
  - repeat split; [lia | done].
  - pose proof (deserialize_inv sizeof_double s) as Hd.
    change sizeof_double with 8%nat in *.
    destruct (deserialize 8 s) as [[v s1]|e]; cbn.
    + destruct Hd as (Hst & Hrd & Hle).
      specialize (IH (S j0) (upd obj j0 v) s1).
      destruct (for_range _ (S j0) k _) as [[o' s']|e].
      * destruct IH as (Hst' & Hrd' & Hle').
        split; [congruence | split; [lia|]]. intros _.
        destruct k; [lia | rewrite <- Hst; apply Hle'; lia].
      * destruct IH as (-> & Hlt). split; [done|]. rewrite <- Hst. lia.
    + destruct Hd as (-> & Hlt). split; [done | lia].
Qed.

Lemma rows_inv (c k : nat) :
  forall i0 (obj : DenseMatrix bits64) s,
    match for_range (fun i '(obj, s) =>
              for_range (fun j '(obj, s) =>
                  '(v, s) ← deserialize sizeof_double s;
                  Ok (mset obj i j v, s))
                0 c (obj, s))
            i0 k (obj, s) with
    | Ok (_, s') =>
        stream s' = stream s /\ read s' = (read s + 8 * (k * c))%nat
        /\ ((k * c)%nat <> 0%nat -> read s' <= length (stream s))%nat
    | Throw e =>
        e = Exception msg_stream
        /\ (length (stream s) < read s + 8 * (k * c))%nat
    end.
Proof.
  induction k as [|k IH]; intros i0 obj s; cbn [for_range].
  - repeat split; [lia | done].
  - pose proof (elements_inv (fun o j v => mset o i0 j v) c 0 obj s) as Hrow.
    cbv beta in Hrow.
    destruct (for_range _ 0 c (obj, s)) as [[o1 s1]|e]; cbn.
    + destruct Hrow as (Hst & Hrd & Hle).
      specialize (IH (S i0) o1 s1).
      destruct (for_range _ (S i0) k _) as [[o' s']|e].
      * destruct IH as (Hst' & Hrd' & Hle').
        split; [congruence | split; [lia|]]. intros Hne.
        destruct (decide ((k * c)%nat = 0%nat)) as [Hz|Hnz].
        -- assert (c <> 0)%nat as Hc by lia.
           rewrite Hrd', Hz, Nat.mul_0_r, Nat.add_0_r. by apply Hle.
        -- rewrite <- Hst. by apply Hle'.
      * destruct IH as (-> & Hlt). split; [done|]. rewrite <- Hst. lia.
    + destruct Hrow as (-> & Hlt). split; [done | lia].
Qed.

(** *** Round trips *)

(** X1. A dense vector written by [_serialize] occupies the 8 bytes of its
    length followed by 8 bytes per element, which is what [get_size]
    announces; [deserialize], started where these bytes begin, returns the
    same vector bit for bit, leaves [read] just behind them and does not
    touch the stream. *)
Theorem DenseVector_roundtrip (v : DenseVector bits64) (junk : bits64)
    (s : Serializer) :
  vector_ok v ->
  _serialize_DenseVector v s
  = {| stream := stream s ++ vector_bytes v; read := read s |}
  /\ get_size_DenseVector v = N.of_nat (length (vector_bytes v))
  /\ get_size_DenseVector v = 8 + 8 * N.of_nat (length v)
  /\ forall s0 rest,
       remaining s0 = vector_bytes v ++ rest ->
       exists s',
         deserialize_DenseVector junk s0 = Ok (v, s')
         /\ remaining s' = rest /\ stream s' = stream s0.
Proof.
  intros Hok. pose proof Hok as (Hbits & Hfit).
  split; [apply serialize_vector_bytes | split; [|split]].
  - rewrite (get_size_vector_value v Hfit), vector_bytes_length. lia.
  - apply (get_size_vector_value v Hfit).
  - intros s0 rest Hrem.
    destruct (deserialize_vector_at v junk s0 rest Hok Hrem)
      as (s' & Hget & Hrem' & Hstream' & _).
    by exists s'.
Qed.

(** X2. Objects written one after the other are read back one after the
    other: after a matrix and then a vector are appended to a serializer
    whose [read] is at the end of its stream, [deserialize] for a matrix
    followed by [deserialize] for a vector returns the two objects and
    leaves nothing unread. *)
Theorem matrix_then_vector (m : DenseMatrix bits64) (v : DenseVector bits64)
    (junk : bits64) (s : Serializer) :
  matrix_ok m -> vector_ok v -> read s = length (stream s) ->
  let s1 := _serialize_DenseVector v (_serialize_DenseMatrix m s) in
  exists s2 s3,
    deserialize_DenseMatrix junk s1 = Ok (m, s2)
    /\ deserialize_DenseVector junk s2 = Ok (v, s3)
    /\ read s3 = length (stream s3) /\ stream s3 = stream s1.
Proof.
  intros Hm Hv Hend s1.
  assert (stream s1 = stream s ++ matrix_bytes m ++ vector_bytes v
          /\ read s1 = read s) as (Hstream & Hread).
  { subst s1. rewrite serialize_matrix_bytes, serialize_vector_bytes.
    cbn [stream read]. by rewrite <- app_assoc. }
  assert (remaining s1 = matrix_bytes m ++ vector_bytes v) as Hrem.
  { unfold remaining. rewrite Hstream, Hread, Hend.
    by rewrite drop_app_length. }
  destruct (deserialize_matrix_at m junk s1 _ Hm Hrem)
    as (s2 & Hget2 & Hrem2 & Hstream2 & Hread2).
  rewrite <- (app_nil_r (vector_bytes v)) in Hrem2.
  destruct (deserialize_vector_at v junk s2 _ Hv Hrem2)
    as (s3 & Hget3 & Hrem3 & Hstream3 & Hread3).
  exists s2, s3. split; [done | split; [done | split; [|congruence]]].
  rewrite Hread3, Hread2, Hstream3, Hstream2, Hstream, Hread, Hend.
  rewrite !length_app. lia.
Qed.

(** X3. A stream that ends inside the bytes of a matrix is refused: when
    only the first [k] bytes of an encoded matrix are left to read, [k] less
    than their number, [deserialize] throws the missing-bytes exception and
    returns no matrix. *)
Theorem truncated_matrix_fails (m : DenseMatrix bits64) (junk : bits64)
    (s : Serializer) (k : nat) :
  matrix_ok m -> (k < length (matrix_bytes m))%nat ->
  remaining s = take k (matrix_bytes m) ->
  deserialize_DenseMatrix junk s = Throw (Exception msg_stream).
Proof.
  intros (Hwf & Hbits & Hrows & Hcols & Hfit) Hk Hrem.
  assert (is_bits64 (N.of_nat (rows m))) as Hr by (unfold is_bits64; lia).
  assert (is_bits64 (N.of_nat (cols m))) as Hc by (unfold is_bits64; lia).
  assert (length (remaining s) = k) as Hlen
    by (rewrite Hrem, length_take; lia).
  unfold remaining in Hlen. rewrite length_drop in Hlen.
  rewrite matrix_bytes_length in Hk.
  unfold deserialize_DenseMatrix. change sizeof_size_t with 8%nat.
  destruct (decide (k < 8)%nat) as [Hk8|Hk8].
  { pose proof (deserialize_inv 8 s) as H1.
    destruct (deserialize 8 s) as [[r s1]|e]; [lia|].
    by destruct H1 as (-> & _). }
  unfold matrix_bytes in Hrem.
  rewrite take_app_ge in Hrem by (rewrite object_bytes_length; lia).
  rewrite object_bytes_length in Hrem.
  destruct (deserialize_bytes _ _ s Hr Hrem)
    as (s1 & Hget1 & Hrem1 & Hstream1 & Hread1).
  rewrite Hget1, bind_Ok. cbv beta iota.
  destruct (decide (k < 16)%nat) as [Hk16|Hk16].
  { pose proof (deserialize_inv 8 s1) as H2.
    destruct (deserialize 8 s1) as [[c s2]|e];
      [rewrite Hstream1 in H2; lia|].
    by destruct H2 as (-> & _). }
  rewrite take_app_ge in Hrem1 by (rewrite object_bytes_length; lia).
  rewrite object_bytes_length in Hrem1.
  destruct (deserialize_bytes _ _ s1 Hc Hrem1)
    as (s2 & Hget2 & Hrem2 & Hstream2 & Hread2).
  rewrite Hget2, bind_Ok. cbv beta iota zeta. rewrite !Nat2N.id.
  pose proof (rows_inv (cols m) (rows m) 0
                (mconst (rows m) (cols m) junk) s2) as H3.
  destruct (for_range _ 0 (rows m) _) as [[o' s']|e].
  - destruct H3 as (Hst3 & Hrd3 & Hle3).
    assert ((rows m * cols m)%nat <> 0%nat) as Hne by lia.
    specialize (Hle3 Hne). rewrite Hstream2, Hstream1 in Hle3. lia.
  - by destruct H3 as (-> & _).
Qed.
(** *** Files *)

Lemma push_back_all {A} (l : list A) :
  forall acc, fold_left (fun out b => out ++ [b]) l acc = acc ++ l.
Proof.
  induction l as [|a l IH]; intros acc; cbn [fold_left].
  - by rewrite app_nil_r.
  - rewrite IH. by rewrite <- app_assoc.
Qed.

Lemma open_saved (fileName : string) (s : Serializer) (fsys : FileSystem) :
  writable fsys fileName = true ->
  Serializer_open fileName (saveToFile fileName s fsys)
  = Ok {| stream := stream s; read := 0 |}.
Proof.
  intros Hw. unfold Serializer_open, loadFromFile, saveToFile.
  rewrite Hw. cbn [files]. rewrite lookup_insert_eq.
  by rewrite !push_back_all.
Qed.

(** X4. A stream saved under a name that can be opened for writing is what a
    serializer opened on that name holds, with [read] at its first byte,
    and no other file changes.  When the name cannot be opened for writing
    [saveToFile] does nothing and reports nothing; opening a name that has
    no file throws the exception whose message quotes the name. *)
Theorem save_then_open (fileName : string) (s : Serializer)
    (fsys : FileSystem) :
  (writable fsys fileName = true ->
   Serializer_open fileName (saveToFile fileName s fsys)
   = Ok {| stream := stream s; read := 0 |}
   /\ forall other, other <> fileName ->
        files (saveToFile fileName s fsys) !! other = files fsys !! other)
  /\ (writable fsys fileName = false -> files fsys !! fileName = None ->
      saveToFile fileName s fsys = fsys
      /\ Serializer_open fileName (saveToFile fileName s fsys)
         = Throw (Exception (msg_open fileName))).
Proof.
  split.
  - intros Hw. split; [by apply open_saved|].
    intros other Hne. unfold saveToFile. rewrite Hw. cbn [files].
    by rewrite lookup_insert_ne.
  - intros Hw Hnone.
    assert (saveToFile fileName s fsys = fsys) as ->
      by (unfold saveToFile; by rewrite Hw).
    split; [done|].
    unfold Serializer_open, loadFromFile. by rewrite Hnone.
Qed.

(** X5. A matrix survives the way through a file: serialized, saved under a
    writable name, loaded by a serializer constructed from that name and
    deserialized, it comes back bit for bit, and the whole file has been
    read. *)
Theorem matrix_through_file (m : DenseMatrix bits64) (junk : bits64)
    (fileName : string) (fsys : FileSystem) :
  matrix_ok m -> writable fsys fileName = true ->
  exists s s',
    Serializer_open fileName
      (saveToFile fileName (serialize_DenseMatrix m) fsys) = Ok s
    /\ deserialize_DenseMatrix junk s = Ok (m, s')
    /\ read s' = length (stream s').
Proof.
  intros Hm Hw.
  set (s := {| stream := stream (serialize_DenseMatrix m); read := 0 |}).
  assert (remaining s = matrix_bytes m ++ []) as Hrem.
  { unfold remaining, s, serialize_DenseMatrix.
    rewrite serialize_matrix_bytes. cbn [stream read Serializer_new app drop].
    by rewrite app_nil_r. }
  destruct (deserialize_matrix_at m junk s [] Hm Hrem)
    as (s' & Hget & Hrem' & Hstream' & Hread').
  exists s, s'. split; [by apply open_saved | split; [done|]].
  rewrite Hread', Hstream'. unfold s, serialize_DenseMatrix.
  rewrite serialize_matrix_bytes. by cbn [stream read Serializer_new app].
Qed.

(** *** Sparse matrices and vectors *)

Section SparseFacts.
Context {SparseMatrix SparseVector : Type}.
Variable toDense : SparseMatrix -> DenseMatrix bits64.
Variable sparseView : DenseMatrix bits64 -> SparseMatrix.
Variable toDenseVector : SparseVector -> DenseVector bits64.
Variable sparseViewVector : DenseVector bits64 -> SparseVector.

(** X6. Sparse objects travel as their dense forms: a sparse matrix and a
    sparse vector that are the sparse views of their dense conversions are
    written with the bytes of those dense forms, [get_size] is the number
    of these bytes, and [deserialize] gives the objects back. *)
Theorem sparse_roundtrip (obj : SparseMatrix) (vec : SparseVector)
    (junk : bits64) (s : Serializer) :
  matrix_ok (toDense obj) -> sparseView (toDense obj) = obj ->
  vector_ok (toDenseVector vec) ->
  sparseViewVector (toDenseVector vec) = vec ->
  read s = length (stream s) ->
  (exists s',
     deserialize_SparseMatrix sparseView junk
       (_serialize_SparseMatrix toDense obj s) = Ok (obj, s')
     /\ read s' = length (stream s')
     /\ N.of_nat (length (stream s'))
        = N.of_nat (length (stream s)) + get_size_SparseMatrix toDense obj)
  /\ (exists s',
        deserialize_SparseVector sparseViewVector junk
          (_serialize_SparseVector toDenseVector vec s) = Ok (vec, s')
        /\ read s' = length (stream s')
        /\ N.of_nat (length (stream s'))
           = N.of_nat (length (stream s))
             + get_size_SparseVector toDenseVector vec).
Proof.
  intros Hm Hview Hv Hviewv Hend. split.
  - unfold deserialize_SparseMatrix, _serialize_SparseMatrix,
      get_size_SparseMatrix. cbv zeta.
    set (s1 := _serialize_DenseMatrix (toDense obj) s).
    assert (remaining s1 = matrix_bytes (toDense obj) ++ []) as Hrem.
    { unfold remaining, s1. rewrite serialize_matrix_bytes.
      cbn [stream read]. by rewrite Hend, drop_app_length, app_nil_r. }
    destruct (deserialize_matrix_at _ junk s1 [] Hm Hrem)
      as (s' & Hget & Hrem' & Hstream' & Hread').
    exists s'. rewrite Hget, bind_Ok. cbv beta iota. rewrite Hview.
    assert (stream s1 = stream s ++ matrix_bytes (toDense obj)
            /\ read s1 = read s) as (Hst1 & Hrd1)
      by (unfold s1; by rewrite serialize_matrix_bytes).
    destruct Hm as (_ & _ & _ & _ & Hfit).
    split; [done | split].
    + rewrite Hread', Hstream', Hst1, Hrd1, Hend, length_app. lia.
    + rewrite Hstream', Hst1, length_app, matrix_bytes_length.
      rewrite (get_size_value _ Hfit).
      change (N.of_nat sizeof_size_t) with 8.
      change (N.of_nat sizeof_double) with 8. lia.
  - unfold deserialize_SparseVector, _serialize_SparseVector,
      get_size_SparseVector. cbv zeta.
    set (s1 := _serialize_DenseVector (toDenseVector vec) s).
    assert (remaining s1 = vector_bytes (toDenseVector vec) ++ []) as Hrem.
    { unfold remaining, s1. rewrite serialize_vector_bytes.
      cbn [stream read]. by rewrite Hend, drop_app_length, app_nil_r. }
    destruct (deserialize_vector_at _ junk s1 [] Hv Hrem)
      as (s' & Hget & Hrem' & Hstream' & Hread').
    exists s'. rewrite Hget, bind_Ok. cbv beta iota. rewrite Hviewv.
    assert (stream s1 = stream s ++ vector_bytes (toDenseVector vec)
            /\ read s1 = read s) as (Hst1 & Hrd1)
      by (unfold s1; by rewrite serialize_vector_bytes).
    destruct Hv as (_ & Hfit).
    split; [done | split].
    + rewrite Hread', Hstream', Hst1, Hrd1, Hend, length_app. lia.
    + rewrite Hstream', Hst1, length_app, vector_bytes_length.
      rewrite (get_size_vector_value _ Hfit). lia.
Qed.
End SparseFacts.
End SerializerMore.

(** ** The serializer: composite objects *)

Module CompositeFacts.
Import Serializer SerializerRest SerializerFacts SerializerMore.
Import Composite.
Local Open Scope N_scope.

Lemma size_plus_small (a b : N) : a + b < 2 ^ 64 -> size_plus a b = a + b.
Proof. intros Hfit. unfold size_plus, to_size_t. by apply N.mod_small. Qed.

(** Rewrites the sums of sizes, the innermost first. *)
Ltac size_sums :=
  repeat match goal with
  | |- context [size_plus ?a ?b] =>
      lazymatch a with
      | context [size_plus _ _] => fail
      | _ => rewrite (size_plus_small a b) by lia
      end
  end.

(** The codecs of the scalars and of Eigen's types are sound. *)
Lemma scalar_codec_ok :
  codec_ok (CT := scalar_codec) is_bits64 (object_bytes 8).
Proof.
  split; [done | split].
  - intros v s rest Hv Hrem.
    destruct (deserialize_bytes v rest s Hv Hrem) as (s' & Hget & Hr & Hs & _).
    by exists s'.
  - intros v _ _. by rewrite object_bytes_length.
Qed.

Lemma DenseMatrix_codec_ok (junk : N) :
  codec_ok (CT := DenseMatrix_codec junk) matrix_ok matrix_bytes.
Proof.
  split; [exact serialize_matrix_bytes | split].
  - intros m s rest Hm Hrem.
    destruct (deserialize_matrix_at m junk s rest Hm Hrem)
      as (s' & Hget & Hr & Hs & _).
    by exists s'.
  - intros m (_ & _ & _ & _ & Hfit) _. cbn [get_size DenseMatrix_codec].
    rewrite (get_size_value m Hfit), matrix_bytes_length.
    change (N.of_nat sizeof_size_t) with 8.
    change (N.of_nat sizeof_double) with 8. lia.
Qed.

Lemma DenseVector_codec_ok (junk : N) :
  codec_ok (CT := DenseVector_codec junk) vector_ok vector_bytes.
Proof.
  split; [exact serialize_vector_bytes | split].
  - intros v s rest Hv Hrem.
    destruct (deserialize_vector_at v junk s rest Hv Hrem)
      as (s' & Hget & Hr & Hs & _).
    by exists s'.
  - intros v (_ & Hfit) _. cbn [get_size DenseVector_codec].
    rewrite (get_size_vector_value v Hfit), vector_bytes_length. lia.
Qed.

Section Fields.
Context {X Y : Type} {CX : Codec X} {CY : Codec Y}.
Variables (wfX : X -> Prop) (bytesX : X -> list byte).
Variables (wfY : Y -> Prop) (bytesY : Y -> list byte).

(** X7. [DataPoint]: when the codecs of [x] and [y] are sound, the three
    functions for a sample are: the sample is written as the bytes of [x]
    followed by those of [y], read back from them, and its size is their
    number. *)
Theorem DataPoint_format :
  codec_ok wfX bytesX -> codec_ok wfY bytesY ->
  codec_ok (fun p : DataPoint.t X Y =>
              wfX (DataPoint.x p) /\ wfY (DataPoint.y p))
           (fun p => bytesX (DataPoint.x p) ++ bytesY (DataPoint.y p)).
Proof.
  intros (Wx & Rx & Sx) (Wy & Ry & Sy). split; [|split].
  - intros obj s. cbn [_serialize DataPoint_codec].
    rewrite Wx, Wy. cbn [stream read]. by rewrite app_assoc.
  - intros obj s rest (Hx & Hy) Hrem. rewrite <- app_assoc in Hrem.
    destruct (Rx _ s _ Hx Hrem) as (s1 & E1 & Hrem1 & Hst1).
    destruct (Ry _ s1 _ Hy Hrem1) as (s2 & E2 & Hrem2 & Hst2).
    exists s2. cbn [deserialize DataPoint_codec].
    rewrite E1, bind_Ok. cbv beta iota. rewrite E2, bind_Ok. cbv beta iota.
    split; [by destruct obj | split; [done | congruence]].
  - intros obj (Hx & Hy) Hlen. cbn [get_size DataPoint_codec].
    rewrite length_app, Nat2N.inj_add in *.
    rewrite (Sx _ Hx), (Sy _ Hy) by lia. by size_sums.
Qed.

(** [BSplineBasis]: [bases] and then [num_variables]. *)
Lemma BSplineBasis_format :
  codec_ok wfX bytesX -> codec_ok wfY bytesY ->
  codec_ok (fun p : BSplineBasis.t X Y =>
              wfX (BSplineBasis.bases p) /\ wfY (BSplineBasis.num_variables p))
           (fun p => bytesX (BSplineBasis.bases p)
                     ++ bytesY (BSplineBasis.num_variables p)).
Proof.
  intros (Wx & Rx & Sx) (Wy & Ry & Sy). split; [|split].
  - intros obj s. cbn [_serialize BSplineBasis_codec].
    rewrite Wx, Wy. cbn [stream read]. by rewrite app_assoc.
  - intros obj s rest (Hx & Hy) Hrem. rewrite <- app_assoc in Hrem.
    destruct (Rx _ s _ Hx Hrem) as (s1 & E1 & Hrem1 & Hst1).
    destruct (Ry _ s1 _ Hy Hrem1) as (s2 & E2 & Hrem2 & Hst2).
    exists s2. cbn [deserialize BSplineBasis_codec].
    rewrite E1, bind_Ok. cbv beta iota. rewrite E2, bind_Ok. cbv beta iota.
    split; [by destruct obj | split; [done | congruence]].
  - intros obj (Hx & Hy) Hlen. cbn [get_size BSplineBasis_codec].
    rewrite length_app, Nat2N.inj_add in *.
    rewrite (Sx _ Hx), (Sy _ Hy) by lia. by size_sums.
Qed.

(** [KnotVector]: its only field. *)
Lemma KnotVector_format :
  codec_ok wfX bytesX ->
  codec_ok (fun p : KnotVector.t X => wfX (KnotVector.knots p))
           (fun p => bytesX (KnotVector.knots p)).
Proof.
  intros (Wx & Rx & Sx). split; [|split].
  - intros obj s. cbn [_serialize KnotVector_codec]. by rewrite Wx.
  - intros obj s rest Hx Hrem.
    destruct (Rx _ s _ Hx Hrem) as (s1 & E1 & Hrem1 & Hst1).
    exists s1. cbn [deserialize KnotVector_codec].
    rewrite E1, bind_Ok. cbv beta iota.
    split; [by destruct obj | done].
  - intros obj Hx Hlen. cbn [get_size KnotVector_codec]. by apply Sx.
Qed.
End Fields.
Section Table.
Context {B1 B2 U1 U2 U3 S G : Type}.
Context {CB1 : Codec B1} {CB2 : Codec B2} {CU1 : Codec U1} {CU2 : Codec U2}.
Context {CU3 : Codec U3} {CS : Codec S} {CG : Codec G}.
Variables (wf1 : B1 -> Prop) (bytes1 : B1 -> list byte).
Variables (wf2 : B2 -> Prop) (bytes2 : B2 -> list byte).
Variables (wf3 : U1 -> Prop) (bytes3 : U1 -> list byte).
Variables (wf4 : U2 -> Prop) (bytes4 : U2 -> list byte).
Variables (wf5 : U3 -> Prop) (bytes5 : U3 -> list byte).
Variables (wf6 : S -> Prop) (bytes6 : S -> list byte).
Variables (wf7 : G -> Prop) (bytes7 : G -> list byte).

(** X8. [DataTable]: the two flags, the number of duplicates, the two
    dimensions, the samples and the grid are written in this order and read
    in the same order, so a table is read back from what was written, and
    [get_size] is the length of what is written. *)
Theorem DataTable_format :
  codec_ok wf1 bytes1 -> codec_ok wf2 bytes2 -> codec_ok wf3 bytes3 ->
  codec_ok wf4 bytes4 -> codec_ok wf5 bytes5 -> codec_ok wf6 bytes6 ->
  codec_ok wf7 bytes7 ->
  codec_ok (fun t : DataTable.t B1 B2 U1 U2 U3 S G =>
              wf1 (DataTable._allow_duplicates t)
              /\ wf2 (DataTable._allow_incomplete_grid t)
              /\ wf3 (DataTable._num_duplicates t)
              /\ wf4 (DataTable._dim_x t) /\ wf5 (DataTable._dim_y t)
              /\ wf6 (DataTable.samples t) /\ wf7 (DataTable.grid t))
           (fun t =>
              bytes1 (DataTable._allow_duplicates t)
              ++ bytes2 (DataTable._allow_incomplete_grid t)
              ++ bytes3 (DataTable._num_duplicates t)
              ++ bytes4 (DataTable._dim_x t) ++ bytes5 (DataTable._dim_y t)
              ++ bytes6 (DataTable.samples t) ++ bytes7 (DataTable.grid t)).
Proof.
  intros (W1 & R1 & S1) (W2 & R2 & S2) (W3 & R3 & S3) (W4 & R4 & S4)
         (W5 & R5 & S5) (W6 & R6 & S6) (W7 & R7 & S7).
  split; [|split].
  - intros obj s. cbn [_serialize DataTable_codec]. cbv zeta.
    rewrite W1, W2, W3, W4, W5, W6, W7. cbn [stream read].
    by rewrite <- !app_assoc.
  - intros obj s rest (H1 & H2 & H3 & H4 & H5 & H6 & H7) Hrem.
    rewrite <- !app_assoc in Hrem.
    destruct (R1 _ s _ H1 Hrem) as (s1 & E1 & Hrem1 & Hst1).
    destruct (R2 _ s1 _ H2 Hrem1) as (s2 & E2 & Hrem2 & Hst2).
    destruct (R3 _ s2 _ H3 Hrem2) as (s3 & E3 & Hrem3 & Hst3).
    destruct (R4 _ s3 _ H4 Hrem3) as (s4 & E4 & Hrem4 & Hst4).
    destruct (R5 _ s4 _ H5 Hrem4) as (s5 & E5 & Hrem5 & Hst5).
    destruct (R6 _ s5 _ H6 Hrem5) as (s6 & E6 & Hrem6 & Hst6).
    destruct (R7 _ s6 _ H7 Hrem6) as (s7 & E7 & Hrem7 & Hst7).
    exists s7. cbn [deserialize DataTable_codec].
    rewrite E1, bind_Ok. cbv beta iota. rewrite E2, bind_Ok. cbv beta iota.
    rewrite E3, bind_Ok. cbv beta iota. rewrite E4, bind_Ok. cbv beta iota.
    rewrite E5, bind_Ok. cbv beta iota. rewrite E6, bind_Ok. cbv beta iota.
    rewrite E7, bind_Ok. cbv beta iota.
    split; [by destruct obj | split; [done | congruence]].
  - intros obj (H1 & H2 & H3 & H4 & H5 & H6 & H7) Hlen.
    cbn [get_size DataTable_codec].
    rewrite !length_app, !Nat2N.inj_add in *.
    rewrite (S1 _ H1), (S2 _ H2), (S3 _ H3), (S4 _ H4), (S5 _ H5),
      (S6 _ H6), (S7 _ H7) by lia.
    size_sums. lia.
Qed.
End Table.

Section Basis1D.
Context {U1 K U2 : Type} {CU1 : Codec U1} {CK : Codec K} {CU2 : Codec U2}.
Variables (wf1 : U1 -> Prop) (bytes1 : U1 -> list byte).
Variables (wf2 : K -> Prop) (bytes2 : K -> list byte).
Variables (wf3 : U2 -> Prop) (bytes3 : U2 -> list byte).

(** X9. [BSplineBasis1D] and the [KnotVector] inside it: the degree, the
    knots of the knot vector and the target number of basis functions are
    written in this order, read back in the same order, and counted by
    [get_size]. *)
Theorem BSplineBasis1D_format :
  codec_ok wf1 bytes1 -> codec_ok wf2 bytes2 -> codec_ok wf3 bytes3 ->
  codec_ok (fun b : BSplineBasis1D.t U1 K U2 =>
              wf1 (BSplineBasis1D.degree b)
              /\ wf2 (KnotVector.knots (BSplineBasis1D.knots b))
              /\ wf3 (BSplineBasis1D.target_num_basis_functions b))
           (fun b =>
              bytes1 (BSplineBasis1D.degree b)
              ++ bytes2 (KnotVector.knots (BSplineBasis1D.knots b))
              ++ bytes3 (BSplineBasis1D.target_num_basis_functions b)).
Proof.
  intros (W1 & R1 & S1) Hknots (W3 & R3 & S3).
  destruct (KnotVector_format wf2 bytes2 Hknots) as (W2 & R2 & S2).
  split; [|split].
  - intros obj s. cbn [_serialize BSplineBasis1D_codec]. cbv zeta.
    rewrite W1, W2, W3. cbn [stream read]. by rewrite <- !app_assoc.
  - intros obj s rest (H1 & H2 & H3) Hrem.
    rewrite <- !app_assoc in Hrem.
    destruct (R1 _ s _ H1 Hrem) as (s1 & E1 & Hrem1 & Hst1).
    destruct (R2 (BSplineBasis1D.knots obj) s1 _ H2 Hrem1)
      as (s2 & E2 & Hrem2 & Hst2).
    destruct (R3 _ s2 _ H3 Hrem2) as (s3 & E3 & Hrem3 & Hst3).
    exists s3. cbn [deserialize BSplineBasis1D_codec].
    rewrite E1, bind_Ok. cbv beta iota. rewrite E2, bind_Ok. cbv beta iota.
    rewrite E3, bind_Ok. cbv beta iota.
    split; [by destruct obj | split; [done | congruence]].
  - intros obj (H1 & H2 & H3) Hlen.
    cbn [get_size BSplineBasis1D_codec].
    rewrite !length_app, !Nat2N.inj_add in *.
    rewrite (S1 _ H1), (S2 (BSplineBasis1D.knots obj) H2), (S3 _ H3) by lia.
    size_sums. lia.
Qed.
End Basis1D.

Section Spline.
Context {V U C U1 U2 : Type}.
Context {CV : Codec V} {CU : Codec U} {CC : Codec C}.
Context {CU1 : Codec U1} {CU2 : Codec U2}.
Variables (wf1 : V -> Prop) (bytes1 : V -> list byte).
Variables (wf2 : U -> Prop) (bytes2 : U -> list byte).
Variables (wf3 : C -> Prop) (bytes3 : C -> list byte).
Variables (wf4 : U1 -> Prop) (bytes4 : U1 -> list byte).
Variables (wf5 : U2 -> Prop) (bytes5 : U2 -> list byte).

(** X10. [BSpline] and the [BSplineBasis] inside it: the bases and the
    number of variables of the basis, then the control points and the two
    dimensions are written in this order, read back in the same order, and
    counted by [get_size]. *)
Theorem BSpline_format :
  codec_ok wf1 bytes1 -> codec_ok wf2 bytes2 -> codec_ok wf3 bytes3 ->
  codec_ok wf4 bytes4 -> codec_ok wf5 bytes5 ->
  codec_ok (fun b : BSpline.t V U C U1 U2 =>
              (wf1 (BSplineBasis.bases (BSpline.basis b))
               /\ wf2 (BSplineBasis.num_variables (BSpline.basis b)))
              /\ wf3 (BSpline.control_points b)
              /\ wf4 (BSpline.dim_x b) /\ wf5 (BSpline.dim_y b))
           (fun b =>
              (bytes1 (BSplineBasis.bases (BSpline.basis b))
               ++ bytes2 (BSplineBasis.num_variables (BSpline.basis b)))
              ++ bytes3 (BSpline.control_points b)
              ++ bytes4 (BSpline.dim_x b) ++ bytes5 (BSpline.dim_y b)).
Proof.
  intros Hbases Hnum (W3 & R3 & S3) (W4 & R4 & S4) (W5 & R5 & S5).
  destruct (BSplineBasis_format wf1 bytes1 wf2 bytes2 Hbases Hnum)
    as (W1 & R1 & S1).
  split; [|split].
  - intros obj s. cbn [_serialize BSpline_codec]. cbv zeta.
    rewrite W1, W3, W4, W5. cbn [stream read]. by rewrite <- !app_assoc.
  - intros obj s rest (H1 & H3 & H4 & H5) Hrem.
    rewrite <- (app_assoc (_ ++ _)) in Hrem.
    destruct (R1 (BSpline.basis obj) s _ H1 Hrem)
      as (s1 & E1 & Hrem1 & Hst1).
    rewrite <- !app_assoc in Hrem1.
    destruct (R3 _ s1 _ H3 Hrem1) as (s3 & E3 & Hrem3 & Hst3).
    destruct (R4 _ s3 _ H4 Hrem3) as (s4 & E4 & Hrem4 & Hst4).
    destruct (R5 _ s4 _ H5 Hrem4) as (s5 & E5 & Hrem5 & Hst5).
    exists s5. cbn [deserialize BSpline_codec].
    rewrite E1, bind_Ok. cbv beta iota. rewrite E3, bind_Ok. cbv beta iota.
    rewrite E4, bind_Ok. cbv beta iota. rewrite E5, bind_Ok. cbv beta iota.
    split; [by destruct obj | split; [done | congruence]].
  - intros obj (H1 & H3 & H4 & H5) Hlen.
    cbn [get_size BSpline_codec].
    rewrite (length_app (_ ++ _)), !(length_app (bytes3 _)),
      !(length_app (bytes4 _)), !Nat2N.inj_add in Hlen.
    rewrite (length_app (_ ++ _)), !(length_app (bytes3 _)),
      !(length_app (bytes4 _)), !Nat2N.inj_add.
    rewrite (S1 (BSpline.basis obj) H1), (S3 _ H3), (S4 _ H4), (S5 _ H5)
      by lia.
    size_sums. lia.
Qed.
End Spline.
End CompositeFacts.

(** ** The distance as a function of two points *)

Section DistanceMore.
Context {D : Type} `{Double D} `{DoubleLt D}.
Local Open Scope double_scope.

(** X11. [dist] does not depend on the order of its arguments: it throws
    for both orders when the dimensions differ, and returns the same
    double for both otherwise.  This needs of the arithmetic only that
    [(a − b)²] and [(b − a)²] are the same number, which holds of binary64
    bit for bit. *)
Theorem dist_symmetric `{!SymmetricSquare D} (x y : list D) :
  dist x y = dist y x.
Proof.
  destruct (decide (length x = length y)) as [Heq|Hne].
  - rewrite (dist_euclid x y Heq), (dist_euclid y x (eq_sym Heq)).
    f_equal. apply euclid_sym.
  - rewrite (dist_mismatch x y Hne). symmetry.
    apply dist_mismatch. congruence.
Qed.

Lemma dist_sort_euclid (x y : DataPoint D) :
  length (getX y) = length (getX x) ->
  dist_sort x y
  = Ok (dltb (euclid (getX x) (replicate (length (getX x)) d0))
             (euclid (getX y) (replicate (length (getX x)) d0))).
Proof.
  intros Hlen. unfold dist_sort, dist_points. cbv zeta. cbn [getX].
  rewrite !dist_euclid by (by rewrite length_replicate).
  by rewrite !bind_Ok.
Qed.

(** X12. [dist_sort] measures both points against an origin that has the
    dimension of its first argument: it returns a boolean when the second
    point has that dimension too, and throws the exception of [dist]
    otherwise. *)
Theorem dist_sort_dimensions (x y : DataPoint D) :
  (length (getX y) = length (getX x) -> exists b, dist_sort x y = Ok b)
  /\ (length (getX y) <> length (getX x) ->
      dist_sort x y = Throw (Exception msg_dist)).
Proof.
  split; intros Hlen.
  - rewrite (dist_sort_euclid x y Hlen). by eexists.
  - unfold dist_sort, dist_points. cbv zeta. cbn [getX].
    rewrite (dist_euclid (getX x)) by (by rewrite length_replicate).
    rewrite bind_Ok, dist_mismatch; [done|].
    by rewrite length_replicate.
Qed.
End DistanceMore.

(** ** The distance in exact arithmetic *)

Section ExactDistance.
Local Open Scope R_scope.

Lemma exact_fold_shift (l : list R) :
  forall a, fold_left Rplus l a = a + fold_left Rplus l 0.
Proof.
  induction l as [|b l IH]; intros a; cbn [fold_left]; [lra|].
  rewrite (IH (a + b)), (IH (0 + b)). lra.
Qed.

Lemma exact_big_sum_cons (a : R) (l : list R) :
  big_sum (a :: l) = a + big_sum l.
Proof.
  unfold big_sum. cbn [fold_left dadd d0 exact].
  rewrite exact_fold_shift. lra.
Qed.

Lemma exact_big_sum_nil : big_sum (@nil R) = 0.
Proof. reflexivity. Qed.

(** [Σᵢ (xᵢ − yᵢ)²] *)
Lemma sq_dist_cons (a b : R) (x y : list R) :
  big_sum (zip_with (fun a b => dmul (dsub a b) (dsub a b)) (a :: x) (b :: y))
  = (a - b) * (a - b)
    + big_sum (zip_with (fun a b => dmul (dsub a b) (dsub a b)) x y).
Proof. cbn [zip_with]. by rewrite exact_big_sum_cons. Qed.

Lemma sq_dist_nonneg (x y : list R) :
  0 <= big_sum (zip_with (fun a b => dmul (dsub a b) (dsub a b)) x y).
Proof.
  revert y. induction x as [|a x IH]; intros [|b y];
    try (cbn [zip_with]; rewrite exact_big_sum_nil; lra).
  rewrite sq_dist_cons. specialize (IH y).
  pose proof (Rle_0_sqr (a - b)) as Hsq. unfold Rsqr in Hsq. lra.
Qed.

Lemma sq_dist_zero (x y : list R) :
  length x = length y ->
  big_sum (zip_with (fun a b => dmul (dsub a b) (dsub a b)) x y) = 0 ->
  x = y.
Proof.
  revert y. induction x as [|a x IH]; intros [|b y] Hlen Hz; try done.
  rewrite sq_dist_cons in Hz.
  pose proof (sq_dist_nonneg x y) as Hpos.
  pose proof (Rle_0_sqr (a - b)) as Hsq. unfold Rsqr in Hsq.
  assert ((a - b) * (a - b) = 0) as Hab by lra.
  apply Rmult_integral in Hab.
  assert (a = b) as -> by lra.
  f_equal. apply IH; [by injection Hlen | lra].
Qed.

Lemma sq_dist_refl (x : list R) :
  big_sum (zip_with (fun a b => dmul (dsub a b) (dsub a b)) x x) = 0.
Proof.
  induction x as [|a x IH]; [done|]. rewrite sq_dist_cons, IH. lra.
Qed.

Lemma cross_cons (a b c : R) (x y z : list R) :
  cross (a :: x) (b :: y) (c :: z) = (a - b) * (b - c) + cross x y z.
Proof. unfold cross. cbn [zip_with]. by rewrite exact_big_sum_cons. Qed.

Lemma sq_dist_expand (x y z : list R) :
  length x = length y -> length y = length z ->
  big_sum (zip_with (fun a b => dmul (dsub a b) (dsub a b)) x z)
  = big_sum (zip_with (fun a b => dmul (dsub a b) (dsub a b)) x y)
    + 2 * cross x y z
    + big_sum (zip_with (fun a b => dmul (dsub a b) (dsub a b)) y z).
Proof.
  revert y z. induction x as [|a x IH]; intros [|b y] [|c z] Hxy Hyz;
    try done.
  - unfold cross. cbn [zip_with]. rewrite !exact_big_sum_nil. lra.
  - rewrite !sq_dist_cons, cross_cons.
    rewrite (IH y z) by (by simplify_eq/=). lra.
Qed.

(** The Cauchy–Schwarz inequality for the cross term. *)
Lemma cross_bound (x y z : list R) :
  cross x y z
  <= sqrt (big_sum (zip_with (fun a b => dmul (dsub a b) (dsub a b)) x y))
     * sqrt (big_sum (zip_with (fun a b => dmul (dsub a b) (dsub a b)) y z)).
Proof.
  revert y z. induction x as [|a x IH]; intros y z.
  { unfold cross. cbn [zip_with]. rewrite exact_big_sum_nil.
    apply Rmult_le_pos; apply sqrt_pos. }
  destruct y as [|b y].
  { unfold cross. cbn [zip_with]. rewrite exact_big_sum_nil.
    apply Rmult_le_pos; apply sqrt_pos. }
  destruct z as [|c z].
  { unfold cross. rewrite zip_with_nil_r. cbn [zip_with].
    rewrite exact_big_sum_nil. apply Rmult_le_pos; apply sqrt_pos. }
  rewrite cross_cons, !sq_dist_cons.
  specialize (IH y z).
  pose proof (sq_dist_nonneg x y) as H1.
  pose proof (sq_dist_nonneg y z) as H2.
  set (S1 := big_sum (zip_with _ x y)) in *.
  set (S2 := big_sum (zip_with _ y z)) in *.
  pose proof (sqrt_pos S1) as HA. pose proof (sqrt_pos S2) as HB.
  pose proof (sqrt_sqrt S1 H1) as HA2. pose proof (sqrt_sqrt S2 H2) as HB2.
  set (A := sqrt S1) in *. set (B := sqrt S2) in *.
  set (u := a - b). set (v := b - c).
  rewrite <- sqrt_mult by nra.
  apply Rle_trans with (u * v + A * B); [lra|].
  destruct (Rle_dec (u * v + A * B) 0) as [Hneg|Hpos].
  { apply Rle_trans with 0; [lra | apply sqrt_pos]. }
  apply Rsqr_incr_0_var; [|apply sqrt_pos].
  rewrite Rsqr_sqrt by nra. unfold Rsqr.
  pose proof (Rle_0_sqr (u * B - A * v)) as Hsq. unfold Rsqr in Hsq.
  rewrite <- HA2, <- HB2.
  replace ((u * u + A * A) * (v * v + B * B))
    with ((u * v + A * B) * (u * v + A * B)
          + (u * B - A * v) * (u * B - A * v)) by ring.
  lra.
Qed.
End ExactDistance.

Section ExactMetric.
Local Open Scope R_scope.

Lemma dist_Ok_inv (x y : list R) (r : R) :
  dist x y = Ok r -> length x = length y /\ r = euclid x y.
Proof.
  intros Hd. destruct (decide (length x = length y)) as [Heq|Hne].
  - rewrite (dist_euclid x y Heq) in Hd. by injection Hd as <-.
  - by rewrite (dist_mismatch x y Hne) in Hd.
Qed.

(** X13. In exact arithmetic [dist] is a metric on the vectors of one
    dimension: a distance is never negative, it is zero exactly between a
    point and itself, and when the distances from [x] to [y] and from [y]
    to [z] exist, so does the distance from [x] to [z], which is at most
    their sum. *)
Theorem dist_exact_metric (x y z : list R) (rxy ryz : R) :
  dist x y = Ok rxy -> dist y z = Ok ryz ->
  0 <= rxy /\ (rxy = 0 <-> x = y)
  /\ exists rxz, dist x z = Ok rxz /\ rxz <= rxy + ryz.
Proof.
  intros Hxy Hyz.
  destruct (dist_Ok_inv _ _ _ Hxy) as (Lxy & ->).
  destruct (dist_Ok_inv _ _ _ Hyz) as (Lyz & ->).
  unfold euclid. cbn [dsqrt exact].
  split; [apply sqrt_pos | split; [split|]].
  - intros Hz. apply sq_dist_zero; [done|].
    apply sqrt_eq_0; [apply sq_dist_nonneg | done].
  - intros <-. rewrite sq_dist_refl. apply sqrt_0.
  - exists (euclid x z). split; [apply dist_euclid; congruence|].
    unfold euclid. cbn [dsqrt exact].
    rewrite (sq_dist_expand x y z Lxy Lyz).
    pose proof (cross_bound x y z) as Hcross.
    pose proof (sq_dist_nonneg x y) as H1.
    pose proof (sq_dist_nonneg y z) as H2.
    pose proof (sq_dist_nonneg x z) as H3.
    rewrite (sq_dist_expand x y z Lxy Lyz) in H3.
    set (S1 := big_sum (zip_with _ x y)) in *.
    set (S2 := big_sum (zip_with _ y z)) in *.
    pose proof (sqrt_pos S1) as HA. pose proof (sqrt_pos S2) as HB.
    pose proof (sqrt_sqrt S1 H1) as HA2.
    pose proof (sqrt_sqrt S2 H2) as HB2.
    apply Rle_trans with (sqrt ((sqrt S1 + sqrt S2) * (sqrt S1 + sqrt S2))).
    + apply sqrt_le_1_alt.
      replace ((sqrt S1 + sqrt S2) * (sqrt S1 + sqrt S2))
        with (sqrt S1 * sqrt S1 + 2 * (sqrt S1 * sqrt S2)
              + sqrt S2 * sqrt S2) by ring.
      rewrite HA2, HB2. lra.
    + rewrite sqrt_square by lra. lra.
Qed.

Lemma zeros_sq_dist (x : list R) :
  zip_with (fun a b => dmul (dsub a b) (dsub a b)) x
           (replicate (length x) d0)
  = map (fun a => dmul a a) x.
Proof.
  induction x as [|a x IH]; [done|].
  cbn [length replicate zip_with map]. rewrite IH. f_equal.
  cbn [dmul dsub d0 exact]. ring.
Qed.

Lemma sum_squares_nonneg (x : list R) : 0 <= sum_squares x.
Proof.
  unfold sum_squares. rewrite <- zeros_sq_dist. apply sq_dist_nonneg.
Qed.

Lemma dist_sort_value (x y : DataPoint R) :
  length (getX y) = length (getX x) ->
  dist_sort x y
  = Ok (if Rlt_dec (sum_squares (getX x)) (sum_squares (getX y))
        then true else false).
Proof.
  intros Hlen. rewrite (dist_sort_euclid x y Hlen). f_equal.
  unfold euclid. rewrite zeros_sq_dist, <- Hlen, zeros_sq_dist.
  fold (sum_squares (getX x)). fold (sum_squares (getX y)).
  pose proof (sum_squares_nonneg (getX x)) as Hx.
  pose proof (sum_squares_nonneg (getX y)) as Hy.
  cbn [dltb exact_lt dsqrt exact].
  destruct (Rlt_dec (sqrt _) (sqrt _)) as [Hs|Hs];
    destruct (Rlt_dec (sum_squares _) (sum_squares _)) as [Hq|Hq];
    try done.
  - apply sqrt_lt_0_alt in Hs. lra.
  - destruct Hs. apply sqrt_lt_1_alt. lra.
Qed.

(** X14. In exact arithmetic [dist_sort] orders the samples of one
    dimension by their norm: it is [true] exactly when the sum of squares
    of the first is smaller than that of the second.  So no sample comes
    before itself and the comparison is transitive, as a sorting function
    needs of its comparison. *)
Theorem dist_sort_orders_by_norm (x y z : DataPoint R) :
  length (getX y) = length (getX x) -> length (getX z) = length (getX y) ->
  (dist_sort x y = Ok true <-> sum_squares (getX x) < sum_squares (getX y))
  /\ (dist_sort x y = Ok false
      <-> sum_squares (getX y) <= sum_squares (getX x))
  /\ dist_sort x x = Ok false
  /\ (dist_sort x y = Ok true -> dist_sort y z = Ok true ->
      dist_sort x z = Ok true).
Proof.
  intros Hxy Hyz.
  rewrite (dist_sort_value x y Hxy), (dist_sort_value y z Hyz).
  rewrite (dist_sort_value x x eq_refl).
  rewrite (dist_sort_value x z) by congruence.
  destruct (Rlt_dec (sum_squares (getX x)) (sum_squares (getX y)));
    destruct (Rlt_dec (sum_squares (getX y)) (sum_squares (getX z)));
    destruct (Rlt_dec (sum_squares (getX x)) (sum_squares (getX z)));
    destruct (Rlt_dec (sum_squares (getX x)) (sum_squares (getX x)));
    repeat split; intros; try done; try lra.
Qed.
End ExactMetric.

(** ** The constructor: when it throws, and what it hands out *)

Section Construction.
Context {D : Type} `{Double D} `{Environment D}.
Local Open Scope double_scope.

Lemma for_each_guarded {A St} (body : nat -> A -> St -> result St)
    (good : A -> bool) (e0 : exception) :
  (forall j a s, good a = true -> exists s', body j a s = Ok s') ->
  (forall j a s, good a = false -> body j a s = Throw e0) ->
  forall l i s,
    if forallb good l then exists s', for_each body i l s = Ok s'
    else for_each body i l s = Throw e0.
Proof.
  intros Hgood Hbad.
  induction l as [|a l IH]; intros i s; cbn [forallb for_each].
  - by exists s.
  - destruct (good a) eqn:Ha; cbn [andb].
    + destruct (Hgood i a s Ha) as [s1 E1]. rewrite E1, bind_Ok. apply IH.
    + by rewrite (Hbad i a s Ha).
Qed.

Lemma assemble_row_result (fn : RBF) (pts : list (DataPoint D)) (i : nat)
    (it1 : DataPoint D) (A : DenseMatrix D) :
  if forallb (fun q => (length (getX it1) =? length (getX q))%nat) pts
  then exists r, assemble_row fn pts i it1 A = Ok r
  else assemble_row fn pts i it1 A = Throw (Exception msg_dist).
Proof.
  unfold assemble_row. apply for_each_guarded.
  - intros j q [A' sum] Hq. apply Nat.eqb_eq in Hq.
    unfold dist_points. rewrite (dist_euclid _ _ Hq), bind_Ok.
    cbv zeta. destruct (dneb _ _); by eexists.
  - intros j q [A' sum] Hq. apply Nat.eqb_neq in Hq.
    unfold dist_points. by rewrite (dist_mismatch _ _ Hq).
Qed.

Lemma assemble_result (fn : RBF) (nz : bool) (pts : list (DataPoint D))
    (A : DenseMatrix D) (b : DenseVector D) :
  if uniformb pts then exists r, assemble fn nz pts A b = Ok r
  else assemble fn nz pts A b = Throw (Exception msg_dist).
Proof.
  unfold assemble, uniformb. apply for_each_guarded.
  - intros i it1 [A' b'] Hgood.
    pose proof (assemble_row_result fn pts i it1 A') as Hrow.
    rewrite Hgood in Hrow. destruct Hrow as [[A'' sum] ->].
    rewrite bind_Ok. cbv zeta beta iota. destruct nz; by eexists.
  - intros i it1 [A' b'] Hbad.
    pose proof (assemble_row_result fn pts i it1 A') as Hrow.
    rewrite Hbad in Hrow. by rewrite Hrow.
Qed.

Lemma uniformb_spec (pts : list (DataPoint D)) :
  uniformb pts = true <-> uniform pts.
Proof.
  unfold uniformb, uniform. rewrite forallb_forall. split.
  - intros Hall p q Hp Hq.
    apply list_elem_of_In in Hp. apply list_elem_of_In in Hq.
    specialize (Hall p Hp). rewrite forallb_forall in Hall.
    by apply Nat.eqb_eq, Hall.
  - intros Hall p Hp. apply forallb_forall. intros q Hq.
    apply Nat.eqb_eq, Hall; by apply list_elem_of_In.
Qed.

Lemma RBFNetwork_new_returns (t : DataTable D) (ty : RBFType) (nz : bool)
    (A : DenseMatrix D) (b : DenseVector D) :
  assemble (select_kernel ty) nz (points t)
    (mconst (getNumSamples t) (getNumSamples t) d0)
    (vconst (getNumSamples t) d0) = Ok (A, b) ->
  svd_singularValues A <> [] ->
  exists m diag, RBFNetwork_new t ty nz = Ok (m, diag).
Proof.
  intros E Hne.
  destruct (first_and_last (svd_singularValues A) Hne)
    as (smax & smin & Hmax & Hmin).
  unfold RBFNetwork_new. cbv zeta. rewrite E, bind_Ok. cbv beta iota.
  rewrite (vread_lookup _ _ _ Hmax), bind_Ok.
  rewrite (vread_lookup _ _ _ Hmin), bind_Ok. by eexists _, _.
Qed.

(** X15. When the constructor fails, on a table with at least one sample.
    If two samples differ in the length of their inputs it throws the
    exception of [dist].  If all samples have inputs of one length the
    system is assembled, and with the [n] singular values that Eigen
    returns of [A] the constructor returns a network, whatever the type
    and the flag.  It never compares the samples with the table's number
    of variables. *)
Theorem constructor_throws_iff (t : DataTable D) (ty : RBFType) (nz : bool) :
  (1 <= getNumSamples t)%nat ->
  (uniform (points t) ->
   exists A b,
     assemble (select_kernel ty) nz (points t)
       (mconst (getNumSamples t) (getNumSamples t) d0)
       (vconst (getNumSamples t) d0) = Ok (A, b)
     /\ (length (svd_singularValues A) = getNumSamples t ->
         exists m diag, RBFNetwork_new t ty nz = Ok (m, diag)))
  /\ (~ uniform (points t) ->
      RBFNetwork_new t ty nz = Throw (Exception msg_dist)).
Proof.
  intros Hn.
  pose proof (assemble_result (select_kernel ty) nz (points t)
                (mconst (getNumSamples t) (getNumSamples t) d0)
                (vconst (getNumSamples t) d0)) as Hres.
  split; intros Hu.
  - apply uniformb_spec in Hu. rewrite Hu in Hres.
    destruct Hres as [[A b] E]. exists A, b. split; [exact E|].
    intros Hlen. apply (RBFNetwork_new_returns t ty nz A b E).
    intros Hnil. rewrite Hnil in Hlen. cbn in Hlen. lia.
  - destruct (uniformb (points t)) eqn:Hub.
    + by apply uniformb_spec in Hub.
    + unfold RBFNetwork_new. cbv zeta. by rewrite Hres.
Qed.

(** X16. A network trained from a well-formed table with at least one
    sample is ready for use.  Given of Eigen that the decomposition of [A]
    has [n] singular values and that [svd.solve] returns one weight per
    column of the matrix, the constructor returns a network that satisfies
    the model invariant (every sample has [numVariables] inputs, one weight
    per sample) with preconditioning off; on it [eval], [evalBasis] and
    [evalJacobian] return for every point of the table's dimension, and
    [eval] and [evalBasis] throw their own exception for every other
    point. *)
Theorem trained_network_evaluates (t : DataTable D) (ty : RBFType)
    (nz : bool) :
  table_wf t -> (1 <= getNumSamples t)%nat ->
  (forall A b,
      assemble (select_kernel ty) nz (points t)
        (mconst (getNumSamples t) (getNumSamples t) d0)
        (vconst (getNumSamples t) d0) = Ok (A, b) ->
      length (svd_singularValues A) = getNumSamples t
      /\ length (svd_solve A b) = cols A) ->
  exists m diag,
    RBFNetwork_new t ty nz = Ok (m, diag)
    /\ network_wf m
    /\ numVariables m = getNumVariables t
    /\ numSamples m = getNumSamples t
    /\ precondition m = false /\ fn m = select_kernel ty
    /\ forall x,
         (length x = getNumVariables t ->
          exists v basis jac,
            eval m x = Ok v /\ evalBasis m x = Ok basis
            /\ length basis = getNumSamples t
            /\ evalJacobian m x = Ok jac)
         /\ (length x <> getNumVariables t ->
             eval m x = Throw (Exception msg_eval)
             /\ evalBasis m x = Throw (Exception msg_evalBasis)).
Proof.
  intros Hwf Hn Heigen.
  destruct (assemble_system (select_kernel ty) nz t Hwf)
    as (A & b & HA & Hrows & Hcols & _).
  destruct (RBFNetwork_new_trained t ty nz Hwf)
    as (A' & b' & HA' & Hnew & _).
  cbv zeta in *. rewrite HA in HA'. injection HA' as <- <-.
  destruct (Heigen A b HA) as (Hsvals & Hsolve).
  destruct (first_and_last (svd_singularValues A))
    as (smax & smin & Hmax & Hmin).
  { intros Hnil. rewrite Hnil in Hsvals. cbn in Hsvals. lia. }
  eexists _, _. split; [exact (Hnew smax smin Hmax Hmin)|].
  assert (network_wf
            {| numVariables := getNumVariables t; samples := t; type := ty;
               normalized := nz; precondition := false;
               numSamples := getNumSamples t; fn := select_kernel ty;
               coefficients := svd_solve A b |}) as Hnet.
  { split; cbn [samples numVariables coefficients]; [exact Hwf|].
    rewrite Hsolve, Hcols. done. }
  split; [exact Hnet | repeat (split; [reflexivity|])].
  intros x. split; intros Hx.
  - destruct (evalJacobian_returns _ x Hnet Hx) as [jac Hjac].
    eexists _, _, jac. split; [by apply eval_value|].
    split; [by apply evalBasis_activations|].
    split; [|exact Hjac].
    cbn [samples normalized]. unfold getNumSamples.
    destruct nz; unfold vdiv; by rewrite ?length_map.
  - split; [by apply eval_dimension_mismatch
           | by apply evalBasis_dimension_mismatch].
Qed.

(** X17. What [evalBasis] returns: for a point of the right dimension, one
    entry per sample, the entry of sample [i] being its kernel activation
    at the point, divided by the sum of all activations when the network
    is normalized. *)
Theorem evalBasis_entries (m : RBFNetwork D) (x : DenseVector D) :
  network_wf m -> length x = numVariables m ->
  exists basis,
    evalBasis m x = Ok basis
    /\ length basis = length (points (samples m))
    /\ forall i p,
         points (samples m) !! i = Some p ->
         basis !! i
         = Some (if normalized m
                 then activation (fn m) x (getX p) / spec_sum m x
                 else activation (fn m) x (getX p)).
Proof.
  intros Hwf Hx. eexists. split; [by apply evalBasis_activations|].
  cbv zeta. destruct (normalized m); unfold vdiv.
  - split; [by rewrite !length_map|].
    intros i p Hp. rewrite !list_lookup_fmap, Hp. done.
  - split; [by rewrite length_map|].
    intros i p Hp. by rewrite list_lookup_fmap, Hp.
Qed.
End Construction.

(** ** Edge cases of the evaluation *)

(** X18. A network without samples, in binary64: for a point of the right
    dimension [eval] does not fail; it returns [0.0] when the network is
    not normalized and, when it is, the NaN that dividing [0.0] by [0.0]
    gives. *)
Theorem eval_without_samples `{Environment spec_float}
    (m : RBFNetwork spec_float) (x : DenseVector spec_float) :
  points (samples m) = [] -> length x = numVariables m ->
  eval m x = Ok (if normalized m then S754_nan else S754_zero false).
Proof.
  intros Hpts Hx. unfold eval.
  rewrite Hx, Nat.eqb_refl, Hpts. cbn [negb for_each].
  rewrite bind_Ok. cbv beta iota zeta.
  by destruct (normalized m).
Qed.

Section ExactEvaluation.
Context `{Environment R}.
Local Open Scope R_scope.

Lemma exact_dot_constant (c : R) (v : list R) :
  dot (replicate (length v) c) v = c * big_sum v.
Proof.
  unfold dot. induction v as [|a v IH].
  - cbn [length replicate zip_with]. rewrite exact_big_sum_nil. lra.
  - cbn [length replicate zip_with].
    rewrite !exact_big_sum_cons, IH. cbn [dmul exact]. lra.
Qed.

(** X19. In exact arithmetic a normalized network whose weights are all
    equal to [c] returns [c] at every point of the right dimension where
    the activations do not sum to zero: normalization makes the basis a
    partition of unity. *)
Theorem normalized_reproduces_constants (m : RBFNetwork R)
    (x : DenseVector R) (c : R) :
  network_wf m -> normalized m = true -> length x = numVariables m ->
  coefficients m = replicate (length (points (samples m))) c ->
  spec_sum m x <> 0 ->
  eval m x = Ok c.
Proof.
  intros Hwf Hnz Hx Hw Hsum.
  rewrite (eval_value m x Hwf Hx). f_equal.
  unfold spec_evaluate. rewrite Hnz.
  rewrite <- (dot_activations m x Hwf), Hw.
  rewrite <- (length_map (fun p => activation (fn m) x (getX p))).
  rewrite exact_dot_constant. fold (spec_sum m x).
  cbn [ddiv exact]. by field.
Qed.
End ExactEvaluation.

(** ** The description and the kernel *)

Section Description.
Context {D : Type} `{Double D} `{Environment D}.

Lemma RBFNetwork_new_fields (t : DataTable D) (ty : RBFType) (nz : bool)
    (m : RBFNetwork D) (diag : Diagnostics D) :
  RBFNetwork_new t ty nz = Ok (m, diag) ->
  samples m = t /\ type m = ty /\ normalized m = nz
  /\ fn m = select_kernel ty /\ precondition m = false
  /\ numVariables m = getNumVariables t /\ numSamples m = getNumSamples t.
Proof.
  unfold RBFNetwork_new. cbv zeta.
  destruct (assemble _ _ _ _ _) as [[A b]|e]; [|done].
  rewrite bind_Ok. cbv beta iota.
  destruct (vread _ 0) as [smax|e]; [|done]. rewrite bind_Ok.
  destruct (vread _ _) as [smin|e]; [|done]. rewrite bind_Ok.
  intros [= <- _]. done.
Qed.

(** X20. The description and the kernel of a network whose kernel was
    chosen by the constructor from its type: two such networks with the
    same description evaluate with the same kernel, but the description
    does not always name the kernel, because a type that is none of the
    five enumerators is described as "Error: Unknown!" while the network
    evaluates with the thin plate spline. *)
Theorem description_and_kernel (m m' : RBFNetwork D) :
  fn m = select_kernel (type m) -> fn m' = select_kernel (type m') ->
  (getDescription m = getDescription m' -> fn m = fn m')
  /\ (getDescription m = "RadialBasisFunction of type Error: Unknown!"%string
      <-> exists z, type m = UNRECOGNIZED z)
  /\ (getDescription m = "RadialBasisFunction of type Error: Unknown!"%string
      -> fn m = ThinPlateSpline).
Proof.
  intros -> ->. unfold getDescription. cbv zeta.
  split; [|split].
  - destruct (type m), (type m'); cbn; intros Heq; try done;
      by simplify_eq.
  - split.
    + destruct (type m) as [| | | | |z]; cbn; intros Heq;
        try by simplify_eq.
      by exists z.
    + by intros [z ->].
  - destruct (type m); cbn; intros Heq; try done; by simplify_eq.
Qed.
End Description.

(** ** Interpolation *)

Section Interpolation.
Context `{Environment R}.
Local Open Scope R_scope.

Lemma fold_left_terms {A} (g : A -> R) (l : list A) :
  forall s, fold_left (fun s k => s + g k) l s = fold_left Rplus (map g l) s.
Proof. induction l as [|a l IH]; intros s; cbn [fold_left map]; auto. Qed.

(** Row [i] of [A·w], for the matrix of the samples, is [sumw] at the
    inputs of sample [i]. *)
Lemma system_row (m : RBFNetwork R) (A : DenseMatrix R) (i : nat)
    (p : DataPoint R) :
  length (coefficients m) = length (points (samples m)) ->
  cols A = length (points (samples m)) ->
  (forall j pj, points (samples m) !! j = Some pj ->
                mcoeff 0 A i j = entry (fn m) p pj) ->
  fold_left (fun s k => s + mcoeff 0 A i k * vcoeff 0 (coefficients m) k)
            (seq 0 (cols A)) 0
  = spec_sumw m (getX p).
Proof.
  intros Hw Hcols Hentry.
  rewrite (fold_left_terms
             (fun k => mcoeff 0 A i k * vcoeff 0 (coefficients m) k)).
  unfold spec_sumw, big_sum. cbn [dadd d0 exact]. f_equal.
  apply list_eq. intros k.
  rewrite !list_lookup_fmap, enum_from_lookup, Hcols.
  destruct (points (samples m) !! k) as [pk|] eqn:Hk.
  - assert (k < length (points (samples m)))%nat as Hlt
      by (by apply lookup_lt_is_Some_1).
    rewrite lookup_seq_lt by done. cbn.
    rewrite (Hentry k pk Hk). unfold weight, vcoeff, entry.
    rewrite (nth_indep _ 0 indeterminate) by lia.
    f_equal. apply Rmult_comm.
  - apply lookup_ge_None_1 in Hk.
    rewrite lookup_seq_ge by lia. done.
Qed.

(** X22. Interpolation, in exact arithmetic: if the weights of a network
    solve the linear system that the constructor assembles from the
    network's samples, then the network returns at the inputs of every
    sample the output of that sample (for a normalized network, where the
    activations at the sample do not sum to zero). *)
Theorem interpolates_samples (m : RBFNetwork R) (i : nat) (p : DataPoint R) :
  network_wf m ->
  (forall A b,
      assemble (fn m) (normalized m) (points (samples m))
        (mconst (length (points (samples m)))
                (length (points (samples m))) d0)
        (vconst (length (points (samples m))) d0) = Ok (A, b) ->
      mvmul A (coefficients m) = b) ->
  points (samples m) !! i = Some p ->
  (normalized m = true -> spec_sum m (getX p) <> 0) ->
  eval m (getX p) = Ok (getY p).
Proof.
  intros Hwf Hsolve Hp Hsum. pose proof Hwf as (Hdims & Hw).
  set (t := {| getNumVariables := numVariables m;
               points := points (samples m) |}).
  destruct (assemble_system (fn m) (normalized m) t Hdims)
    as (A & b & HA & Hrows & Hcols & _ & Hentry & Hb).
  cbv zeta in *. unfold getNumSamples in *. cbn [points t] in *.
  specialize (Hsolve A b HA).
  assert (length (getX p) = numVariables m) as Hx.
  { rewrite Forall_forall in Hdims. apply Hdims.
    by apply list_elem_of_lookup_2 with i. }
  assert (i < length (points (samples m)))%nat as Hi
    by (by apply lookup_lt_is_Some_1).
  assert (spec_sumw m (getX p)
          = rhs (fn m) (normalized m) (points (samples m)) p) as Hrow.
  { rewrite <- (system_row m A i p Hw Hcols).
    - apply (f_equal (fun v => v !! i)) in Hsolve.
      unfold mvmul in Hsolve.
      rewrite Hb, !list_lookup_fmap, Hp, Hrows in Hsolve.
      rewrite lookup_seq_lt in Hsolve by done.
      cbn in Hsolve. by injection Hsolve.
    - intros j pj Hj. change (mcoeff 0) with (mcoeff (T := R) d0).
      rewrite (Hentry i j p pj Hp Hj). apply stored_exact. }
  rewrite (eval_value m (getX p) Hwf Hx). f_equal.
  unfold spec_evaluate. rewrite Hrow. unfold rhs.
  destruct (normalized m); [|done].
  rewrite kept_sum_exact. fold (big_sum (map (entry (fn m) p)
                                             (points (samples m)))).
  change (big_sum (map (entry (fn m) p) (points (samples m))))
    with (spec_sum m (getX p)).
  cbn [ddiv dmul exact]. field. by apply Hsum.
Qed.
End Interpolation.

(** ** The Jacobian as a derivative *)

Section JacobianValue.
Context {D : Type} `{Double D} `{Environment D}.
Local Open Scope double_scope.

Lemma evalJacobian_value (m : RBFNetwork D) (x : DenseVector D) :
  network_wf m -> length x = numVariables m ->
  evalJacobian m x
  = Ok {| rows := 1; cols := numVariables m;
          coeffs := map (spec_jacobian m x) (seq 0 (numVariables m)) |}.
Proof.
  intros Hwf Hx. unfold evalJacobian. cbv zeta.
  erewrite for_range_ext; cycle 1.
  { intros i jac Hi. rewrite (jacobian_sums_spec m x i Hwf Hx) by lia.
    rewrite bind_Ok.
    instantiate (1 := fun i jac => Ok (mset jac 0 i (spec_jacobian m x i))).
    unfold spec_jacobian. by destruct (normalized m). }
  pose proof (jac_fill (spec_jacobian m x) (numVariables m) (numVariables m)
                [] (replicate (numVariables m) d0) []) as Hfill.
  cbn [app length] in Hfill. rewrite !app_nil_r in Hfill.
  unfold mconst. rewrite Nat.mul_1_l.
  apply Hfill. apply length_replicate.
Qed.

Lemma evalJacobian_entry (m : RBFNetwork D) (x : DenseVector D) (i : nat) :
  network_wf m -> length x = numVariables m -> (i < numVariables m)%nat ->
  exists jac,
    evalJacobian m x = Ok jac /\ mcoeff d0 jac 0 i = spec_jacobian m x i.
Proof.
  intros Hwf Hx Hi. eexists. split; [by apply evalJacobian_value|].
  unfold mcoeff, mindex. cbn [rows coeffs].
  rewrite Nat.mul_1_r, Nat.add_0_l.
  apply nth_lookup_Some with (d := d0).
  rewrite list_lookup_fmap, lookup_seq_lt by done. done.
Qed.

Lemma enum_from_elem {A} (l : list A) (i j : nat) (a : A) :
  (j, a) ∈ enum_from i l -> a ∈ l.
Proof.
  intros Hin. apply list_elem_of_lookup in Hin as [k Hk].
  rewrite enum_from_lookup in Hk.
  destruct (l !! k) as [b|] eqn:Hb; [|done].
  injection Hk as _ <-. by apply list_elem_of_lookup_2 with k.
Qed.

Lemma enum_from_map {A B} (g : A -> B) (l : list A) :
  forall i, map (fun '(j, a) => g a) (enum_from i l) = map g l.
Proof.
  induction l as [|a l IH]; intros i; cbn [enum_from map]; [done|].
  by rewrite IH.
Qed.
End JacobianValue.

Section Derivative.
Context `{Environment R}.
Local Open Scope R_scope.

Lemma derivable_pt_lim_eq (f g : R -> R) (x l : R) :
  (forall t, f t = g t) -> derivable_pt_lim g x l -> derivable_pt_lim f x l.
Proof.
  intros Heq Hg eps Heps. destruct (Hg eps Heps) as [delta Hd].
  exists delta. intros h Hh Hlt. rewrite !Heq. by apply Hd.
Qed.

Lemma derivable_pt_lim_value (f : R -> R) (x l l' : R) :
  l = l' -> derivable_pt_lim f x l -> derivable_pt_lim f x l'.
Proof. by intros ->. Qed.

Lemma square_shift_derivative (s c x0 : R) :
  derivable_pt_lim (fun t => (t - s) * (t - s) + c) x0 (2 * (x0 - s)).
Proof.
  intros eps Heps. exists (mkposreal eps Heps). intros h Hh Hlt.
  cbn [pos] in Hlt.
  replace (((x0 + h - s) * (x0 + h - s) + c - ((x0 - s) * (x0 - s) + c)) / h
           - 2 * (x0 - s)) with h by (field; exact Hh).
  exact Hlt.
Qed.

Lemma moved_same (x : list R) (i : nat) :
  (i < length x)%nat -> moved x i (nth i x 0) = x.
Proof.
  intros Hi. unfold moved.
  destruct (lookup_lt_is_Some_2 x i Hi) as [a Ha].
  rewrite (nth_lookup_Some _ _ 0 _ Ha). by apply list_insert_id.
Qed.

Lemma sq_dist_moved (x s : list R) (i : nat) (t : R) :
  (i < length x)%nat -> length x = length s ->
  big_sum (zip_with (fun a b => dmul (dsub a b) (dsub a b)) (moved x i t) s)
  = (t - nth i s 0) * (t - nth i s 0)
    + (big_sum (zip_with (fun a b => dmul (dsub a b) (dsub a b)) x s)
       - (nth i x 0 - nth i s 0) * (nth i x 0 - nth i s 0)).
Proof.
  unfold moved. revert s i.
  induction x as [|a x IH]; intros [|b s] [|i] Hi Hlen;
    cbn [length] in *; try lia.
  - change (<[0%nat := t]> (a :: x)) with (t :: x).
    rewrite !sq_dist_cons. cbn [nth]. ring.
  - change (<[S i := t]> (a :: x)) with (a :: <[i := t]> x).
    rewrite !sq_dist_cons, IH by lia. cbn [nth]. ring.
Qed.

Lemma euclid_positive (x s : list R) :
  length x = length s -> x <> s -> 0 < euclid x s.
Proof.
  intros Hlen Hne. unfold euclid. cbn [dsqrt exact].
  apply sqrt_lt_R0.
  destruct (Rle_lt_or_eq_dec _ _ (sq_dist_nonneg x s)) as [Hlt|Heq];
    [done|].
  destruct Hne. by apply sq_dist_zero.
Qed.

Lemma euclid_moved_derivative (x s : list R) (i : nat) :
  (i < length x)%nat -> length x = length s -> x <> s ->
  derivable_pt_lim (fun t => euclid (moved x i t) s) (nth i x 0)
    ((nth i x 0 - nth i s 0) / euclid x s).
Proof.
  intros Hi Hlen Hne.
  pose proof (euclid_positive x s Hlen Hne) as Hr.
  unfold euclid in *. cbn [dsqrt exact] in *.
  set (q0 := big_sum (zip_with _ x s)) in *.
  assert (0 < q0) as Hq0.
  { destruct (Rle_lt_or_eq_dec _ _ (sq_dist_nonneg x s)) as [Hlt|Heq];
      [done|].
    destruct Hne. by apply sq_dist_zero. }
  set (si := nth i s 0). set (xi := nth i x 0).
  set (c := q0 - (xi - si) * (xi - si)).
  apply derivable_pt_lim_eq
    with (g := fun t => sqrt ((t - si) * (t - si) + c)).
  { intros t. f_equal. by apply sq_dist_moved. }
  assert (derivable_pt_lim (fun t => sqrt ((t - si) * (t - si) + c)) xi
            (/ (2 * sqrt q0) * (2 * (xi - si)))) as Hd.
  { apply (derivable_pt_lim_comp (fun t => (t - si) * (t - si) + c) sqrt).
    - apply square_shift_derivative.
    - replace ((xi - si) * (xi - si) + c) with q0 by (unfold c; ring).
      by apply derivable_pt_lim_sqrt. }
  apply (derivable_pt_lim_value _ _ (/ (2 * sqrt q0) * (2 * (xi - si))));
    [field; lra | exact Hd].
Qed.

Lemma activation_moved_derivative (k : RBF) (x s : list R) (i : nat) :
  (i < length x)%nat -> length x = length s -> x <> s ->
  derivable_pt_lim (RBF_eval k) (euclid x s)
    (RBF_evalDerivative k (euclid x s)) ->
  derivable_pt_lim (fun t => activation k (moved x i t) s) (nth i x 0)
    (directional k x s i).
Proof.
  intros Hi Hlen Hne Hk.
  pose proof (euclid_moved_derivative x s i Hi Hlen Hne) as He.
  assert (derivable_pt_lim (fun t => RBF_eval k (euclid (moved x i t) s))
            (nth i x 0)
            (RBF_evalDerivative k (euclid x s)
             * ((nth i x 0 - nth i s 0) / euclid x s))) as Hd.
  { apply (derivable_pt_lim_comp (fun t => euclid (moved x i t) s)
             (RBF_eval k)); [exact He|].
    cbv beta. by rewrite (moved_same x i Hi). }
  apply (derivable_pt_lim_value _ _
           (RBF_evalDerivative k (euclid x s)
            * ((nth i x 0 - nth i s 0) / euclid x s))); [|exact Hd].
  unfold directional. cbv zeta. cbn [dsub dmul ddiv d0 exact].
  unfold Rdiv. ring.
Qed.

Lemma derivable_big_sum {A} (f : A -> R -> R) (d : A -> R) (l : list A)
    (x0 : R) :
  (forall a, a ∈ l -> derivable_pt_lim (f a) x0 (d a)) ->
  derivable_pt_lim (fun t => big_sum (map (fun a => f a t) l)) x0
    (big_sum (map d l)).
Proof.
  induction l as [|a l IH]; intros Hd.
  - apply derivable_pt_lim_eq with (g := fct_cte 0); [done|].
    apply derivable_pt_lim_const.
  - apply derivable_pt_lim_eq
      with (g := plus_fct (f a)
                   (fun t => big_sum (map (fun a => f a t) l))).
    + intros t. cbn [map]. by rewrite exact_big_sum_cons.
    + cbn [map]. rewrite exact_big_sum_cons.
      apply derivable_pt_lim_plus.
      * apply Hd. constructor.
      * apply IH. intros b Hb. apply Hd. by constructor.
Qed.
Lemma off_centre_all (x : list R) (l : list (DataPoint R)) :
  (forall p, p ∈ l -> length x = length (getX p) /\ getX p <> x) ->
  forall j,
    filter (fun jp => off_centre x jp = true) (enum_from j l)
    = enum_from j l.
Proof.
  induction l as [|p l IH]; intros Hall j; cbn [enum_from]; [done|].
  rewrite filter_cons, decide_True.
  - f_equal. apply IH. intros q Hq. apply Hall. by constructor.
  - destruct (Hall p) as (Hlen & Hne); [constructor|].
    pose proof (euclid_positive x (getX p) Hlen
                  (fun e => Hne (eq_sym e))) as Hr.
    unfold off_centre, dneb. cbn [snd deqb exact d0].
    destruct (Req_dec_T _ 0) as [Hz|Hnz]; [lra | done].
Qed.

(** X23. The Jacobian is the derivative of the network, in exact
    arithmetic.  Take a point [x] of the right dimension that is not the
    input of any sample, a kernel that at each distance from [x] to a
    sample has the derivative [evalDerivative] returns, and, for a
    normalized network, activations that do not sum to zero at [x].  Then
    entry [i] of [evalJacobian(x)] is the derivative, at [xᵢ], of the value
    [eval] returns when coordinate [i] of [x] varies. *)
Theorem evalJacobian_is_derivative (m : RBFNetwork R) (x : DenseVector R)
    (i : nat) :
  network_wf m -> length x = numVariables m -> (i < numVariables m)%nat ->
  (forall p, p ∈ points (samples m) -> getX p <> x) ->
  (forall p, p ∈ points (samples m) ->
     derivable_pt_lim (RBF_eval (fn m)) (euclid x (getX p))
       (RBF_evalDerivative (fn m) (euclid x (getX p)))) ->
  (normalized m = true -> spec_sum m x <> 0) ->
  exists jac f,
    evalJacobian m x = Ok jac
    /\ (forall t, eval m (moved x i t) = Ok (f t))
    /\ derivable_pt_lim f (nth i x 0) (mcoeff 0 jac 0 i).
Proof.
  intros Hwf Hx Hi Hoff Hker Hsum. pose proof Hwf as (Hdims & Hw).
  destruct (evalJacobian_entry m x i Hwf Hx Hi) as (jac & Hjac & Hentry).
  exists jac, (fun t => spec_evaluate m (moved x i t)).
  split; [exact Hjac | split].
  { intros t. apply eval_value; [done|].
    unfold moved. by rewrite length_insert. }
  change (mcoeff 0 jac 0 i) with (mcoeff (T := R) d0 jac 0 i).
  rewrite Hentry.
  assert (forall p, p ∈ points (samples m) ->
                    length x = length (getX p)) as Hlen.
  { intros p Hp. rewrite Forall_forall in Hdims.
    by rewrite (Hdims p Hp). }
  assert (forall p, p ∈ points (samples m) ->
            derivable_pt_lim
              (fun t => activation (fn m) (moved x i t) (getX p))
              (nth i x 0) (directional (fn m) x (getX p) i)) as Hact.
  { intros p Hp. apply activation_moved_derivative;
      [lia | by apply Hlen | | by apply Hker].
    intros e. by apply (Hoff p Hp). }
  assert (forall j,
            filter (fun jp => off_centre x jp = true)
                   (enum_from j (points (samples m)))
            = enum_from j (points (samples m))) as Hall.
  { apply off_centre_all. intros p Hp.
    split; [by apply Hlen | by apply Hoff]. }
  assert (derivable_pt_lim (fun t => spec_sum m (moved x i t)) (nth i x 0)
            (spec_sum_d m x i)) as HS.
  { unfold spec_sum_d. rewrite Hall.
    rewrite (enum_from_map (fun p => directional (fn m) x (getX p) i)).
    exact (derivable_big_sum
             (fun p t => activation (fn m) (moved x i t) (getX p))
             (fun p => directional (fn m) x (getX p) i)
             (points (samples m)) (nth i x 0) Hact). }
  assert (derivable_pt_lim (fun t => spec_sumw m (moved x i t)) (nth i x 0)
            (spec_sumw_d m x i)) as HW.
  { unfold spec_sumw_d. rewrite Hall.
    refine (derivable_big_sum
              (fun jp t =>
                 let '(j, p) := jp in
                 weight m j * activation (fn m) (moved x i t) (getX p))
              (fun jp =>
                 let '(j, p) := jp in
                 weighted_directional m j x (getX p) i)
              (enum_from 0 (points (samples m))) (nth i x 0) _).
    intros [j p] Hjp. apply enum_from_elem in Hjp.
    apply (derivable_pt_lim_value _ _
             (weight m j * directional (fn m) x (getX p) i)).
    - unfold weighted_directional, directional. cbv zeta.
      cbn [dsub dmul ddiv d0 exact]. unfold Rdiv. ring.
    - exact (derivable_pt_lim_scal
               (fun t => activation (fn m) (moved x i t) (getX p))
               (weight m j) _ _ (Hact p Hjp)). }
  unfold spec_jacobian. destruct (normalized m) eqn:Hnz.
  - apply derivable_pt_lim_eq
      with (g := div_fct (fun t => spec_sumw m (moved x i t))
                         (fun t => spec_sum m (moved x i t))).
    { intros t. unfold spec_evaluate. by rewrite Hnz. }
    pose proof (derivable_pt_lim_div _ _ _ _ _ HW HS) as Hdiv.
    cbv beta in Hdiv. rewrite (moved_same x i) in Hdiv by lia.
    apply (derivable_pt_lim_value _ _
             ((spec_sumw_d m x i * spec_sum m x
               - spec_sum_d m x i * spec_sumw m x)
              / Rsqr (spec_sum m x))).
    + unfold Rsqr. cbn [dsub dmul ddiv exact]. unfold Rdiv. ring.
    + apply Hdiv. by apply Hsum.
  - apply derivable_pt_lim_eq
      with (g := fun t => spec_sumw m (moved x i t)); [|exact HW].
    intros t. unfold spec_evaluate. by rewrite Hnz.
Qed.
End Derivative.

(** ** Binary64: the distance from a point to itself *)

Section SelfDistance.

Lemma SFsub_self (a : spec_float) :
  finite64 a = true -> SFsub prec64 emax64 a a = S754_zero false.
Proof.
  destruct a as [s|s| |s m e]; intros Hfin; try done.
  - by destruct s.
  - unfold SFsub. cbv zeta. by rewrite Z.sub_diag.
Qed.

Lemma square_sum_self (x : list spec_float) :
  Forall (fun a => finite64 a = true) x ->
  big_sum (zip_with (fun a b => dmul (dsub a b) (dsub a b)) x x)
  = S754_zero false.
Proof.
  unfold big_sum. intros Hfin.
  induction Hfin as [|a x Ha _ IH]; cbn [zip_with fold_left]; [done|].
  cbn [dsub dmul dadd d0 binary64]. rewrite (SFsub_self a Ha). exact IH.
Qed.

(** X24. In binary64 the distance from a point to itself is exactly
    [+0.0] when its coordinates are finite.  So a sample whose inputs are
    the query point fails the test [r != 0] of [evalJacobian] and adds
    nothing to [sum_d] and [sumw_d]: the quotient [ri / r], which would
    be [0.0 / 0.0], is never formed for it. *)
Theorem binary64_distance_to_itself (x : list spec_float) :
  Forall (fun a => finite64 a = true) x ->
  dist x x = Ok (S754_zero false)
  /\ forall (j : nat) (p : DataPoint spec_float),
       getX p = x -> off_centre x (j, p) = false.
Proof.
  intros Hfin.
  assert (euclid x x = S754_zero false) as Hzero.
  { unfold euclid. by rewrite (square_sum_self x Hfin). }
  split.
  - rewrite (dist_euclid x x eq_refl). by rewrite Hzero.
  - intros j p Hp. unfold off_centre. cbn [snd].
    by rewrite Hp, Hzero.
Qed.
End SelfDistance.

(** * The further results on concrete inputs *)

Section MoreConcrete.
#[local] Existing Instance Demo.env64.
#[local] Existing Instance Demo.envR.

Lemma vector3_ok : SerializerRest.vector_ok Samples.vector3.
Proof. split; [repeat constructor | reflexivity]. Qed.

Lemma matrix5x3_ok : SerializerRest.matrix_ok Demo.matrix5x3.
Proof.
  split; [reflexivity | split; [repeat constructor | by repeat split]].
Qed.

Lemma DenseVector_roundtrip_witness :
  SerializerRest._serialize_DenseVector Samples.vector3
    Serializer.Serializer_new
  = {| Serializer.stream :=
         Serializer.stream Serializer.Serializer_new
         ++ SerializerRest.vector_bytes Samples.vector3;
       Serializer.read := Serializer.read Serializer.Serializer_new |}
  /\ SerializerRest.get_size_DenseVector Samples.vector3
     = N.of_nat (length (SerializerRest.vector_bytes Samples.vector3))
  /\ SerializerRest.get_size_DenseVector Samples.vector3
     = (8 + 8 * N.of_nat (length Samples.vector3))%N
  /\ forall s0 rest,
       Serializer.remaining s0
       = SerializerRest.vector_bytes Samples.vector3 ++ rest ->
       exists s',
         SerializerRest.deserialize_DenseVector 0%N s0
         = Ok (Samples.vector3, s')
         /\ Serializer.remaining s' = rest
         /\ Serializer.stream s' = Serializer.stream s0.
Proof.
  apply (SerializerMore.DenseVector_roundtrip Samples.vector3 0%N).
  exact vector3_ok.
Defined.

Lemma matrix_then_vector_witness :
  let s1 :=
    SerializerRest._serialize_DenseVector Samples.vector3
      (Serializer._serialize_DenseMatrix Demo.matrix5x3
         Serializer.Serializer_new) in
  exists s2 s3,
    Serializer.deserialize_DenseMatrix 0%N s1 = Ok (Demo.matrix5x3, s2)
    /\ SerializerRest.deserialize_DenseVector 0%N s2
       = Ok (Samples.vector3, s3)
    /\ Serializer.read s3 = length (Serializer.stream s3)
    /\ Serializer.stream s3 = Serializer.stream s1.
Proof.
  apply (SerializerMore.matrix_then_vector Demo.matrix5x3 Samples.vector3
           0%N Serializer.Serializer_new).
  - exact matrix5x3_ok.
  - exact vector3_ok.
  - reflexivity.
Defined.

Lemma truncated_matrix_fails_witness :
  Serializer.deserialize_DenseMatrix 0%N
    {| Serializer.stream :=
         take 100 (SerializerRest.matrix_bytes Demo.matrix5x3);
       Serializer.read := 0 |}
  = Throw (Exception Serializer.msg_stream).
Proof.
  apply (SerializerMore.truncated_matrix_fails Demo.matrix5x3 0%N _ 100).
  - exact matrix5x3_ok.
  - vm_compute. lia.
  - reflexivity.
Defined.

Lemma matrix_through_file_witness :
  exists s s',
    SerializerRest.Serializer_open "model.bin"
      (SerializerRest.saveToFile "model.bin"
         (Serializer.serialize_DenseMatrix Demo.matrix5x3) Samples.disk)
    = Ok s
    /\ Serializer.deserialize_DenseMatrix 0%N s = Ok (Demo.matrix5x3, s')
    /\ Serializer.read s' = length (Serializer.stream s').
Proof.
  apply (SerializerMore.matrix_through_file Demo.matrix5x3 0%N).
  - exact matrix5x3_ok.
  - reflexivity.
Defined.

Lemma sparse_roundtrip_witness :
  (exists s',
     SerializerRest.deserialize_SparseMatrix Datatypes.id 0%N
       (SerializerRest._serialize_SparseMatrix Datatypes.id Demo.matrix5x3
          Serializer.Serializer_new) = Ok (Demo.matrix5x3, s')
     /\ Serializer.read s' = length (Serializer.stream s')
     /\ N.of_nat (length (Serializer.stream s'))
        = (N.of_nat (length (Serializer.stream Serializer.Serializer_new))
           + SerializerRest.get_size_SparseMatrix Datatypes.id Demo.matrix5x3)%N)
  /\ (exists s',
        SerializerRest.deserialize_SparseVector Datatypes.id 0%N
          (SerializerRest._serialize_SparseVector Datatypes.id Samples.vector3
             Serializer.Serializer_new) = Ok (Samples.vector3, s')
        /\ Serializer.read s' = length (Serializer.stream s')
        /\ N.of_nat (length (Serializer.stream s'))
           = (N.of_nat (length (Serializer.stream Serializer.Serializer_new))
              + SerializerRest.get_size_SparseVector Datatypes.id Samples.vector3)%N).
Proof.
  apply (SerializerMore.sparse_roundtrip
           Datatypes.id Datatypes.id Datatypes.id Datatypes.id
           Demo.matrix5x3 Samples.vector3 0%N Serializer.Serializer_new).
  - exact matrix5x3_ok.
  - reflexivity.
  - exact vector3_ok.
  - reflexivity.
  - reflexivity.
Defined.

Lemma DataPoint_format_witness :
  Composite.codec_ok
    (CT := Composite.DataPoint_codec
             (CX := Composite.DenseVector_codec 0%N)
             (CY := Composite.scalar_codec))
    (fun p => SerializerRest.vector_ok (Composite.DataPoint.x p)
              /\ Serializer.is_bits64 (Composite.DataPoint.y p))
    (fun p => SerializerRest.vector_bytes (Composite.DataPoint.x p)
              ++ Serializer.object_bytes 8 (Composite.DataPoint.y p)).
Proof.
  apply CompositeFacts.DataPoint_format.
  - exact (CompositeFacts.DenseVector_codec_ok 0%N).
  - exact CompositeFacts.scalar_codec_ok.
Defined.

Lemma DataTable_format_witness :
  Composite.codec_ok
    (CT := Composite.DataTable_codec
             (CB1 := Composite.scalar_codec) (CB2 := Composite.scalar_codec)
             (CU1 := Composite.scalar_codec) (CU2 := Composite.scalar_codec)
             (CU3 := Composite.scalar_codec)
             (CS := Composite.DenseMatrix_codec 0%N)
             (CG := Composite.DenseVector_codec 0%N))
    (fun t =>
       Serializer.is_bits64 (Composite.DataTable._allow_duplicates t)
       /\ Serializer.is_bits64 (Composite.DataTable._allow_incomplete_grid t)
       /\ Serializer.is_bits64 (Composite.DataTable._num_duplicates t)
       /\ Serializer.is_bits64 (Composite.DataTable._dim_x t)
       /\ Serializer.is_bits64 (Composite.DataTable._dim_y t)
       /\ SerializerRest.matrix_ok (Composite.DataTable.samples t)
       /\ SerializerRest.vector_ok (Composite.DataTable.grid t))
    (fun t =>
       Serializer.object_bytes 8 (Composite.DataTable._allow_duplicates t)
       ++ Serializer.object_bytes 8
            (Composite.DataTable._allow_incomplete_grid t)
       ++ Serializer.object_bytes 8 (Composite.DataTable._num_duplicates t)
       ++ Serializer.object_bytes 8 (Composite.DataTable._dim_x t)
       ++ Serializer.object_bytes 8 (Composite.DataTable._dim_y t)
       ++ SerializerRest.matrix_bytes (Composite.DataTable.samples t)
       ++ SerializerRest.vector_bytes (Composite.DataTable.grid t)).
Proof.
  apply CompositeFacts.DataTable_format.
  - exact CompositeFacts.scalar_codec_ok.
  - exact CompositeFacts.scalar_codec_ok.
  - exact CompositeFacts.scalar_codec_ok.
  - exact CompositeFacts.scalar_codec_ok.
  - exact CompositeFacts.scalar_codec_ok.
  - exact (CompositeFacts.DenseMatrix_codec_ok 0%N).
  - exact (CompositeFacts.DenseVector_codec_ok 0%N).
Defined.

Lemma BSplineBasis1D_format_witness :
  Composite.codec_ok
    (CT := Composite.BSplineBasis1D_codec
             (CU1 := Composite.scalar_codec)
             (CK := Composite.DenseVector_codec 0%N)
             (CU2 := Composite.scalar_codec))
    (fun b =>
       Serializer.is_bits64 (Composite.BSplineBasis1D.degree b)
       /\ SerializerRest.vector_ok
            (Composite.KnotVector.knots (Composite.BSplineBasis1D.knots b))
       /\ Serializer.is_bits64
            (Composite.BSplineBasis1D.target_num_basis_functions b))
    (fun b =>
       Serializer.object_bytes 8 (Composite.BSplineBasis1D.degree b)
       ++ SerializerRest.vector_bytes
            (Composite.KnotVector.knots (Composite.BSplineBasis1D.knots b))
       ++ Serializer.object_bytes 8
            (Composite.BSplineBasis1D.target_num_basis_functions b)).
Proof.
  apply CompositeFacts.BSplineBasis1D_format.
  - exact CompositeFacts.scalar_codec_ok.
  - exact (CompositeFacts.DenseVector_codec_ok 0%N).
  - exact CompositeFacts.scalar_codec_ok.
Defined.

Lemma BSpline_format_witness :
  Composite.codec_ok
    (CT := Composite.BSpline_codec
             (CV := Composite.DenseVector_codec 0%N)
             (CU := Composite.scalar_codec)
             (CC := Composite.DenseMatrix_codec 0%N)
             (CU1 := Composite.scalar_codec)
             (CU2 := Composite.scalar_codec))
    (fun b =>
       (SerializerRest.vector_ok
          (Composite.BSplineBasis.bases (Composite.BSpline.basis b))
        /\ Serializer.is_bits64
             (Composite.BSplineBasis.num_variables (Composite.BSpline.basis b)))
       /\ SerializerRest.matrix_ok (Composite.BSpline.control_points b)
       /\ Serializer.is_bits64 (Composite.BSpline.dim_x b)
       /\ Serializer.is_bits64 (Composite.BSpline.dim_y b))
    (fun b =>
       (SerializerRest.vector_bytes
          (Composite.BSplineBasis.bases (Composite.BSpline.basis b))
        ++ Serializer.object_bytes 8
             (Composite.BSplineBasis.num_variables (Composite.BSpline.basis b)))
       ++ SerializerRest.matrix_bytes (Composite.BSpline.control_points b)
       ++ Serializer.object_bytes 8 (Composite.BSpline.dim_x b)
       ++ Serializer.object_bytes 8 (Composite.BSpline.dim_y b)).
Proof.
  apply CompositeFacts.BSpline_format.
  - exact (CompositeFacts.DenseVector_codec_ok 0%N).
  - exact CompositeFacts.scalar_codec_ok.
  - exact (CompositeFacts.DenseMatrix_codec_ok 0%N).
  - exact CompositeFacts.scalar_codec_ok.
  - exact CompositeFacts.scalar_codec_ok.
Defined.

Lemma dist_symmetric_witness :
  dist [Demo.one; Demo.two] [Demo.three; Demo.half]
  = dist [Demo.three; Demo.half] [Demo.one; Demo.two].
Proof.
  exact (dist_symmetric (D := spec_float)
           [Demo.one; Demo.two] [Demo.three; Demo.half]).
Defined.

Lemma dist_exact_metric_witness :
  (0 <= euclid (getX Samples.pointA) (getX Samples.pointB))%R
  /\ (euclid (getX Samples.pointA) (getX Samples.pointB) = 0%R
      <-> getX Samples.pointA = getX Samples.pointB)
  /\ exists rxz,
       dist (getX Samples.pointA) (getX Samples.pointC) = Ok rxz
       /\ (rxz <= euclid (getX Samples.pointA) (getX Samples.pointB)
                  + euclid (getX Samples.pointB) (getX Samples.pointC))%R.
Proof.
  apply (dist_exact_metric (getX Samples.pointA) (getX Samples.pointB)
           (getX Samples.pointC)).
  - apply dist_euclid. reflexivity.
  - apply dist_euclid. reflexivity.
Defined.

Lemma dist_sort_orders_by_norm_witness :
  (dist_sort Samples.pointA Samples.pointB = Ok true
   <-> (sum_squares (getX Samples.pointA)
        < sum_squares (getX Samples.pointB))%R)
  /\ (dist_sort Samples.pointA Samples.pointB = Ok false
      <-> (sum_squares (getX Samples.pointB)
           <= sum_squares (getX Samples.pointA))%R)
  /\ dist_sort Samples.pointA Samples.pointA = Ok false
  /\ (dist_sort Samples.pointA Samples.pointB = Ok true ->
      dist_sort Samples.pointB Samples.pointC = Ok true ->
      dist_sort Samples.pointA Samples.pointC = Ok true).
Proof.
  apply (dist_sort_orders_by_norm Samples.pointA Samples.pointB
           Samples.pointC); reflexivity.
Defined.

Lemma evalBasis_entries_witness :
  exists basis,
    evalBasis (Demo.net64 true) [Demo.three] = Ok basis
    /\ length basis = length (points (samples (Demo.net64 true)))
    /\ forall i p,
         points (samples (Demo.net64 true)) !! i = Some p ->
         basis !! i
         = Some (ddiv (activation (fn (Demo.net64 true)) [Demo.three]
                         (getX p))
                      (spec_sum (Demo.net64 true) [Demo.three])).
Proof.
  apply (evalBasis_entries (Demo.net64 true) [Demo.three]).
  - exact (net64_wf true).
  - reflexivity.
Defined.

Lemma eval_without_samples_witness :
  eval Samples.net64_empty [Demo.one; Demo.two] = Ok S754_nan.
Proof.
  apply (eval_without_samples Samples.net64_empty [Demo.one; Demo.two]);
    reflexivity.
Defined.

Lemma normalized_reproduces_constants_witness :
  eval Samples.netR_constant [(1 / 2)%R] = Ok 2%R.
Proof.
  apply (normalized_reproduces_constants Samples.netR_constant
           [(1 / 2)%R] 2%R).
  - split; [repeat constructor | reflexivity].
  - reflexivity.
  - reflexivity.
  - reflexivity.
  - exact (netR_sum_nonzero [(1 / 2)%R]).
Defined.
Lemma description_and_kernel_witness :
  (getDescription (Demo.net64 true) = getDescription Demo.net64_no_samples ->
   fn (Demo.net64 true) = fn Demo.net64_no_samples)
  /\ (getDescription (Demo.net64 true)
      = "RadialBasisFunction of type Error: Unknown!"%string
      <-> exists z, type (Demo.net64 true) = UNRECOGNIZED z)
  /\ (getDescription (Demo.net64 true)
      = "RadialBasisFunction of type Error: Unknown!"%string
      -> fn (Demo.net64 true) = ThinPlateSpline).
Proof.
  apply (description_and_kernel (Demo.net64 true) Demo.net64_no_samples);
    reflexivity.
Defined.

Lemma netR_one_wf : network_wf Samples.netR_one.
Proof. split; [repeat constructor | reflexivity]. Qed.

Lemma netR_one_solves (A : DenseMatrix R) (b : DenseVector R) :
  assemble (fn Samples.netR_one) (normalized Samples.netR_one)
    (points (samples Samples.netR_one))
    (mconst (length (points (samples Samples.netR_one)))
            (length (points (samples Samples.netR_one))) d0)
    (vconst (length (points (samples Samples.netR_one))) d0) = Ok (A, b) ->
  mvmul A (coefficients Samples.netR_one) = b.
Proof.
  intros HA.
  destruct (assemble_system Gaussian false Samples.tableR_one
              (proj1 netR_one_wf))
    as (A' & b' & HA' & Hrows & Hcols & _ & Hentry & Hb).
  cbv zeta in *.
  pose proof (eq_trans (eq_sym HA) HA') as Heq. injection Heq as <- <-.
  unfold mvmul. rewrite Hrows, Hcols, Hb.
  cbn [getNumSamples Samples.tableR_one points length seq map fold_left
       rhs getY Samples.netR_one coefficients].
  f_equal.
  rewrite (Hentry 0%nat 0%nat _ _ eq_refl eq_refl), stored_exact.
  unfold entry, activation, euclid, vcoeff. cbn.
  replace (0 + (0 - 0) * (0 - 0))%R with 0%R by ring. rewrite sqrt_0.
  replace (- (0 * 0))%R with 0%R by ring. rewrite exp_0. ring.
Qed.

Lemma interpolates_samples_witness :
  eval Samples.netR_one [0%R] = Ok 5%R.
Proof.
  apply (interpolates_samples Samples.netR_one 0
           {| getX := [0%R]; getY := 5%R |}).
  - exact netR_one_wf.
  - exact netR_one_solves.
  - reflexivity.
  - discriminate.
Defined.
Lemma negated_square_derivative (r0 : R) :
  derivable_pt_lim (fun r => (- (r * r))%R) r0 (-2 * r0)%R.
Proof.
  intros eps Heps. exists (mkposreal eps Heps). intros h Hh Hlt.
  cbn [pos] in Hlt.
  replace ((- ((r0 + h) * (r0 + h)) - - (r0 * r0)) / h - -2 * r0)%R
    with (- h)%R by (field; exact Hh).
  by rewrite Rabs_Ropp.
Qed.

(** The Gaussian of [Demo.envR] has the derivative its [evalDerivative]
    returns. *)
Lemma gaussian_derivative (r0 : R) :
  derivable_pt_lim (RBF_eval Gaussian) r0 (RBF_evalDerivative Gaussian r0).
Proof.
  change (derivable_pt_lim (fun r => exp (- (r * r))) r0
            (-2 * r0 * exp (- (r0 * r0)))%R).
  apply (derivable_pt_lim_value _ _ (exp (- (r0 * r0)) * (-2 * r0))%R);
    [ring|].
  apply (derivable_pt_lim_comp (fun r => (- (r * r))%R) exp).
  - apply negated_square_derivative.
  - apply derivable_pt_lim_exp.
Qed.

Lemma netR_off_samples (p : DataPoint R) :
  p ∈ points (samples Demo.netR) -> getX p <> [(1 / 2)%R].
Proof.
  intros Hp. cbn in Hp.
  repeat (apply elem_of_cons in Hp as [-> | Hp]);
    [| | | by apply elem_of_nil in Hp];
    cbn; intros [= E]; lra.
Qed.

Lemma evalJacobian_is_derivative_witness :
  exists jac f,
    evalJacobian Demo.netR [(1 / 2)%R] = Ok jac
    /\ (forall t, eval Demo.netR (moved [(1 / 2)%R] 0 t) = Ok (f t))
    /\ derivable_pt_lim f (nth 0 [(1 / 2)%R] 0%R) (mcoeff 0%R jac 0 0).
Proof.
  apply (evalJacobian_is_derivative Demo.netR [(1 / 2)%R] 0).
  - exact netR_wf.
  - reflexivity.
  - cbn. lia.
  - exact netR_off_samples.
  - intros p _. exact (gaussian_derivative _).
  - intros _. exact (netR_sum_nonzero _).
Defined.
Lemma binary64_distance_to_itself_witness :
  dist [Demo.one; Demo.three] [Demo.one; Demo.three] = Ok (S754_zero false)
  /\ forall (j : nat) (p : DataPoint spec_float),
       getX p = [Demo.one; Demo.three] ->
       off_centre [Demo.one; Demo.three] (j, p) = false.
Proof.
  apply (binary64_distance_to_itself [Demo.one; Demo.three]).
  repeat constructor.
Defined.
End MoreConcrete.

(** * The results that depend on the singular values, on concrete inputs *)

Section EigenConcrete.
#[local] Existing Instance Samples.eigen64.

Lemma table64_samples : (1 <= getNumSamples Demo.table64)%nat.
Proof. cbn. lia. Qed.

(** The kernels of the environment return binary64 numbers on the
    distances between the samples of [Demo.table64]. *)
Lemma table64_kernel_values (ty : RBFType) (pi pj : DataPoint spec_float) :
  pi ∈ points Demo.table64 -> pj ∈ points Demo.table64 ->
  valid_binary prec64 emax64
    (RBF_eval (select_kernel ty) (euclid (getX pi) (getX pj))) = true.
Proof.
  intros Hpi Hpj. cbn [points Demo.table64] in Hpi, Hpj.
  repeat (apply elem_of_cons in Hpi as [-> | Hpi]);
    [| | | by apply elem_of_nil in Hpi];
    repeat (apply elem_of_cons in Hpj as [-> | Hpj]);
    try (by apply elem_of_nil in Hpj);
    destruct ty; by vm_compute.
Qed.

Lemma eigen64_singular_values (A : DenseMatrix spec_float) :
  length (svd_singularValues A) = rows A.
Proof.
  cbn [svd_singularValues Samples.eigen64].
  destruct (rows A); cbn [length]; [done|]. by rewrite length_replicate.
Qed.

Lemma linear_system_entries_witness :
  exists A b,
    assemble (select_kernel MULTIQUADRIC) true (points Demo.table64)
             (mconst 3 3 d0) (vconst 3 d0) = Ok (A, b)
    /\ length (svd_singularValues A) = 3%nat
    /\ (exists trained,
          RBFNetwork_new Demo.table64 MULTIQUADRIC true = Ok trained
          /\ coefficients trained.1 = svd_solve A b)
    /\ rows A = 3%nat /\ cols A = 3%nat
    /\ (forall i j pi pj,
          points Demo.table64 !! i = Some pi ->
          points Demo.table64 !! j = Some pj ->
          let val :=
            RBF_eval (select_kernel MULTIQUADRIC)
                     (euclid (getX pi) (getX pj)) in
          mcoeff d0 A i j = val
          \/ (val = S754_zero true /\ mcoeff d0 A i j = S754_zero false))
    /\ (forall i pi,
          points Demo.table64 !! i = Some pi ->
          b !! i = Some (dmul (row_sum A i) (getY pi))).
Proof.
  destruct (linear_system_entries Demo.table64 MULTIQUADRIC true
              table64_wf table64_samples
              (table64_kernel_values MULTIQUADRIC))
    as (A & b & Hasm & Hnew & Hr & Hc & HA & Hb).
  assert (length (svd_singularValues A) = 3%nat) as Hlen
    by (rewrite eigen64_singular_values; exact Hr).
  exists A, b.
  split; [exact Hasm|]. split; [exact Hlen|].
  split; [exact (Hnew Hlen)|]. split; [exact Hr|]. split; [exact Hc|].
  split; [exact HA | exact Hb].
Defined.

Lemma rcondnum_is_diagnostic_witness :
  exists A b m diag,
    assemble (select_kernel INVERSE_QUADRIC) true (points Demo.table64)
             (mconst 3 3 d0) (vconst 3 d0) = Ok (A, b)
    /\ length (svd_singularValues A) = 3%nat
    /\ RBFNetwork_new Demo.table64 INVERSE_QUADRIC true = Ok (m, diag)
    /\ coefficients m = svd_solve A b
    /\ svd_singularValues A !! 0%nat = Some (svalmax diag)
    /\ svd_singularValues A !! 2%nat = Some (svalmin diag)
    /\ (dleb (svalmax diag) d0 = true \/ dleb (svalmin diag) d0 = true ->
        rcondnum diag = d0)
    /\ (dleb (svalmax diag) d0 = false -> dleb (svalmin diag) d0 = false ->
        rcondnum diag = ddiv (svalmin diag) (svalmax diag)).
Proof.
  destruct (rcondnum_is_diagnostic Demo.table64 INVERSE_QUADRIC true
              table64_wf table64_samples) as (A & b & Hasm & Hnew).
  assert (length (svd_singularValues A) = 3%nat) as Hlen.
  { vm_compute in Hasm. injection Hasm as <- _. reflexivity. }
  destruct (Hnew Hlen) as (m & diag & Hm & Hrest).
  exists A, b, m, diag.
  split; [exact Hasm|]. split; [exact Hlen|]. split; [exact Hm|].
  exact Hrest.
Defined.


Lemma constructor_throws_iff_witness :
  (uniform (points Demo.table64) ->
   exists A b,
     assemble (select_kernel MULTIQUADRIC) false (points Demo.table64)
       (mconst 3 3 d0) (vconst 3 d0) = Ok (A, b)
     /\ (length (svd_singularValues A) = 3%nat ->
         exists m diag,
           RBFNetwork_new Demo.table64 MULTIQUADRIC false = Ok (m, diag)))
  /\ (~ uniform (points Demo.table64) ->
      RBFNetwork_new Demo.table64 MULTIQUADRIC false
      = Throw (Exception msg_dist)).
Proof.
  exact (constructor_throws_iff Demo.table64 MULTIQUADRIC false
           table64_samples).
Defined.

Lemma trained_network_evaluates_witness :
  exists m diag,
    RBFNetwork_new Demo.table64 MULTIQUADRIC false = Ok (m, diag)
    /\ network_wf m
    /\ numVariables m = getNumVariables Demo.table64
    /\ numSamples m = getNumSamples Demo.table64
    /\ precondition m = false /\ fn m = select_kernel MULTIQUADRIC
    /\ forall x,
         (length x = getNumVariables Demo.table64 ->
          exists v basis jac,
            eval m x = Ok v /\ evalBasis m x = Ok basis
            /\ length basis = getNumSamples Demo.table64
            /\ evalJacobian m x = Ok jac)
         /\ (length x <> getNumVariables Demo.table64 ->
             eval m x = Throw (Exception msg_eval)
             /\ evalBasis m x = Throw (Exception msg_evalBasis)).
Proof.
  apply (trained_network_evaluates Demo.table64 MULTIQUADRIC false).
  - exact table64_wf.
  - exact table64_samples.
  - intros A b HA. vm_compute in HA. injection HA as <- <-.
    split; reflexivity.
Defined.
End EigenConcrete.
